(** * vmss-nmi: the VMSS tag-stream scanner and the pendingNMI patcher

    A shallow embedding of [vmss-nmi.c]: the tag macros, [setnmi] (one pass
    over the tag stream of a group), [process] (header, group table, one
    [setnmi] per "cpu" group) and the option loop of [main], followed by
    the properties of the specification that were checked against them.

    Conventions of the model.
    - A stream opened "r+" is a byte array with a cursor ([fdata], [fpos]).
      [fread], [fseek], [ftell] and [fwrite] act on it as ISO C describes
      them for a regular file; failures of the device itself (a full disk,
      a revoked descriptor) are outside the model.  The [fread] of the
      turn after a patch follows the [fwrite] with no positioning call in
      between; the model lets it read on from the cursor, as the C
      libraries the program runs on do.
    - [fseek] refuses a target that is negative or does not fit a [long]
      and accepts every other one.  A file system may refuse an offset
      past the end of the file well below [LONG_MAX]; that limit is not
      part of the model.  An offset of the file itself, its end included,
      is accepted by every file system, and the properties below that
      conclude that a seek is accepted keep its target there, or at most
      the length of one inline value (61 bytes) behind the end.
    - [alloca] takes the group table from the stack.  [process] is given
      the number of bytes that are left for it; a table that needs more is
      undefined behaviour.
    - Multi-byte fields are decoded in the producer's native order, which
      is little-endian (x86).  The data model is LP64: [int] and
      [uint32_t] have 32 bits, [long] and [off_t] 64.
    - [fatal] ends the run: a computation is a function from the world to
      a [result], and [Fatal] is absorbing.  [warn] appends to the log of
      the world; [verbose] only formats text and is left out.
    - The [for (;;)] of [setnmi] may run for ever (a block may seek
      backwards), so the loop takes fuel and reports [OutOfFuel]. *)

From Stdlib Require Import ZArith Lia Strings.Byte Strings.String.
From stdpp Require Import base list.

Local Open Scope Z_scope.

(** ** Bytes and machine integers *)

Definition byte_val (b : byte) : Z := Z.of_N (Byte.to_N b).

(** Native (little-endian) value of a field read by [fread]. *)
Fixpoint le_val (bs : list byte) : Z :=
  match bs with
  | [] => 0
  | b :: bs' => byte_val b + 256 * le_val bs'
  end.

(** Conversion to an unsigned and to a signed integer of [w] bits. *)
Definition to_unsigned (w : Z) (z : Z) : Z := z mod 2 ^ w.

Definition to_signed (w : Z) (z : Z) : Z :=
  let u := z mod 2 ^ w in
  if u <? 2 ^ (w - 1) then u else u - 2 ^ w.

Definition to_int : Z -> Z := to_signed 32.
Definition to_long : Z -> Z := to_signed 64.
Definition to_uint32 : Z -> Z := to_unsigned 32.
Definition to_uint64 : Z -> Z := to_unsigned 64.

Definition LONG_MAX : Z := 2 ^ 63 - 1.

(** ** Format constants and the tag macros *)

Definition VMSS_MAGIC_OLD : Z := 0xbed0bed0.
Definition VMSS_MAGIC_RESTORED : Z := 0xbed1bed1.
Definition VMSS_MAGIC : Z := 0xbed2bed2.
Definition VMSS_MAGIC_PARTIAL : Z := 0xbed3bed3.

Definition VMSS_TAG_NAMELEN_MASK : Z := 0xff.
Definition VMSS_TAG_NAMELEN_SHIFT : Z := 8.
Definition VMSS_TAG_NINDX_MASK : Z := 3.
Definition VMSS_TAG_NINDX_SHIFT : Z := 6.
Definition VMSS_TAG_VALSIZE_MASK : Z := 0x3f.
Definition VMSS_TAG_VALSIZE_SHIFT : Z := 0.

Definition VMSS_TAG_NAMELEN (t : Z) : Z :=
  Z.land (Z.shiftr t VMSS_TAG_NAMELEN_SHIFT) VMSS_TAG_NAMELEN_MASK.

Definition VMSS_TAG_NINDX (t : Z) : Z :=
  Z.land (Z.shiftr t VMSS_TAG_NINDX_SHIFT) VMSS_TAG_NINDX_MASK.

Definition VMSS_TAG_VALSIZE (t : Z) : Z :=
  Z.land (Z.shiftr t VMSS_TAG_VALSIZE_SHIFT) VMSS_TAG_VALSIZE_MASK.

Definition VMSS_TAG_NULL : Z := 0.

Definition VMSS_TAG_VALSIZE_BLOCK_COMPRESSED : Z := 0x3e.
Definition VMSS_TAG_VALSIZE_BLOCK : Z := 0x3f.

Definition VMSS_TAG_ISBLOCK (t : Z) : bool :=
  (VMSS_TAG_VALSIZE t =? VMSS_TAG_VALSIZE_BLOCK_COMPRESSED)
  || (VMSS_TAG_VALSIZE t =? VMSS_TAG_VALSIZE_BLOCK).

Definition VMSS_GROUP_NAMELEN : Z := 64.

(** Sizes of the C types read from the file. *)
Definition sizeof_tag : Z := 2.
Definition sizeof_index : Z := 4.
Definition sizeof_header : Z := 12.
Definition sizeof_group : Z := VMSS_GROUP_NAMELEN + 8 + 8.
Definition sizeof_block : Z := 16.
Definition sizeof_padsize : Z := 2.

(** Capacities of the arrays that [setnmi] declares in its loop body. *)
Definition sizeof_name : Z := VMSS_TAG_NAMELEN_MASK + 1.
Definition sizeof_buf : Z := VMSS_TAG_VALSIZE_MASK.
Definition sizeof_idx : Z := VMSS_TAG_NINDX_MASK * sizeof_index.

(** ** The stream, the log and the outcomes of a run *)

(** Text written by [warn] (lines 236, 241 and 246). *)
Inductive message :=
| pendingNMI_is (cpu val : Z)
| pendingNMI_skipping (cpu val target : Z)
| pendingNMI_setting (cpu val nmi : Z).

(** What the run does to the outside: transfers on the stream, with the
    offset they start at, and the lines printed by [warn]. *)
Inductive event :=
| EvRead (off want got : Z)
| EvWrite (off : Z) (bs : list byte)
| EvWarn (m : message).

Record world := World {
  fdata : list byte;
  fpos : Z;
  log : list event
}.

(** The calls of [fatal], one constructor per format string, with the
    arguments the call site passes. *)
Inductive fatal_msg :=
| couldnt_read_group (name : list byte) (offs : Z)
| couldnt_read_tag (off : Z)
| couldnt_read_name (off : Z)
| couldnt_read_index (off : Z)
| couldnt_read_block (offs : Z)
| couldnt_read_padding (offs : Z)
| unable_to_skip_block (offs : Z)
| couldnt_seek (off : Z)
| unexpected_size (size : Z)
| couldnt_read_buffer (off : Z)
| couldnt_reset_offset
| couldnt_write_buffer (off : Z)
| couldnt_read_header
| cant_read_32bit
| not_recognized
| couldnt_read_groups (n : Z)
| invalid_cpu
| usage_shown.

Inductive result (A : Type) :=
| Ok (a : A) (w : world)
| Fatal (m : fatal_msg) (w : world)
| Undefined
| OutOfFuel.

Arguments Ok {A} a w.
Arguments Fatal {A} m w.
Arguments Undefined {A}.
Arguments OutOfFuel {A}.

Definition M (A : Type) : Type := world -> result A.

Definition ret {A} (a : A) : M A := fun w => Ok a w.

Definition bind {A B} (m : M A) (k : A -> M B) : M B := fun w =>
  match m w with
  | Ok a w' => k a w'
  | Fatal e w' => Fatal e w'
  | Undefined => Undefined
  | OutOfFuel => OutOfFuel
  end.

#[global] Instance M_ret : MRet M := @ret.
#[global] Instance M_bind : MBind M := fun A B k m => bind m k.

Definition fatal {A} (e : fatal_msg) : M A := fun w => Fatal e w.
Definition undefined {A} : M A := fun _ => Undefined.

Definition warn (m : message) : M unit := fun w =>
  Ok tt {| fdata := fdata w; fpos := fpos w; log := log w ++ [EvWarn m] |}.

(** *** stdio on the stream *)

(** The bytes from the cursor to the end of the file. *)
Definition avail (w : world) : list byte := drop (Z.to_nat (fpos w)) (fdata w).

Definition ftell : M Z := fun w => Ok (fpos w) w.

(** [fread] delivers what is there, up to [size * nmemb] bytes, moves the
    cursor past it and returns the number of complete items; with [size]
    or [nmemb] zero it returns zero and leaves the stream alone. *)
Definition fread (size nmemb : Z) : M (Z * list byte) := fun w =>
  let got := take (Z.to_nat (size * nmemb)) (avail w) in
  let n := Z.of_nat (length got) in
  Ok (if size =? 0 then 0 else n / size, got)
     {| fdata := fdata w; fpos := fpos w + n;
        log := log w ++ [EvRead (fpos w) (size * nmemb) n] |}.

Inductive whence := SEEK_SET | SEEK_CUR.

(** [fseek] takes a [long]; a target before the start of the file or not
    representable is refused with -1, a target past the end is accepted
    (the offset limit of the file system, which may be lower than
    [LONG_MAX], is not modelled). *)
Definition fseek (offset : Z) (wh : whence) : M Z := fun w =>
  let target := match wh with
                | SEEK_SET => offset
                | SEEK_CUR => fpos w + offset
                end in
  if (0 <=? target) && (target <=? LONG_MAX)
  then Ok 0 {| fdata := fdata w; fpos := target; log := log w |}
  else Ok (-1) w.

(** Bytes [bs] stored at offset [p]; a gap past the end reads as zero. *)
Definition store_bytes (data : list byte) (p : nat) (bs : list byte) : list byte :=
  take p data ++ replicate (p - length data) x00 ++ bs
  ++ drop (p + length bs) data.

Definition fwrite (src : list byte) (size nmemb : Z) : M Z := fun w =>
  let bs := take (Z.to_nat (size * nmemb)) src in
  Ok (if size =? 0 then 0 else nmemb)
     {| fdata := store_bytes (fdata w) (Z.to_nat (fpos w)) bs;
        fpos := fpos w + Z.of_nat (length bs);
        log := log w ++ [EvWrite (fpos w) bs] |}.

(** *** C arrays

    A local array is a list of cells, [None] while nothing was stored in
    the cell.  An access outside the array, or a load from a cell that was
    never stored, is undefined behaviour. *)

Abbreviation array := (list (option byte)).

Definition array_new (cap : Z) : array := replicate (Z.to_nat cap) None.

Definition bzero (a : array) : array := replicate (length a) (Some x00).

(** The array after [bs] was copied to its start. *)
Definition array_fill (a : array) (bs : list byte) : array :=
  (Some <$> bs) ++ drop (length bs) a.

Definition load_bytes (a : array) (off n : Z) : option (list byte) :=
  if (0 <=? off) && (0 <=? n) && (off + n <=? Z.of_nat (length a))
  then mapM id (take (Z.to_nat n) (drop (Z.to_nat off) a))
  else None.

(** [fread] into the array [a]. *)
Definition fread_into (a : array) (size nmemb : Z) : M (Z * array) := fun w =>
  if size * nmemb <=? Z.of_nat (length a) then
    match fread size nmemb w with
    | Ok (n, bs) w' => Ok (n, array_fill a bs) w'
    | Fatal e w' => Fatal e w'
    | Undefined => Undefined
    | OutOfFuel => OutOfFuel
    end
  else Undefined.

(** [a[i] = b]. *)
Definition store (a : array) (i : Z) (b : byte) : M array :=
  if (0 <=? i) && (i <? Z.of_nat (length a))
  then ret (<[Z.to_nat i := Some b]> a)
  else undefined.

(** The integer of [n] bytes at byte offset [off] of the array. *)
Definition load (a : array) (off n : Z) : M Z :=
  match load_bytes a off n with
  | Some bs => ret (le_val bs)
  | None => undefined
  end.

(** The source of an [fwrite]: the first [n] bytes of the array. *)
Definition load_buf (a : array) (n : Z) : M (list byte) :=
  match load_bytes a 0 n with
  | Some bs => ret bs
  | None => undefined
  end.

(** [strcmp (s, lit)] for a literal [lit] (which holds no NUL): the cells
    of [s] are read up to the first difference or the closing NUL. *)
Fixpoint strcmp_cells (s : array) (lit : list byte) : option Z :=
  match s with
  | [] => None
  | None :: _ => None
  | Some c :: s' =>
      match lit with
      | [] => Some (byte_val c)
      | l :: lit' =>
          if Byte.eqb c l
          then (if Byte.eqb c x00 then Some 0 else strcmp_cells s' lit')
          else Some (byte_val c - byte_val l)
      end
  end.

Definition strcmp (s : array) (lit : string) : M Z :=
  match strcmp_cells s (list_byte_of_string lit) with
  | Some d => ret d
  | None => undefined
  end.

(** ** The program *)

(** The globals [g_verbose], [g_cpu] and [g_nmi]. *)
Record config := Config {
  g_verbose : Z;
  g_cpu : Z;
  g_nmi : byte
}.

Record vmss_group := Group {
  vmss_group_name : list byte;
  vmss_group_offs : Z;
  vmss_group_size : Z
}.

Inductive loop_ctl := Continue | Break.

(** The block branch of the loop body (lines 193 to 217): the header of
    the block is read in two pieces and its payload is skipped.  The loads
    of [blk] and [pad] are the arguments of [verbose] and of [fseek]. *)
Definition skip_block : M loop_ctl :=
  offs ← ftell;
  '(n, blk) ← fread_into (array_new sizeof_block) sizeof_block 1;
  if negb (n =? 1) then fatal (couldnt_read_block offs) else
  '(n, pad_) ← fread_into (array_new sizeof_padsize) sizeof_padsize 1;
  if negb (n =? 1) then fatal (couldnt_read_padding offs) else
  vmss_block_size ← load blk 0 8;
  vmss_block_memsize ← load blk 8 8;
  pad ← load pad_ 0 sizeof_padsize;
  r ← fseek (to_long (to_uint64 (vmss_block_size + pad))) SEEK_CUR;
  if r =? -1 then fatal (unable_to_skip_block offs) else ret Continue.

(** The end of the loop body (lines 226 to 255), reached for a record
    named pendingNMI that is not a block: [size] is its value-size code
    and [idx0] is [idx[0]]. *)
Definition patch (cfg : config) (size idx0 : Z) : M loop_ctl :=
  if negb (size =? 1) then fatal (unexpected_size size) else
  '(n, buf) ← fread_into (array_new sizeof_buf) size 1;
  if negb (n =? 1) then (off ← ftell; fatal (couldnt_read_buffer off)) else
  val ← load buf 0 1;
  if negb (idx0 =? to_uint32 (g_cpu cfg)) then
    if g_cpu cfg =? -1 then
      (warn (pendingNMI_is idx0 val);; ret Continue)
    else
      (warn (pendingNMI_skipping idx0 val (g_cpu cfg));; ret Continue)
  else
    warn (pendingNMI_setting idx0 val (byte_val (g_nmi cfg)));;
    r ← fseek (-1) SEEK_CUR;
    if r =? -1 then fatal couldnt_reset_offset else
    buf ← store buf 0 (g_nmi cfg);
    src ← load_buf buf size;
    n ← fwrite src size 1;
    if negb (n =? 1) then (off ← ftell; fatal (couldnt_write_buffer off))
    else ret Continue.

(** One turn of the [for (;;)] of [setnmi] (lines 160 to 255).  The three
    loads of [idx] are the arguments of the call of [verbose]. *)
Definition setnmi_iter (cfg : config) : M loop_ctl :=
  '(n, tag_) ← fread_into (array_new sizeof_tag) sizeof_tag 1;
  if negb (n =? 1) then (off ← ftell; fatal (couldnt_read_tag off)) else
  tag ← load tag_ 0 sizeof_tag;
  if tag =? VMSS_TAG_NULL then ret Break else
  let len := VMSS_TAG_NAMELEN tag in
  let nindx := VMSS_TAG_NINDX tag in
  let size := VMSS_TAG_VALSIZE tag in
  '(n, name) ← fread_into (array_new sizeof_name) len 1;
  if negb (n =? 1) then (off ← ftell; fatal (couldnt_read_name off)) else
  name ← store name len x00;
  '(n, idx) ← fread_into (bzero (array_new sizeof_idx)) sizeof_index nindx;
  if negb (n =? nindx) then (off ← ftell; fatal (couldnt_read_index off)) else
  idx0 ← load idx 0 sizeof_index;
  idx1 ← load idx 4 sizeof_index;
  idx2 ← load idx 8 sizeof_index;
  if VMSS_TAG_ISBLOCK tag then skip_block
  else
    d ← strcmp name "pendingNMI";
    if negb (d =? 0) then
      r ← fseek size SEEK_CUR;
      if r =? -1 then (off ← ftell; fatal (couldnt_seek off)) else ret Continue
    else patch cfg size idx0.

Fixpoint setnmi_loop (fuel : nat) (cfg : config) : M unit :=
  match fuel with
  | O => fun _ => OutOfFuel
  | S fuel' =>
      c ← setnmi_iter cfg;
      match c with
      | Break => ret tt
      | Continue => setnmi_loop fuel' cfg
      end
  end.

Definition setnmi (fuel : nat) (cfg : config) (grp : vmss_group) : M unit :=
  r ← fseek (to_long (vmss_group_offs grp)) SEEK_SET;
  if r =? -1
  then fatal (couldnt_read_group (vmss_group_name grp) (vmss_group_offs grp))
  else setnmi_loop fuel cfg.

(** [groups[i]], as the loop of [process] reads it. *)
Definition load_group (groups : array) (i : Z) : M vmss_group :=
  let grp := drop (Z.to_nat (i * sizeof_group)) groups in
  match load_bytes grp 0 VMSS_GROUP_NAMELEN with
  | Some name =>
      offs ← load grp VMSS_GROUP_NAMELEN 8;
      size ← load grp (VMSS_GROUP_NAMELEN + 8) 8;
      ret (Group name offs size)
  | None => undefined
  end.

Fixpoint for_groups (fuel : nat) (cfg : config) (groups : array)
    (i : Z) (todo : nat) : M unit :=
  match todo with
  | O => ret tt
  | S todo' =>
      grp ← load_group groups i;
      d ← strcmp (drop (Z.to_nat (i * sizeof_group)) groups) "cpu";
      (if d =? 0 then setnmi fuel cfg grp else ret tt);;
      for_groups fuel cfg groups (i + 1) todo'
  end.

(** [process], from the [fread] of the header on: the world is the file
    that [fopen] returned.  [alloca] takes the group table from the stack,
    of which [stack] bytes are left for it at that point; a table that
    does not fit is undefined behaviour (the program is killed at the call
    of [fread] that follows). *)
Definition process (fuel : nat) (stack : Z) (cfg : config) : M unit :=
  '(n, hdr) ← fread_into (array_new sizeof_header) sizeof_header 1;
  if negb (n =? 1) then fatal couldnt_read_header else
  vmss_hdr_id ← load hdr 0 4;
  if vmss_hdr_id =? VMSS_MAGIC_OLD then fatal cant_read_32bit
  else if (vmss_hdr_id =? VMSS_MAGIC) || (vmss_hdr_id =? VMSS_MAGIC_RESTORED)
          || (vmss_hdr_id =? VMSS_MAGIC_PARTIAL) then
    vmss_hdr_version ← load hdr 4 4;
    ngroups ← load hdr 8 4;
    if stack <? ngroups * sizeof_group then undefined else
    '(n, groups) ← fread_into (array_new (ngroups * sizeof_group))
                              sizeof_group ngroups;
    if negb (n =? ngroups) then fatal (couldnt_read_groups ngroups) else
    for_groups fuel cfg groups 0 (Z.to_nat ngroups)
  else fatal not_recognized.

(** The options as [getopt] returns them; for [-c], what [strtoul] made
    of the argument and whether it consumed all of it. *)
Inductive opt :=
| opt_c (value : Z) (at_end : bool)
| opt_n
| opt_v
| opt_z
| opt_unknown.

Definition initial_config : config :=
  {| g_verbose := 0; g_cpu := 0; g_nmi := x01 |}.

Definition getopt_case (cfg : config) (c : opt) : M config :=
  match c with
  | opt_c value at_end =>
      let cpu := to_int value in
      if negb at_end || (cpu <? 0) then fatal invalid_cpu
      else ret {| g_verbose := g_verbose cfg; g_cpu := cpu; g_nmi := g_nmi cfg |}
  | opt_v => ret {| g_verbose := 1; g_cpu := g_cpu cfg; g_nmi := g_nmi cfg |}
  | opt_z => ret {| g_verbose := g_verbose cfg; g_cpu := g_cpu cfg; g_nmi := x00 |}
  | opt_n => ret {| g_verbose := g_verbose cfg; g_cpu := -1; g_nmi := g_nmi cfg |}
  | opt_unknown => fatal usage_shown
  end.

Fixpoint getopt_loop (cfg : config) (opts : list opt) : M config :=
  match opts with
  | [] => ret cfg
  | c :: opts' => cfg' ← getopt_case cfg c; getopt_loop cfg' opts'
  end.

(** [main] for a command line that names a file. *)
Definition main (fuel : nat) (stack : Z) (opts : list opt) : M unit :=
  cfg ← getopt_loop initial_config opts;
  process fuel stack cfg.

(** ** Writing files: the encoder used to state layouts *)

Definition byte_of (z : Z) : byte :=
  match Byte.of_N (Z.to_N (z mod 256)) with
  | Some b => b
  | None => x00
  end.

(** The [n] bytes of [z] in native order. *)
Fixpoint le_bytes (n : nat) (z : Z) : list byte :=
  match n with
  | O => []
  | S n' => byte_of z :: le_bytes n' (z / 256)
  end.

(** The tag code of a record with the given name length, index count and
    value-size code. *)
Definition mk_tag (len nindx size : Z) : Z :=
  Z.lor (Z.shiftl len VMSS_TAG_NAMELEN_SHIFT)
        (Z.lor (Z.shiftl nindx VMSS_TAG_NINDX_SHIFT)
               (Z.shiftl size VMSS_TAG_VALSIZE_SHIFT)).

(** A record with an inline value, as it lies in the file. *)
Definition inline_record (name : list byte) (idx : list Z) (value : list byte)
  : list byte :=
  le_bytes 2 (mk_tag (Z.of_nat (length name)) (Z.of_nat (length idx))
                     (Z.of_nat (length value)))
  ++ name ++ concat (le_bytes 4 <$> idx) ++ value.

(** A record whose value is a block. *)
Definition block_record (name : list byte) (idx : list Z) (code : Z)
    (size memsize pad : Z) (payload : list byte) : list byte :=
  le_bytes 2 (mk_tag (Z.of_nat (length name)) (Z.of_nat (length idx)) code)
  ++ name ++ concat (le_bytes 4 <$> idx)
  ++ le_bytes 8 size ++ le_bytes 8 memsize ++ le_bytes 2 pad ++ payload.

Definition terminator : list byte := le_bytes 2 VMSS_TAG_NULL.

Definition group_entry (name : string) (offs size : Z) : list byte :=
  list_byte_of_string name
  ++ replicate (Z.to_nat VMSS_GROUP_NAMELEN - String.length name) x00
  ++ le_bytes 8 offs ++ le_bytes 8 size.

Definition header (magic version ngroups : Z) : list byte :=
  le_bytes 4 magic ++ le_bytes 4 version ++ le_bytes 4 ngroups.

Definition opened (data : list byte) : world :=
  {| fdata := data; fpos := 0; log := [] |}.

(** A container with one group, "cpu", holding the given tag stream. *)
Definition cpu_container (stream : list byte) : list byte :=
  header VMSS_MAGIC 8 1
  ++ group_entry "cpu" (sizeof_header + sizeof_group) (Z.of_nat (length stream))
  ++ stream.

(** ** Vocabulary of the properties *)

#[global] Instance byte_eq_dec : EqDecision byte := Byte.byte_eq_dec.

(** The C string held in [bs]: the bytes before the first NUL. *)
Fixpoint cstring (bs : list byte) : list byte :=
  match bs with
  | [] => []
  | b :: bs' => if Byte.eqb b x00 then [] else b :: cstring bs'
  end.

Definition pendingNMI : list byte := list_byte_of_string "pendingNMI".

(** [idx[i]] once the index bytes [idxb] were read over the zeroed array. *)
Definition index_at (idxb : list byte) (i : nat) : Z :=
  le_val (take 4 (drop (4 * i)
    (idxb ++ replicate (Z.to_nat sizeof_idx - length idxb) x00))).

(** The world after the cursor moved on by [n] and [evs] were logged. *)
Definition moved (w : world) (n : Z) (evs : list event) : world :=
  {| fdata := fdata w; fpos := fpos w + n; log := log w ++ evs |}.

(** The world once the head of a record with tag code [tag] was read at
    the cursor of [w]: the tag, the name and the indices. *)
Definition head_read (w : world) (tag : Z) : world :=
  let len := VMSS_TAG_NAMELEN tag in
  let n := sizeof_index * VMSS_TAG_NINDX tag in
  moved w (sizeof_tag + len + n)
    [EvRead (fpos w) sizeof_tag sizeof_tag;
     EvRead (fpos w + sizeof_tag) len len;
     EvRead (fpos w + sizeof_tag + len) n n].

(** What the loop body goes on to do after the head of a record: the
    name bytes [nameb] and the index bytes [idxb] are what was read. *)
Definition dispatch (cfg : config) (tag : Z) (nameb idxb : list byte)
  : M loop_ctl :=
  if VMSS_TAG_ISBLOCK tag then skip_block
  else if bool_decide (cstring nameb = pendingNMI)
  then patch cfg (VMSS_TAG_VALSIZE tag) (index_at idxb 0)
  else
    r ← fseek (VMSS_TAG_VALSIZE tag) SEEK_CUR;
    if r =? -1 then (off ← ftell; fatal (couldnt_seek off)) else ret Continue.

(** [scans cfg n w w']: the loop of [setnmi], started in [w], comes to
    the top of its body in [w'] after [n] turns that all went on. *)
Inductive scans (cfg : config) : nat -> world -> world -> Prop :=
| scans_here w : scans cfg 0 w w
| scans_turn n w w' w'' :
    setnmi_iter cfg w = Ok Continue w' -> scans cfg n w' w'' ->
    scans cfg (S n) w w''.

(** The run ended by [return] or by [fatal], the cursor is not negative
    and the file has the length it had in [w]. *)
Definition outcome_ok {A} (w : world) (r : result A) : Prop :=
  match r with
  | Ok _ w' | Fatal _ w' =>
      0 <= fpos w' /\ length (fdata w') = length (fdata w)
  | _ => False
  end.

(** The error classes of the specification, read on the messages of the
    program: the two complaints about the magic are format errors, the
    complaint about the size of pendingNMI is the schema violation, what
    the option loop rejects is a usage error, and every failed read, seek
    or write is an I/O error. *)
Inductive error_class := FormatError | IOError | SchemaViolation | UsageError.

Definition class_of (m : fatal_msg) : error_class :=
  match m with
  | cant_read_32bit | not_recognized => FormatError
  | unexpected_size _ => SchemaViolation
  | invalid_cpu | usage_shown => UsageError
  | _ => IOError
  end.

(** The byte offset that the message carries. *)
Definition offset_of (m : fatal_msg) : option Z :=
  match m with
  | couldnt_read_group _ off
  | couldnt_read_tag off
  | couldnt_read_name off
  | couldnt_read_index off
  | couldnt_read_block off
  | couldnt_read_padding off
  | unable_to_skip_block off
  | couldnt_seek off
  | couldnt_read_buffer off
  | couldnt_write_buffer off => Some off
  | _ => None
  end.

(** A read that delivered fewer bytes than were asked for. *)
Definition short_read (e : event) : bool :=
  match e with
  | EvRead _ want got => got <? want
  | _ => false
  end.

(** The event touches no byte at or after offset [lim]. *)
Definition below (lim : Z) (e : event) : bool :=
  match e with
  | EvRead off _ got => off + got <=? lim
  | EvWrite off bs => off + Z.of_nat (length bs) <=? lim
  | EvWarn _ => true
  end.

Definition is_write (e : event) : bool :=
  match e with
  | EvWrite _ _ => true
  | _ => false
  end.

(** The data of the file when the run ended, whichever way it ended. *)
Definition final_data {A} (r : result A) : option (list byte) :=
  match r with
  | Ok _ w | Fatal _ w => Some (fdata w)
  | _ => None
  end.

(** The turn of the loop in [w] ends the run by [fatal] with the message
    [m], an I/O error that names an offset; the file is as it was, and no
    further turn is taken, whatever the fuel. *)
Definition io_abort (cfg : config) (w : world) (m : fatal_msg) : Prop :=
  (exists w', setnmi_iter cfg w = Fatal m w'
              /\ fdata w' = fdata w
              /\ forall fuel, setnmi_loop (S fuel) cfg w = Fatal m w')
  /\ class_of m = IOError
  /\ is_Some (offset_of m).

(** ** Sample files *)

(** The stack that the sample runs have for [alloca]: eight megabytes,
    the usual limit. *)
Definition sample_stack : Z := 8 * 2 ^ 20.

(** The file of the end-to-end scenario: an unrelated tag of four bytes,
    pendingNMI of CPU 0 with value 0, the terminator. *)
Definition sample_stream : list byte :=
  inline_record (list_byte_of_string "foo") [] [x01; x02; x03; x04]
  ++ inline_record pendingNMI [0] [x00] ++ terminator.

Definition sample_file : list byte := cpu_container sample_stream.

(** pendingNMI of the CPU whose number is [UINT32_MAX]. *)
Definition cpu_max_file : list byte :=
  cpu_container (inline_record pendingNMI [0xffffffff] [x00] ++ terminator).

(** pendingNMI held as a block of five bytes. *)
Definition block_nmi_stream : list byte :=
  block_record pendingNMI [0] VMSS_TAG_VALSIZE_BLOCK 5 5 0
    [x01; x02; x03; x04; x05] ++ terminator.

(** A block whose declared size and pad add up to 2^64. *)
Definition wrap_block_stream : list byte :=
  block_record (list_byte_of_string "mem") [] VMSS_TAG_VALSIZE_BLOCK
    (2 ^ 64 - 1) 0 1 [] ++ terminator.

(** ** Vocabulary of the properties of a whole pass *)

(** The bytes of a record that the loop passes over: a record with an
    inline value that is not named pendingNMI, or a record whose value is
    a block, with the payload the block header declares. *)
Inductive skippable : list byte -> Prop :=
| skippable_inline tagb nameb idxb value :
    length tagb = 2%nat ->
    le_val tagb <> VMSS_TAG_NULL ->
    nameb <> [] ->
    Z.of_nat (length nameb) = VMSS_TAG_NAMELEN (le_val tagb) ->
    Z.of_nat (length idxb) = sizeof_index * VMSS_TAG_NINDX (le_val tagb) ->
    VMSS_TAG_ISBLOCK (le_val tagb) = false ->
    cstring nameb <> pendingNMI ->
    Z.of_nat (length value) = VMSS_TAG_VALSIZE (le_val tagb) ->
    skippable (tagb ++ nameb ++ idxb ++ value)
| skippable_block tagb nameb idxb blkb padb payload :
    length tagb = 2%nat ->
    nameb <> [] ->
    Z.of_nat (length nameb) = VMSS_TAG_NAMELEN (le_val tagb) ->
    Z.of_nat (length idxb) = sizeof_index * VMSS_TAG_NINDX (le_val tagb) ->
    VMSS_TAG_ISBLOCK (le_val tagb) = true ->
    length blkb = 16%nat ->
    length padb = 2%nat ->
    Z.of_nat (length payload) = le_val (take 8 blkb) + le_val padb ->
    skippable (tagb ++ nameb ++ idxb ++ blkb ++ padb ++ payload).

(** [passed cfg c c']: [c] holds the bytes of a well-formed record and
    [c'] the bytes the loop leaves in their place.  A record the loop
    passes over stays as it is; a record named pendingNMI with a value of
    one byte has that byte replaced by [g_nmi] when its [idx[0]] compares
    equal to [g_cpu]. *)
Inductive passed (cfg : config) : list byte -> list byte -> Prop :=
| passed_over c : skippable c -> passed cfg c c
| passed_target tagb nameb idxb v :
    length tagb = 2%nat ->
    Z.of_nat (length nameb) = VMSS_TAG_NAMELEN (le_val tagb) ->
    Z.of_nat (length idxb) = sizeof_index * VMSS_TAG_NINDX (le_val tagb) ->
    cstring nameb = pendingNMI ->
    VMSS_TAG_VALSIZE (le_val tagb) = 1 ->
    passed cfg (tagb ++ nameb ++ idxb ++ [v])
      (tagb ++ nameb ++ idxb
       ++ [if index_at idxb 0 =? to_uint32 (g_cpu cfg) then g_nmi cfg else v]).

(** A read that delivered all it was asked for. *)
Definition full_read (e : event) : Prop :=
  exists off n, e = EvRead off n n.

(** What a turn of the loop may do to the file: nothing, or one write of
    the single byte [g_nmi] over a byte of the file.  [r] is the outcome
    of the turn started in [w]. *)
Definition turn_effect {A} (cfg : config) (w : world) (r : result A) : Prop :=
  match r with
  | Ok _ w' | Fatal _ w' =>
      0 <= fpos w'
      /\ exists evs, log w' = log w ++ evs
         /\ ((fdata w' = fdata w /\ List.filter is_write evs = [])
             \/ exists p, (p < length (fdata w))%nat
                  /\ fdata w' = <[p := g_nmi cfg]> (fdata w)
                  /\ List.filter is_write evs
                     = [EvWrite (Z.of_nat p) [g_nmi cfg]])
  | _ => False
  end.

(** [new] is [old] with some of its bytes replaced by [b]. *)
Definition patched_only (b : byte) (old new : list byte) : Prop :=
  length new = length old
  /\ forall i x, new !! i = Some x -> old !! i = Some x \/ x = b.

(** A write of the one byte [b] over a byte of a file of [len] bytes. *)
Definition byte_write (b : byte) (len : nat) (e : event) : Prop :=
  exists p, (p < len)%nat /\ e = EvWrite (Z.of_nat p) [b].

(** What any number of turns may have done between [w] and [w']: the file
    has its length, each of its bytes is what it was or is [g_nmi], and
    every write in the log since [w] is a write of the one byte [g_nmi]
    over a byte of the file. *)
Definition pass_effect (cfg : config) (w w' : world) : Prop :=
  patched_only (g_nmi cfg) (fdata w) (fdata w')
  /\ exists evs, log w' = log w ++ evs
     /\ Forall (fun e => is_write e = true ->
                         byte_write (g_nmi cfg) (length (fdata w)) e) evs.

(** The group table as [process] holds it: [n] entries of 80 bytes. *)
Fixpoint table_entries (n : nat) (grpb : list byte) : list (list byte) :=
  match n with
  | O => []
  | S n' => take 80 grpb :: table_entries n' (drop 80 grpb)
  end.

(** The fields of an entry of the table. *)
Definition parse_group (gb : list byte) : vmss_group :=
  {| vmss_group_name := take 64 gb;
     vmss_group_offs := le_val (take 8 (drop 64 gb));
     vmss_group_size := le_val (take 8 (drop 72 gb)) |}.

(** The name of the entry, as a C string, is "cpu". *)
Definition is_cpu (gb : list byte) : bool :=
  bool_decide (cstring gb = list_byte_of_string "cpu").

(** [setnmi] on the entries named "cpu", in the order of the table. *)
Fixpoint scan_groups (fuel : nat) (cfg : config) (entries : list (list byte))
  : M unit :=
  match entries with
  | [] => ret tt
  | gb :: entries' =>
      (if is_cpu gb then setnmi fuel cfg (parse_group gb) else ret tt);;
      scan_groups fuel cfg entries'
  end.

(** The world after [process] read the header and a table of [n] entries. *)
Definition table_read (data : list byte) (n : Z) : world :=
  moved (opened data) (sizeof_header + sizeof_group * n)
    [EvRead 0 sizeof_header sizeof_header;
     EvRead sizeof_header (sizeof_group * n) (sizeof_group * n)].

(** [-z] is among the options. *)
Definition has_z (opts : list opt) : bool :=
  existsb (fun c => match c with opt_z => true | _ => false end) opts.

(** A stream that sends the loop round in a circle: one block record whose
    size makes the seek go back to the tag. *)
Definition circular_stream : list byte :=
  block_record (list_byte_of_string "m") [] VMSS_TAG_VALSIZE_BLOCK
    (2 ^ 64 - 21) 0 0 [].

(** ** Vocabulary of the run in targeted write mode *)

(** [record_patched K b off c c' ws]: [c] holds the bytes of a well-formed
    record that lies at offset [off] of the file, [c'] the bytes that the
    run for CPU [K] with the replacement byte [b] leaves in their place,
    and [ws] the writes it makes on them.  A record the loop passes over
    stays as it is and nothing is written.  A record named pendingNMI with
    a value of one byte has that byte, the last of the record, overwritten
    with [b] when its [idx[0]] is [K], and is left alone when it is not. *)
Inductive record_patched (K : Z) (b : byte) (off : Z)
  : list byte -> list byte -> list event -> Prop :=
| record_over c : skippable c -> record_patched K b off c c []
| record_hit tagb nameb idxb v :
    length tagb = 2%nat ->
    Z.of_nat (length nameb) = VMSS_TAG_NAMELEN (le_val tagb) ->
    Z.of_nat (length idxb) = sizeof_index * VMSS_TAG_NINDX (le_val tagb) ->
    cstring nameb = pendingNMI ->
    VMSS_TAG_VALSIZE (le_val tagb) = 1 ->
    index_at idxb 0 = K ->
    record_patched K b off
      (tagb ++ nameb ++ idxb ++ [v]) (tagb ++ nameb ++ idxb ++ [b])
      [EvWrite (off + Z.of_nat (length (tagb ++ nameb ++ idxb))) [b]]
| record_miss tagb nameb idxb v :
    length tagb = 2%nat ->
    Z.of_nat (length nameb) = VMSS_TAG_NAMELEN (le_val tagb) ->
    Z.of_nat (length idxb) = sizeof_index * VMSS_TAG_NINDX (le_val tagb) ->
    cstring nameb = pendingNMI ->
    VMSS_TAG_VALSIZE (le_val tagb) = 1 ->
    index_at idxb 0 <> K ->
    record_patched K b off
      (tagb ++ nameb ++ idxb ++ [v]) (tagb ++ nameb ++ idxb ++ [v]) [].

(** The records of a tag stream that starts at offset [off], one behind
    the other, and the writes on them in the order of the stream. *)
Inductive stream_patched (K : Z) (b : byte)
  : Z -> list (list byte) -> list (list byte) -> list event -> Prop :=
| stream_end off : stream_patched K b off [] [] []
| stream_record off c c' cs cs' ws ws' :
    record_patched K b off c c' ws ->
    stream_patched K b (off + Z.of_nat (length c)) cs cs' ws' ->
    stream_patched K b off (c :: cs) (c' :: cs') (ws ++ ws').

(** [groups_patched K b fuel entries data data' ws]: [entries] are the
    entries of the group table that are still to be visited, [data] is the
    file now, [data'] the file when all of them were visited and [ws] the
    writes made on the way.  An entry that is not named "cpu" changes
    nothing.  An entry named "cpu" gives the offset of a tag stream: the
    file holds, from that offset on, well-formed records and then a tag
    code of zero, and the loop has fuel for them; its records are patched
    in the file as the entries before it left it. *)
Inductive groups_patched (K : Z) (b : byte) (fuel : nat)
  : list (list byte) -> list byte -> list byte -> list event -> Prop :=
| groups_done data : groups_patched K b fuel [] data data []
| groups_other gb entries data data' ws :
    is_cpu gb = false ->
    groups_patched K b fuel entries data data' ws ->
    groups_patched K b fuel (gb :: entries) data data' ws
| groups_cpu gb entries pre chunks chunks' tagz rest data data' ws ws' :
    is_cpu gb = true ->
    vmss_group_offs (parse_group gb) = Z.of_nat (length pre) ->
    data = pre ++ concat chunks ++ tagz ++ rest ->
    stream_patched K b (Z.of_nat (length pre)) chunks chunks' ws ->
    length tagz = 2%nat ->
    le_val tagz = VMSS_TAG_NULL ->
    (length chunks < fuel)%nat ->
    groups_patched K b fuel entries
      (pre ++ concat chunks' ++ tagz ++ rest) data' ws' ->
    groups_patched K b fuel (gb :: entries) data data' (ws ++ ws').

(** ** Bytes, integers and the tag macros *)

Lemma byte_val_range (b : byte) : 0 <= byte_val b < 256.
Proof.
  unfold byte_val. pose proof (Byte.to_N_bounded b). lia.
Qed.

Lemma byte_val_inj (a b : byte) : byte_val a = byte_val b -> a = b.
Proof.
  unfold byte_val. intros H. apply N2Z.inj in H.
  pose proof (Byte.of_to_N a) as Ha. rewrite H, Byte.of_to_N in Ha.
  congruence.
Qed.

Lemma le_val_range (bs : list byte) : 0 <= le_val bs < 256 ^ Z.of_nat (length bs).
Proof.
  induction bs as [|b bs IH]; cbn [le_val length].
  - change (256 ^ Z.of_nat 0) with 1. lia.
  - rewrite Nat2Z.inj_succ, Z.pow_succ_r by lia.
    pose proof (byte_val_range b). lia.
Qed.

Lemma namelen_div (t : Z) : VMSS_TAG_NAMELEN t = (t / 256) mod 256.
Proof.
  unfold VMSS_TAG_NAMELEN, VMSS_TAG_NAMELEN_SHIFT, VMSS_TAG_NAMELEN_MASK.
  change 255 with (Z.ones 8).
  rewrite Z.land_ones, Z.shiftr_div_pow2 by lia. reflexivity.
Qed.

Lemma nindx_div (t : Z) : VMSS_TAG_NINDX t = (t / 64) mod 4.
Proof.
  unfold VMSS_TAG_NINDX, VMSS_TAG_NINDX_SHIFT, VMSS_TAG_NINDX_MASK.
  change 3 with (Z.ones 2).
  rewrite Z.land_ones, Z.shiftr_div_pow2 by lia. reflexivity.
Qed.

Lemma valsize_div (t : Z) : VMSS_TAG_VALSIZE t = t mod 64.
Proof.
  unfold VMSS_TAG_VALSIZE, VMSS_TAG_VALSIZE_SHIFT, VMSS_TAG_VALSIZE_MASK.
  change 63 with (Z.ones 6).
  rewrite Z.land_ones, Z.shiftr_0_r by lia. reflexivity.
Qed.

Lemma namelen_range (t : Z) : 0 <= VMSS_TAG_NAMELEN t <= 255.
Proof. rewrite namelen_div. pose proof (Z.mod_pos_bound (t / 256) 256). lia. Qed.

Lemma nindx_range (t : Z) : 0 <= VMSS_TAG_NINDX t <= 3.
Proof. rewrite nindx_div. pose proof (Z.mod_pos_bound (t / 64) 4). lia. Qed.

Lemma valsize_range (t : Z) : 0 <= VMSS_TAG_VALSIZE t <= 63.
Proof. rewrite valsize_div. pose proof (Z.mod_pos_bound t 64). lia. Qed.

Lemma isblock_iff (t : Z) :
  VMSS_TAG_ISBLOCK t = true <-> VMSS_TAG_VALSIZE t = 62 \/ VMSS_TAG_VALSIZE t = 63.
Proof.
  unfold VMSS_TAG_ISBLOCK, VMSS_TAG_VALSIZE_BLOCK_COMPRESSED, VMSS_TAG_VALSIZE_BLOCK.
  rewrite orb_true_iff, !Z.eqb_eq. reflexivity.
Qed.

(** C6.  The three macros cut a 16-bit tag code [t] into its bits 8 to 15
    (the name length, 0 to 255), its bits 6 and 7 (the index count, 0 to
    3) and its bits 0 to 5 (the value-size code, 0 to 63); the three
    fields determine [t]; the codes 62 and 63, and only they, make the tag
    a block (compressed, plain).  The macros are total functions of [t]. *)
Theorem tag_codec_fields (t : Z) :
  0 <= t < 2 ^ 16 ->
  (forall i, 0 <= i ->
     Z.testbit (VMSS_TAG_NAMELEN t) i = Z.testbit t (i + 8) && (i <? 8))
  /\ (forall i, 0 <= i ->
     Z.testbit (VMSS_TAG_NINDX t) i = Z.testbit t (i + 6) && (i <? 2))
  /\ (forall i, 0 <= i ->
     Z.testbit (VMSS_TAG_VALSIZE t) i = Z.testbit t i && (i <? 6))
  /\ 0 <= VMSS_TAG_NAMELEN t <= 255
  /\ 0 <= VMSS_TAG_NINDX t <= 3
  /\ 0 <= VMSS_TAG_VALSIZE t <= 63
  /\ t = 256 * VMSS_TAG_NAMELEN t + 64 * VMSS_TAG_NINDX t + VMSS_TAG_VALSIZE t
  /\ VMSS_TAG_VALSIZE_BLOCK_COMPRESSED = 62
  /\ VMSS_TAG_VALSIZE_BLOCK = 63
  /\ (VMSS_TAG_ISBLOCK t = true <->
      VMSS_TAG_VALSIZE t = 62 \/ VMSS_TAG_VALSIZE t = 63).
Proof.
  intros Ht.
  assert (Hbits : forall s m n i, 0 <= s -> 0 <= n -> m = Z.ones n -> 0 <= i ->
            Z.testbit (Z.land (Z.shiftr t s) m) i = Z.testbit t (i + s) && (i <? n)).
  { intros s m n i Hs Hn -> Hi.
    rewrite Z.land_spec, Z.shiftr_spec by lia.
    destruct (Z.ltb_spec i n).
    - rewrite Z.ones_spec_low by lia. reflexivity.
    - rewrite Z.ones_spec_high by lia. reflexivity. }
  split; [|split; [|split]].
  - intros i Hi. apply (Hbits 8 255 8); [lia | lia | reflexivity | lia].
  - intros i Hi. apply (Hbits 6 3 2); [lia | lia | reflexivity | lia].
  - intros i Hi. unfold VMSS_TAG_VALSIZE.
    rewrite (Hbits 0 63 6) by (reflexivity || lia).
    rewrite Z.add_0_r. reflexivity.
  - split; [apply namelen_range|]. split; [apply nindx_range|].
    split; [apply valsize_range|].
    split; [|split; [reflexivity|split; [reflexivity|apply isblock_iff]]].
    rewrite namelen_div, nindx_div, valsize_div.
    change (2 ^ 16) with 65536 in Ht.
    rewrite (Z.mod_small (t / 256) 256)
      by (split; [apply Z.div_pos; lia | apply Z.div_lt_upper_bound; lia]).
    pose proof (Z.div_mod t 64 ltac:(lia)) as H1.
    pose proof (Z.div_mod (t / 64) 4 ltac:(lia)) as H2.
    assert (H3 : t / 64 / 4 = t / 256) by (rewrite Z.div_div by lia; reflexivity).
    lia.
Qed.

Lemma tag_codec_fields_witness :
  0 <= 0x0a41 < 2 ^ 16
  /\ VMSS_TAG_NAMELEN 0x0a41 = 10 /\ VMSS_TAG_NINDX 0x0a41 = 1
  /\ VMSS_TAG_VALSIZE 0x0a41 = 1
  /\ 0x0a41 = 256 * VMSS_TAG_NAMELEN 0x0a41 + 64 * VMSS_TAG_NINDX 0x0a41
              + VMSS_TAG_VALSIZE 0x0a41.
Proof.
  split; [lia|].
  split; [reflexivity | split; [reflexivity | split; [reflexivity |]]].
  apply (tag_codec_fields 0x0a41). lia.
Defined.

(** ** stdio and arrays *)

Lemma moved_moved w a b e1 e2 :
  moved (moved w a e1) b e2 = moved w (a + b) (e1 ++ e2).
Proof. unfold moved; cbn. rewrite Z.add_assoc, app_assoc. reflexivity. Qed.

Lemma avail_moved w n evs :
  0 <= fpos w -> 0 <= n -> avail (moved w n evs) = drop (Z.to_nat n) (avail w).
Proof.
  intros Hp Hn. unfold avail, moved; cbn.
  rewrite Z2Nat.inj_add, drop_drop by lia. reflexivity.
Qed.

Lemma avail_moved_app w bs rest evs :
  0 <= fpos w -> avail w = bs ++ rest ->
  avail (moved w (Z.of_nat (length bs)) evs) = rest.
Proof.
  intros Hp Hav. rewrite avail_moved, Hav, Nat2Z.id by lia.
  apply drop_app_length.
Qed.

Lemma fread_full w size nmemb bs rest :
  avail w = bs ++ rest -> Z.of_nat (length bs) = size * nmemb -> 0 < size ->
  fread size nmemb w =
  Ok (nmemb, bs)
     (moved w (size * nmemb) [EvRead (fpos w) (size * nmemb) (size * nmemb)]).
Proof.
  intros Hav Hlen Hsz. unfold fread, moved.
  rewrite Hav, take_app_length' by lia.
  rewrite Hlen. destruct (Z.eqb_spec size 0) as [->|_]; [lia|].
  rewrite (Z.mul_comm size), Z.div_mul by lia. reflexivity.
Qed.

Lemma fread_nothing w size nmemb :
  size * nmemb = 0 ->
  fread size nmemb w = Ok (0, []) (moved w 0 [EvRead (fpos w) 0 0]).
Proof.
  intros H0. unfold fread, moved. rewrite H0. cbn [Z.to_nat take length Z.of_nat].
  destruct (size =? 0); reflexivity.
Qed.

Lemma fread_short w size nmemb :
  0 < size -> Z.of_nat (length (avail w)) < size * nmemb ->
  exists k, 0 <= k < nmemb /\
    fread size nmemb w =
    Ok (k, avail w)
       (moved w (Z.of_nat (length (avail w)))
          [EvRead (fpos w) (size * nmemb) (Z.of_nat (length (avail w)))]).
Proof.
  intros Hsz Hlt. exists (Z.of_nat (length (avail w)) / size). split.
  - split; [apply Z.div_pos; lia | apply Z.div_lt_upper_bound; lia].
  - unfold fread, moved. rewrite take_ge by lia.
    destruct (Z.eqb_spec size 0) as [->|_]; [lia|]. reflexivity.
Qed.

Lemma length_array_new cap : length (array_new cap) = Z.to_nat cap.
Proof. apply length_replicate. Qed.

Lemma length_bzero a : length (bzero a) = length a.
Proof. apply length_replicate. Qed.

Lemma fread_into_full a w size nmemb bs rest :
  avail w = bs ++ rest -> Z.of_nat (length bs) = size * nmemb -> 0 < size ->
  size * nmemb <= Z.of_nat (length a) ->
  fread_into a size nmemb w =
  Ok (nmemb, array_fill a bs)
     (moved w (size * nmemb) [EvRead (fpos w) (size * nmemb) (size * nmemb)]).
Proof.
  intros Hav Hlen Hsz Hcap. unfold fread_into.
  rewrite (proj2 (Z.leb_le _ _) Hcap), (fread_full _ _ _ _ _ Hav Hlen Hsz).
  reflexivity.
Qed.

Lemma fread_into_nothing a w size nmemb :
  size * nmemb = 0 ->
  fread_into a size nmemb w = Ok (0, a) (moved w 0 [EvRead (fpos w) 0 0]).
Proof.
  intros H0. unfold fread_into.
  rewrite (proj2 (Z.leb_le (size * nmemb) (Z.of_nat (length a))))  by lia.
  rewrite fread_nothing by exact H0. reflexivity.
Qed.

Lemma fread_into_short a w size nmemb :
  0 < size -> Z.of_nat (length (avail w)) < size * nmemb ->
  size * nmemb <= Z.of_nat (length a) ->
  exists k, 0 <= k < nmemb /\
    fread_into a size nmemb w =
    Ok (k, array_fill a (avail w))
       (moved w (Z.of_nat (length (avail w)))
          [EvRead (fpos w) (size * nmemb) (Z.of_nat (length (avail w)))]).
Proof.
  intros Hsz Hlt Hcap. destruct (fread_short w size nmemb Hsz Hlt) as (k & Hk & E).
  exists k. split; [exact Hk|]. unfold fread_into.
  rewrite (proj2 (Z.leb_le _ _) Hcap), E. reflexivity.
Qed.

Lemma mapM_id_Some {A} (l : list A) : mapM id (Some <$> l) = Some l.
Proof. apply mapM_fmap_Some. reflexivity. Qed.

(** A load from the part of an array that was stored. *)
Lemma load_bytes_stored (l : list byte) (junk : array) off n :
  0 <= off -> 0 <= n -> off + n <= Z.of_nat (length l) ->
  load_bytes ((Some <$> l) ++ junk) off n
  = Some (take (Z.to_nat n) (drop (Z.to_nat off) l)).
Proof.
  intros Ho Hn Hl. unfold load_bytes.
  rewrite length_app, length_fmap.
  rewrite (proj2 (Z.leb_le 0 off)), (proj2 (Z.leb_le 0 n)) by lia.
  rewrite (proj2 (Z.leb_le _ _)) by lia. cbn [andb].
  rewrite drop_app_le by (rewrite length_fmap; lia).
  rewrite take_app_le by (rewrite length_drop, length_fmap; lia).
  rewrite <- fmap_drop, <- fmap_take. apply mapM_id_Some.
Qed.

Lemma load_stored (l : list byte) (junk : array) off n w :
  0 <= off -> 0 <= n -> off + n <= Z.of_nat (length l) ->
  load ((Some <$> l) ++ junk) off n w
  = Ok (le_val (take (Z.to_nat n) (drop (Z.to_nat off) l))) w.
Proof.
  intros. unfold load. rewrite load_bytes_stored by assumption. reflexivity.
Qed.

Lemma array_fill_zeroed (a : array) (bs : list byte) :
  (length bs <= length a)%nat ->
  array_fill (bzero a) bs
  = (Some <$> (bs ++ replicate (length a - length bs) x00)) ++ [].
Proof.
  intros H. unfold array_fill, bzero.
  rewrite drop_replicate, fmap_app, fmap_replicate, app_nil_r. reflexivity.
Qed.

(** [name[len] = 0] after [len] bytes were read into [name]. *)
Lemma store_after_fill (a : array) (bs : list byte) (b : byte) w :
  (length bs < length a)%nat ->
  store (array_fill a bs) (Z.of_nat (length bs)) b w
  = Ok ((Some <$> bs) ++ Some b :: drop (S (length bs)) a) w.
Proof.
  intros H. unfold store, array_fill.
  rewrite length_app, length_fmap, length_drop.
  rewrite (proj2 (Z.leb_le 0 _)), (proj2 (Z.ltb_lt _ _)) by lia. cbn [andb].
  rewrite Nat2Z.id.
  rewrite insert_app_r_alt by (rewrite length_fmap; lia).
  rewrite length_fmap, Nat.sub_diag.
  destruct (drop (length bs) a) as [|c t] eqn:E.
  { apply (f_equal length) in E. rewrite length_drop in E. cbn in E. lia. }
  cbn. unfold ret. do 3 f_equal.
  replace (S (length bs)) with (length bs + 1)%nat by lia.
  rewrite <- (drop_drop a 1 (length bs)), E. reflexivity.
Qed.

Lemma cstring_nil_iff b bs : cstring (b :: bs) = [] <-> b = x00.
Proof.
  cbn. destruct (Byte.eqb b x00) eqn:E.
  - apply Byte.byte_dec_bl in E. tauto.
  - apply Byte.eqb_false in E. split; [discriminate | tauto].
Qed.

(** [strcmp] against a literal sees the C string of the bytes read. *)
Lemma strcmp_cells_spec (bs : list byte) (junk : array) (lit : list byte) :
  Forall (fun b => b <> x00) lit ->
  exists d, strcmp_cells ((Some <$> bs) ++ Some x00 :: junk) lit = Some d
            /\ (d = 0 <-> cstring bs = lit).
Proof.
  revert lit. induction bs as [|b bs IH]; intros lit Hlit.
  - destruct lit as [|l lit]; cbn [fmap list_fmap app strcmp_cells cstring].
    + exists 0. split; [reflexivity | tauto].
    + inversion Hlit as [|? ? Hl _]; subst.
      destruct (Byte.eqb x00 l) eqn:E.
      { apply Byte.byte_dec_bl in E. congruence. }
      eexists. split; [reflexivity|]. split; [|discriminate].
      intros H. exfalso. apply Hl. apply byte_val_inj.
      change (byte_val x00) with 0 in *. lia.
  - destruct lit as [|l lit].
    + cbn [fmap list_fmap app strcmp_cells]. eexists. split; [reflexivity|].
      rewrite cstring_nil_iff. split.
      * intros H. apply byte_val_inj. exact H.
      * intros ->. reflexivity.
    + inversion Hlit as [|? ? Hl Hlit']; subst.
      cbn [fmap list_fmap app strcmp_cells cstring].
      destruct (Byte.eqb b l) eqn:E.
      * apply Byte.byte_dec_bl in E. subst l.
        destruct (Byte.eqb b x00) eqn:E0.
        { apply Byte.byte_dec_bl in E0. congruence. }
        destruct (IH lit Hlit') as (d & Hd & Hiff). exists d. split; [exact Hd|].
        rewrite Hiff. split; [congruence | intros H; congruence].
      * apply Byte.eqb_false in E. eexists. split; [reflexivity|]. split.
        -- intros H. exfalso. apply E. apply byte_val_inj. lia.
        -- destruct (Byte.eqb b x00); [discriminate | congruence].
Qed.

(** ** Running the loop body *)

Lemma bind_ok {A B} (m : M A) (k : A -> M B) w a w' :
  m w = Ok a w' -> (m ≫= k) w = k a w'.
Proof. intros H. unfold mbind, M_bind, bind. rewrite H. reflexivity. Qed.

Lemma bind_fatal {A B} (m : M A) (k : A -> M B) w e w' :
  m w = Fatal e w' -> (m ≫= k) w = Fatal e w'.
Proof. intros H. unfold mbind, M_bind, bind. rewrite H. reflexivity. Qed.

Ltac sizes :=
  rewrite ?length_bzero, ?length_array_new;
  unfold sizeof_name, sizeof_idx, sizeof_buf, sizeof_block, sizeof_padsize,
    sizeof_tag, sizeof_index, sizeof_header, VMSS_TAG_NAMELEN_MASK,
    VMSS_TAG_NINDX_MASK, VMSS_TAG_VALSIZE_MASK in *;
  lia.

Lemma world_ext d p l p' l' : p = p' -> l = l' -> World d p l = World d p' l'.
Proof. intros -> ->. reflexivity. Qed.

Lemma cons_ev_read a b c a' b' c' (l l' : list event) :
  a = a' -> b = b' -> c = c' -> l = l' ->
  EvRead a b c :: l = EvRead a' b' c' :: l'.
Proof. intros -> -> -> ->. reflexivity. Qed.

(** Two worlds built from the same file are equal when their cursors and
    their logs agree up to arithmetic. *)
Ltac same_world :=
  unfold head_read, moved; cbn [fpos fdata log];
  apply world_ext;
  [ sizes
  | rewrite <- ?app_assoc; cbn [app]; apply (f_equal (app _));
    repeat first
      [ reflexivity
      | apply cons_ev_read; [sizes | sizes | sizes |]
      | apply (f_equal2 cons); [reflexivity|] ] ].

Lemma avail_skip w pre rest n evs :
  0 <= fpos w -> avail w = pre ++ rest -> n = Z.of_nat (length pre) ->
  avail (moved w n evs) = rest.
Proof. intros Hp Hav ->. apply avail_moved_app; assumption. Qed.

Lemma fpos_moved w n evs : fpos (moved w n evs) = fpos w + n.
Proof. reflexivity. Qed.

Lemma pendingNMI_no_nul : Forall (fun b => b <> x00) (list_byte_of_string "pendingNMI").
Proof. repeat constructor; discriminate. Qed.

Lemma setnmi_iter_head cfg w tagb nameb idxb rest :
  0 <= fpos w ->
  avail w = tagb ++ nameb ++ idxb ++ rest ->
  length tagb = 2%nat ->
  le_val tagb <> 0 ->
  nameb <> [] ->
  Z.of_nat (length nameb) = VMSS_TAG_NAMELEN (le_val tagb) ->
  Z.of_nat (length idxb) = 4 * VMSS_TAG_NINDX (le_val tagb) ->
  setnmi_iter cfg w
  = dispatch cfg (le_val tagb) nameb idxb (head_read w (le_val tagb)).
Proof.
  intros Hp Hav Htag Hnz Hne Hname Hidx.
  set (tag := le_val tagb) in *.
  pose proof (namelen_range tag) as Rn. pose proof (nindx_range tag) as Ri.
  unfold setnmi_iter.
  (* the tag *)
  erewrite bind_ok; cycle 1.
  { apply (fread_into_full _ w sizeof_tag 1 tagb (nameb ++ idxb ++ rest));
      [exact Hav | rewrite Htag; reflexivity | reflexivity
      | sizes]. }
  cbv beta iota. change (negb (1 =? 1)) with false. cbv iota.
  set (w1 := moved w _ _).
  assert (Hav1 : avail w1 = nameb ++ idxb ++ rest).
  { apply (avail_skip w tagb); [exact Hp | exact Hav | rewrite Htag; reflexivity]. }
  assert (Hp1 : 0 <= fpos w1) by (subst w1; rewrite fpos_moved; unfold sizeof_tag; lia).
  erewrite bind_ok; cycle 1.
  { unfold array_fill. apply load_stored; rewrite ?Htag; unfold sizeof_tag; lia. }
  change (Z.to_nat sizeof_tag) with 2%nat. change (Z.to_nat 0) with 0%nat.
  rewrite drop_0, take_ge by lia. fold tag.
  destruct (Z.eqb_spec tag VMSS_TAG_NULL) as [E|_]; [contradiction|].
  cbv zeta.
  (* the name *)
  erewrite bind_ok; cycle 1.
  { apply (fread_into_full _ w1 _ 1 nameb (idxb ++ rest));
      [exact Hav1 | lia | | sizes].
    destruct nameb; [contradiction | cbn in Hname; lia]. }
  cbv beta iota. change (negb (1 =? 1)) with false. cbv iota.
  set (w2 := moved w1 _ _).
  assert (Hav2 : avail w2 = idxb ++ rest).
  { apply (avail_skip w1 nameb); [exact Hp1 | exact Hav1 | lia]. }
  assert (Hp2 : 0 <= fpos w2) by (subst w2; rewrite fpos_moved; lia).
  erewrite bind_ok; cycle 1.
  { rewrite <- Hname. apply store_after_fill. sizes. }
  (* the indices *)
  assert (Hidxr : exists w3,
    fread_into (bzero (array_new sizeof_idx)) sizeof_index (VMSS_TAG_NINDX tag) w2
    = Ok (VMSS_TAG_NINDX tag, array_fill (bzero (array_new sizeof_idx)) idxb) w3
    /\ w3 = head_read w tag).
  { destruct (Z.eq_dec (VMSS_TAG_NINDX tag) 0) as [E0|Hn0].
    - eexists. split.
      + rewrite E0. rewrite fread_into_nothing by reflexivity.
        destruct idxb; [|cbn in Hidx; lia]. unfold array_fill. cbn [fmap list_fmap length drop app].
        reflexivity.
      + subst w2 w1. unfold head_read. rewrite E0. same_world.
    - eexists. split.
      + apply (fread_into_full _ w2 sizeof_index _ idxb rest);
          [exact Hav2 | exact Hidx | reflexivity
          | sizes].
      + subst w2 w1. same_world. }
  destruct Hidxr as (w3 & Hr & ->).
  erewrite bind_ok by exact Hr.
  cbv beta iota. rewrite Z.eqb_refl. cbn [negb].
  assert (Hlenidx : (length idxb <= length (array_new sizeof_idx))%nat).
  { sizes. }
  rewrite (array_fill_zeroed _ _ Hlenidx).
  assert (Hl12 : Z.of_nat (length (idxb ++ replicate (length (array_new sizeof_idx) - length idxb) x00)) = 12).
  { rewrite length_app, length_replicate. sizes. }
  erewrite bind_ok by (apply load_stored; unfold sizeof_index; lia).
  erewrite bind_ok by (apply load_stored; unfold sizeof_index; lia).
  erewrite bind_ok by (apply load_stored; unfold sizeof_index; lia).
  unfold dispatch.
  destruct (VMSS_TAG_ISBLOCK tag); [reflexivity|].
  destruct (strcmp_cells_spec nameb (drop (S (length nameb)) (array_new sizeof_name))
              (list_byte_of_string "pendingNMI") pendingNMI_no_nul) as (d & Hd & Hiff).
  erewrite bind_ok by (unfold strcmp; rewrite Hd; reflexivity).
  rewrite length_array_new.
  case_bool_decide as Hc.
  - apply Hiff in Hc. subst d. reflexivity.
  - destruct (Z.eqb_spec d 0) as [E|_]; [apply Hiff in E; contradiction|].
    reflexivity.
Qed.

Lemma fseek_cur w off :
  fseek off SEEK_CUR w =
  if (0 <=? fpos w + off) && (fpos w + off <=? LONG_MAX)
  then Ok 0 (moved w off []) else Ok (-1) w.
Proof.
  unfold fseek, moved. rewrite app_nil_r. reflexivity.
Qed.

Lemma bind_seek {B} (k : Z -> M B) w off :
  (fseek off SEEK_CUR ≫= k) w =
  if (0 <=? fpos w + off) && (fpos w + off <=? LONG_MAX)
  then k 0 (moved w off []) else k (-1) w.
Proof.
  unfold mbind, M_bind, bind. rewrite fseek_cur.
  destruct ((0 <=? fpos w + off) && (fpos w + off <=? LONG_MAX)); reflexivity.
Qed.

Lemma neq_eqb_negb (a b : Z) : a <> b -> negb (a =? b) = true.
Proof. intros H. apply negb_true_iff, Z.eqb_neq, H. Qed.

(** *** The block branch *)

Lemma skip_block_full w blkb padb rest :
  0 <= fpos w ->
  avail w = blkb ++ padb ++ rest ->
  length blkb = 16%nat -> length padb = 2%nat ->
  let off := to_long (to_uint64 (le_val (take 8 blkb) + le_val padb)) in
  let hdr := [EvRead (fpos w) 16 16; EvRead (fpos w + 16) 2 2] in
  skip_block w =
  if (0 <=? fpos w + 18 + off) && (fpos w + 18 + off <=? LONG_MAX)
  then Ok Continue (moved w (18 + off) hdr)
  else Fatal (unable_to_skip_block (fpos w)) (moved w 18 hdr).
Proof.
  intros Hp Hav Hb Hpad off hdr. unfold skip_block.
  erewrite bind_ok by reflexivity.
  erewrite bind_ok; cycle 1.
  { apply (fread_into_full _ w sizeof_block 1 blkb (padb ++ rest));
      [exact Hav | rewrite Hb; reflexivity | reflexivity | sizes]. }
  cbv beta iota. change (negb (1 =? 1)) with false. cbv iota.
  set (w1 := moved w _ _).
  assert (Hav1 : avail w1 = padb ++ rest).
  { apply (avail_skip w blkb); [exact Hp | exact Hav | rewrite Hb; reflexivity]. }
  erewrite bind_ok; cycle 1.
  { apply (fread_into_full _ w1 sizeof_padsize 1 padb rest);
      [exact Hav1 | rewrite Hpad; reflexivity | reflexivity | sizes]. }
  cbv beta iota. change (negb (1 =? 1)) with false. cbv iota.
  set (w2 := moved w1 _ _).
  unfold array_fill.
  erewrite bind_ok by (apply load_stored; lia).
  erewrite bind_ok by (apply load_stored; lia).
  erewrite bind_ok by (apply load_stored; sizes).
  change (Z.to_nat 0) with 0%nat. change (Z.to_nat 8) with 8%nat.
  change (Z.to_nat sizeof_padsize) with 2%nat.
  rewrite !drop_0, (take_ge padb) by lia. fold off.
  rewrite bind_seek.
  assert (E : fpos w2 + off = fpos w + 18 + off).
  { subst w2 w1. rewrite !fpos_moved. sizes. }
  rewrite E.
  destruct ((0 <=? fpos w + 18 + off) && (fpos w + 18 + off <=? LONG_MAX)).
  - change (0 =? -1) with false. cbv iota. unfold ret. f_equal.
    subst w2 w1 hdr. rewrite !moved_moved. same_world.
  - change (-1 =? -1) with true. cbv iota. unfold fatal. f_equal.
    subst w2 w1 hdr. rewrite !moved_moved. same_world.
Qed.

Lemma skip_block_short_block w :
  Z.of_nat (length (avail w)) < 16 ->
  skip_block w =
  Fatal (couldnt_read_block (fpos w))
    (moved w (Z.of_nat (length (avail w)))
       [EvRead (fpos w) 16 (Z.of_nat (length (avail w)))]).
Proof.
  intros Hlt. unfold skip_block.
  erewrite bind_ok by reflexivity.
  destruct (fread_into_short (array_new sizeof_block) w sizeof_block 1)
    as (k & Hk & E); [reflexivity | sizes | sizes |].
  erewrite bind_ok by exact E.
  cbv beta iota. rewrite neq_eqb_negb by lia. reflexivity.
Qed.

Lemma skip_block_short_pad w blkb rest :
  0 <= fpos w ->
  avail w = blkb ++ rest -> length blkb = 16%nat ->
  Z.of_nat (length rest) < 2 ->
  skip_block w =
  Fatal (couldnt_read_padding (fpos w))
    (moved w (16 + Z.of_nat (length rest))
       [EvRead (fpos w) 16 16; EvRead (fpos w + 16) 2 (Z.of_nat (length rest))]).
Proof.
  intros Hp Hav Hb Hlt. unfold skip_block.
  erewrite bind_ok by reflexivity.
  erewrite bind_ok; cycle 1.
  { apply (fread_into_full _ w sizeof_block 1 blkb rest);
      [exact Hav | rewrite Hb; reflexivity | reflexivity | sizes]. }
  cbv beta iota. change (negb (1 =? 1)) with false. cbv iota.
  set (w1 := moved w _ _).
  assert (Hav1 : avail w1 = rest).
  { apply (avail_skip w blkb); [exact Hp | exact Hav | rewrite Hb; reflexivity]. }
  destruct (fread_into_short (array_new sizeof_padsize) w1 sizeof_padsize 1)
    as (k & Hk & E); [reflexivity | rewrite Hav1; sizes | sizes |].
  erewrite bind_ok by exact E.
  cbv beta iota. rewrite neq_eqb_negb by lia. unfold fatal. f_equal.
  rewrite Hav1. subst w1. rewrite moved_moved. same_world.
Qed.

(** *** The end of the loop body: pendingNMI *)

Lemma store_bytes_one (data : list byte) (p : nat) (b : byte) :
  (p < length data)%nat -> store_bytes data p [b] = <[p := b]> data.
Proof.
  intros H. unfold store_bytes.
  replace (p - length data)%nat with 0%nat by lia.
  cbn [replicate app length]. rewrite insert_take_drop by exact H.
  replace (p + 1)%nat with (S p) by lia. reflexivity.
Qed.

Lemma avail_cons_lt w v rest :
  avail w = v :: rest -> (Z.to_nat (fpos w) < length (fdata w))%nat.
Proof.
  unfold avail. intros H. apply (f_equal length) in H.
  rewrite length_drop in H. cbn [length] in H. lia.
Qed.

Lemma store_first (c : option byte) (t : array) (b : byte) w :
  store (c :: t) 0 b w = Ok (Some b :: t) w.
Proof.
  unfold store. cbn [length].
  rewrite (proj2 (Z.ltb_lt 0 (Z.of_nat (S (length t))))) by lia.
  reflexivity.
Qed.

Lemma load_buf_first (b : byte) (t : array) w :
  load_buf (Some b :: t) 1 w = Ok [b] w.
Proof.
  unfold load_buf. change (Some b :: t) with ((Some <$> [b]) ++ t).
  rewrite load_bytes_stored by (cbn; lia). reflexivity.
Qed.

Lemma patch_wrong_size cfg size idx0 w :
  size <> 1 -> patch cfg size idx0 w = Fatal (unexpected_size size) w.
Proof.
  intros H. unfold patch. rewrite neq_eqb_negb by exact H. reflexivity.
Qed.

Lemma patch_short cfg idx0 w :
  avail w = [] ->
  patch cfg 1 idx0 w =
  Fatal (couldnt_read_buffer (fpos w)) (moved w 0 [EvRead (fpos w) 1 0]).
Proof.
  intros Hav. unfold patch. change (negb (1 =? 1)) with false. cbv iota.
  destruct (fread_into_short (array_new sizeof_buf) w 1 1)
    as (k & Hk & E); [reflexivity | rewrite Hav; cbn; lia | sizes |].
  erewrite bind_ok by exact E.
  cbv beta iota. rewrite neq_eqb_negb by lia.
  erewrite bind_ok by reflexivity. unfold fatal. rewrite Hav. cbn [length Z.of_nat].
  f_equal. unfold moved; cbn [fpos]. f_equal. lia.
Qed.

Lemma patch_value cfg idx0 w v rest :
  0 <= fpos w -> avail w = v :: rest ->
  let rd := EvRead (fpos w) 1 1 in
  let val := byte_val v in
  patch cfg 1 idx0 w =
  if idx0 =? to_uint32 (g_cpu cfg) then
    let evs := [rd; EvWarn (pendingNMI_setting idx0 val (byte_val (g_nmi cfg)))] in
    if fpos w <=? LONG_MAX
    then Ok Continue {| fdata := <[Z.to_nat (fpos w) := g_nmi cfg]> (fdata w);
                        fpos := fpos w + 1;
                        log := log w ++ evs ++ [EvWrite (fpos w) [g_nmi cfg]] |}
    else Fatal couldnt_reset_offset (moved w 1 evs)
  else
    Ok Continue (moved w 1
      [rd; EvWarn (if g_cpu cfg =? -1 then pendingNMI_is idx0 val
                   else pendingNMI_skipping idx0 val (g_cpu cfg))]).
Proof.
  intros Hp Hav rd val. unfold patch. change (negb (1 =? 1)) with false. cbv iota.
  erewrite bind_ok; cycle 1.
  { apply (fread_into_full _ w 1 1 [v] rest); [exact Hav | reflexivity | lia | sizes]. }
  cbv beta iota. change (negb (1 =? 1)) with false. cbv iota.
  change (1 * 1) with 1. fold rd.
  unfold array_fill at 1.
  erewrite bind_ok by (apply load_stored; cbn; lia).
  change (le_val (take (Z.to_nat 1) (drop (Z.to_nat 0) [v]))) with (byte_val v + 256 * 0).
  rewrite Z.mul_0_r, Z.add_0_r. fold val.
  destruct (idx0 =? to_uint32 (g_cpu cfg)); cbn [negb]; cbv iota.
  - erewrite bind_ok by reflexivity.
    rewrite bind_seek. cbn [fpos moved warn log fdata].
    replace ((0 <=? fpos w + 1 + -1) && (fpos w + 1 + -1 <=? LONG_MAX))
      with (fpos w <=? LONG_MAX); cycle 1.
    { replace (fpos w + 1 + -1) with (fpos w) by lia.
      rewrite (proj2 (Z.leb_le 0 (fpos w)) Hp). reflexivity. }
    destruct (fpos w <=? LONG_MAX).
    + change (0 =? -1) with false. cbv iota.
      unfold array_fill. cbn [fmap list_fmap app length].
      erewrite bind_ok by apply store_first.
      erewrite bind_ok by apply load_buf_first.
      erewrite bind_ok by reflexivity.
      cbv beta iota. change (negb (1 =? 1)) with false. cbv iota.
      unfold ret. f_equal.
      unfold moved. cbn [fpos fdata log].
      change (take (Z.to_nat (1 * 1)) [g_nmi cfg]) with [g_nmi cfg].
      cbn [length]. change (Z.of_nat 1) with 1.
      replace (fpos w + 1 + -1) with (fpos w) by lia.
      rewrite store_bytes_one by (eapply avail_cons_lt; exact Hav).
      rewrite app_nil_r, <- !app_assoc. reflexivity.
    + change (-1 =? -1) with true. cbv iota. unfold fatal. f_equal.
      unfold moved. cbn [fpos fdata log]. rewrite <- app_assoc. reflexivity.
  - destruct (g_cpu cfg =? -1).
    + erewrite bind_ok by reflexivity. unfold ret. f_equal.
      unfold moved. cbn [fpos fdata log]. rewrite <- app_assoc. reflexivity.
    + erewrite bind_ok by reflexivity. unfold ret. f_equal.
      unfold moved. cbn [fpos fdata log]. rewrite <- app_assoc. reflexivity.
Qed.

(** *** The head of the loop body: the terminator and the failed reads *)

Lemma fatal_ext {A} m m' w w' : m = m' -> w = w' -> @Fatal A m w = Fatal m' w'.
Proof. intros -> ->. reflexivity. Qed.

Lemma read_tag_ok w tagb rest :
  avail w = tagb ++ rest -> length tagb = 2%nat ->
  fread_into (array_new sizeof_tag) sizeof_tag 1 w
  = Ok (1, (Some <$> tagb) ++ drop 2 (array_new sizeof_tag))
       (moved w 2 [EvRead (fpos w) 2 2]).
Proof.
  intros Hav Htag.
  rewrite (fread_into_full _ w sizeof_tag 1 tagb rest);
    [| exact Hav | rewrite Htag; reflexivity | reflexivity | sizes].
  unfold array_fill. rewrite Htag. reflexivity.
Qed.

Lemma load_tag_ok tagb junk w :
  length tagb = 2%nat ->
  load ((Some <$> tagb) ++ junk) 0 sizeof_tag w = Ok (le_val tagb) w.
Proof.
  intros Htag. rewrite load_stored by (rewrite ?Htag; sizes).
  change (Z.to_nat sizeof_tag) with 2%nat. change (Z.to_nat 0) with 0%nat.
  rewrite drop_0, take_ge by lia. reflexivity.
Qed.

Lemma setnmi_iter_short_tag cfg w :
  Z.of_nat (length (avail w)) < 2 ->
  setnmi_iter cfg w =
  Fatal (couldnt_read_tag (fpos w + Z.of_nat (length (avail w))))
    (moved w (Z.of_nat (length (avail w)))
       [EvRead (fpos w) 2 (Z.of_nat (length (avail w)))]).
Proof.
  intros Hlt. unfold setnmi_iter.
  destruct (fread_into_short (array_new sizeof_tag) w sizeof_tag 1)
    as (k & Hk & E); [reflexivity | sizes | sizes |].
  erewrite bind_ok by exact E.
  cbv beta iota. rewrite neq_eqb_negb by lia.
  erewrite bind_ok by reflexivity. reflexivity.
Qed.

Lemma setnmi_iter_break cfg w tagb rest :
  avail w = tagb ++ rest -> length tagb = 2%nat ->
  le_val tagb = VMSS_TAG_NULL ->
  setnmi_iter cfg w = Ok Break (moved w 2 [EvRead (fpos w) 2 2]).
Proof.
  intros Hav Htag Hz. unfold setnmi_iter.
  erewrite bind_ok by (eapply read_tag_ok; eassumption).
  cbv beta iota. change (negb (1 =? 1)) with false. cbv iota.
  erewrite bind_ok by (apply load_tag_ok; assumption).
  rewrite Hz, Z.eqb_refl. reflexivity.
Qed.

Lemma setnmi_iter_no_name cfg w tagb rest :
  avail w = tagb ++ rest -> length tagb = 2%nat ->
  le_val tagb <> VMSS_TAG_NULL ->
  VMSS_TAG_NAMELEN (le_val tagb) = 0 ->
  setnmi_iter cfg w =
  Fatal (couldnt_read_name (fpos w + 2))
    (moved w 2 [EvRead (fpos w) 2 2; EvRead (fpos w + 2) 0 0]).
Proof.
  intros Hav Htag Hnz Hlen. unfold setnmi_iter.
  erewrite bind_ok by (eapply read_tag_ok; eassumption).
  cbv beta iota. change (negb (1 =? 1)) with false. cbv iota.
  erewrite bind_ok by (apply load_tag_ok; assumption).
  rewrite (proj2 (Z.eqb_neq _ _) Hnz). cbv zeta. rewrite Hlen.
  erewrite bind_ok by (apply fread_into_nothing; reflexivity).
  cbv beta iota. change (negb (0 =? 1)) with true. cbv iota.
  erewrite bind_ok by reflexivity. unfold fatal. apply fatal_ext.
  - apply f_equal. rewrite !fpos_moved. lia.
  - rewrite moved_moved. same_world.
Qed.

Lemma setnmi_iter_short_name cfg w tagb rest :
  0 <= fpos w ->
  avail w = tagb ++ rest -> length tagb = 2%nat ->
  le_val tagb <> VMSS_TAG_NULL ->
  Z.of_nat (length rest) < VMSS_TAG_NAMELEN (le_val tagb) ->
  setnmi_iter cfg w =
  Fatal (couldnt_read_name (fpos w + 2 + Z.of_nat (length rest)))
    (moved w (2 + Z.of_nat (length rest))
       [EvRead (fpos w) 2 2;
        EvRead (fpos w + 2) (VMSS_TAG_NAMELEN (le_val tagb))
               (Z.of_nat (length rest))]).
Proof.
  intros Hp Hav Htag Hnz Hlt.
  pose proof (namelen_range (le_val tagb)) as Rn.
  unfold setnmi_iter.
  erewrite bind_ok by (eapply read_tag_ok; eassumption).
  cbv beta iota. change (negb (1 =? 1)) with false. cbv iota.
  erewrite bind_ok by (apply load_tag_ok; assumption).
  rewrite (proj2 (Z.eqb_neq _ _) Hnz). cbv zeta.
  set (w1 := moved w 2 _).
  assert (Hav1 : avail w1 = rest)
    by (apply (avail_skip w tagb); [exact Hp | exact Hav | rewrite Htag; reflexivity]).
  destruct (fread_into_short (array_new sizeof_name) w1
              (VMSS_TAG_NAMELEN (le_val tagb)) 1)
    as (k & Hk & E); [lia | rewrite Hav1; lia | sizes |].
  erewrite bind_ok by exact E.
  cbv beta iota. rewrite neq_eqb_negb by lia.
  erewrite bind_ok by reflexivity. unfold fatal. rewrite Hav1. apply fatal_ext.
  - apply f_equal. subst w1. rewrite !fpos_moved. lia.
  - subst w1. rewrite moved_moved. same_world.
Qed.

Lemma setnmi_iter_short_index cfg w tagb nameb rest :
  0 <= fpos w ->
  avail w = tagb ++ nameb ++ rest -> length tagb = 2%nat ->
  le_val tagb <> VMSS_TAG_NULL ->
  nameb <> [] ->
  Z.of_nat (length nameb) = VMSS_TAG_NAMELEN (le_val tagb) ->
  Z.of_nat (length rest) < sizeof_index * VMSS_TAG_NINDX (le_val tagb) ->
  let len := VMSS_TAG_NAMELEN (le_val tagb) in
  setnmi_iter cfg w =
  Fatal (couldnt_read_index (fpos w + 2 + len + Z.of_nat (length rest)))
    (moved w (2 + len + Z.of_nat (length rest))
       [EvRead (fpos w) 2 2;
        EvRead (fpos w + 2) len len;
        EvRead (fpos w + 2 + len)
               (sizeof_index * VMSS_TAG_NINDX (le_val tagb))
               (Z.of_nat (length rest))]).
Proof.
  intros Hp Hav Htag Hnz Hne Hname Hlt len.
  pose proof (namelen_range (le_val tagb)) as Rn.
  pose proof (nindx_range (le_val tagb)) as Ri.
  unfold setnmi_iter.
  erewrite bind_ok by (eapply read_tag_ok; eassumption).
  cbv beta iota. change (negb (1 =? 1)) with false. cbv iota.
  erewrite bind_ok by (apply load_tag_ok; assumption).
  rewrite (proj2 (Z.eqb_neq _ _) Hnz). cbv zeta.
  set (w1 := moved w 2 _).
  assert (Hav1 : avail w1 = nameb ++ rest)
    by (apply (avail_skip w tagb); [exact Hp | exact Hav | rewrite Htag; reflexivity]).
  assert (Hp1 : 0 <= fpos w1) by (subst w1; rewrite fpos_moved; lia).
  erewrite bind_ok; cycle 1.
  { apply (fread_into_full _ w1 _ 1 nameb rest); [exact Hav1 | lia | | sizes].
    destruct nameb; [contradiction | cbn in Hname; lia]. }
  cbv beta iota. change (negb (1 =? 1)) with false. cbv iota.
  set (w2 := moved w1 _ _).
  assert (Hav2 : avail w2 = rest)
    by (apply (avail_skip w1 nameb); [exact Hp1 | exact Hav1 | lia]).
  erewrite bind_ok; cycle 1.
  { rewrite <- Hname. apply store_after_fill. sizes. }
  destruct (fread_into_short (bzero (array_new sizeof_idx)) w2
              sizeof_index (VMSS_TAG_NINDX (le_val tagb)))
    as (k & Hk & E); [reflexivity | rewrite Hav2; lia | sizes |].
  erewrite bind_ok by exact E.
  cbv beta iota. rewrite neq_eqb_negb by lia.
  erewrite bind_ok by reflexivity. unfold fatal. rewrite Hav2. apply fatal_ext.
  - apply f_equal. subst w2 w1. rewrite !fpos_moved. fold len. lia.
  - subst w2 w1. rewrite !moved_moved. fold len. same_world.
Qed.

(** *** The loop *)

Lemma setnmi_loop_fatal fuel cfg w e w' :
  setnmi_iter cfg w = Fatal e w' -> setnmi_loop (S fuel) cfg w = Fatal e w'.
Proof. intros H. cbn [setnmi_loop]. apply bind_fatal. exact H. Qed.

Lemma setnmi_loop_break fuel cfg w w' :
  setnmi_iter cfg w = Ok Break w' -> setnmi_loop (S fuel) cfg w = Ok tt w'.
Proof. intros H. cbn [setnmi_loop]. erewrite bind_ok by exact H. reflexivity. Qed.

Lemma setnmi_loop_continue fuel cfg w w' :
  setnmi_iter cfg w = Ok Continue w' ->
  setnmi_loop (S fuel) cfg w = setnmi_loop fuel cfg w'.
Proof. intros H. cbn [setnmi_loop]. erewrite bind_ok by exact H. reflexivity. Qed.

(** ** The properties of the specification *)

Lemma scans_loop cfg n w w' :
  scans cfg n w w' ->
  forall fuel, setnmi_loop (n + fuel) cfg w = setnmi_loop fuel cfg w'.
Proof.
  induction 1 as [w | n w w' w'' Hstep _ IH]; intros fuel.
  - reflexivity.
  - cbn [Nat.add]. rewrite (setnmi_loop_continue _ _ _ _ Hstep). apply IH.
Qed.

Lemma setnmi_seek fuel cfg grp w w1 :
  fseek (to_long (vmss_group_offs grp)) SEEK_SET w = Ok 0 w1 ->
  setnmi fuel cfg grp w = setnmi_loop fuel cfg w1.
Proof.
  intros H. unfold setnmi. erewrite bind_ok by exact H. reflexivity.
Qed.

(** C5.  Wherever the scan of a group stands, a tag code of zero at the
    cursor ends it: the turn of the loop leaves by [break] after reading
    those two bytes, and [setnmi] returns to its caller as soon as it has
    fuel for the [n] turns before and this one.  Neither the declared
    size of the group nor the bytes that follow the terminator ([rest])
    play a part. *)
Theorem terminator_ends_group (cfg : config) (grp : vmss_group) (n : nat)
    (w0 w1 w : world) (tagb rest : list byte) :
  fseek (to_long (vmss_group_offs grp)) SEEK_SET w0 = Ok 0 w1 ->
  scans cfg n w1 w ->
  avail w = tagb ++ rest ->
  length tagb = 2%nat ->
  le_val tagb = VMSS_TAG_NULL ->
  let w' := moved w 2 [EvRead (fpos w) 2 2] in
  setnmi_iter cfg w = Ok Break w'
  /\ forall fuel, (n < fuel)%nat -> setnmi fuel cfg grp w0 = Ok tt w'.
Proof.
  intros Hseek Hscan Hav Htag Hz w'.
  assert (Hb : setnmi_iter cfg w = Ok Break w')
    by (eapply setnmi_iter_break; eassumption).
  split; [exact Hb|]. intros fuel Hlt.
  rewrite (setnmi_seek _ _ _ _ _ Hseek).
  replace fuel with (n + S (fuel - n - 1))%nat by lia.
  rewrite (scans_loop _ _ _ _ Hscan). apply setnmi_loop_break. exact Hb.
Qed.

Lemma terminator_ends_group_witness :
  exists w', forall fuel, (2 < fuel)%nat ->
    setnmi fuel initial_config (Group [] 92 0) (opened sample_file) = Ok tt w'.
Proof.
  eexists.
  apply (terminator_ends_group initial_config (Group [] 92 0) 2
           (opened sample_file)
           {| fdata := sample_file; fpos := 92; log := [] |}
           {| fdata := <[117%nat := x01]> sample_file; fpos := 118;
              log := [EvRead 92 2 2; EvRead 94 3 3; EvRead 97 0 0;
                      EvRead 101 2 2; EvRead 103 10 10; EvRead 113 4 4;
                      EvRead 117 1 1; EvWarn (pendingNMI_setting 0 0 1);
                      EvWrite 117 [x01]] |}
           [x00; x00] []).
  - reflexivity.
  - eapply scans_turn; [vm_compute; reflexivity|].
    eapply scans_turn; [vm_compute; reflexivity|].
    apply scans_here.
  - reflexivity.
  - reflexivity.
  - reflexivity.
Defined.

(** C9.  A tag other than the terminator whose name length is 0 stops the
    run at the read of the name: [fread] is asked for an item of no bytes,
    returns 0, and the program takes that for a failure.  The message is
    the one of a failed read of the name, at the offset behind the tag,
    although both reads of the turn delivered all they were asked for, and
    whatever follows the tag in the file. *)
Theorem empty_name_is_fatal (cfg : config) (w : world) (tagb rest : list byte)
    (fuel : nat) :
  avail w = tagb ++ rest ->
  length tagb = 2%nat ->
  le_val tagb <> VMSS_TAG_NULL ->
  VMSS_TAG_NAMELEN (le_val tagb) = 0 ->
  let m := couldnt_read_name (fpos w + 2) in
  let evs := [EvRead (fpos w) 2 2; EvRead (fpos w + 2) 0 0] in
  setnmi_iter cfg w = Fatal m (moved w 2 evs)
  /\ setnmi_loop (S fuel) cfg w = Fatal m (moved w 2 evs)
  /\ class_of m = IOError
  /\ forallb (fun e => negb (short_read e)) evs = true.
Proof.
  intros Hav Htag Hnz Hlen m evs.
  assert (H : setnmi_iter cfg w = Fatal m (moved w 2 evs))
    by (eapply setnmi_iter_no_name; eassumption).
  split; [exact H|]. split; [apply setnmi_loop_fatal; exact H|].
  split; reflexivity.
Qed.

Lemma empty_name_is_fatal_witness :
  setnmi_loop 1 initial_config
    (opened (inline_record [] [0] [x00] ++ terminator))
  = Fatal (couldnt_read_name 2)
      {| fdata := inline_record [] [0] [x00] ++ terminator; fpos := 2;
         log := [EvRead 0 2 2; EvRead 2 0 0] |}.
Proof.
  apply (empty_name_is_fatal initial_config
           (opened (inline_record [] [0] [x00] ++ terminator))
           [byte_of 0x41; x00] ([x00; x00; x00; x00; x00] ++ terminator) 0).
  - reflexivity.
  - reflexivity.
  - discriminate.
  - reflexivity.
Defined.

(** *** The container header *)

Lemma avail_opened data : avail (opened data) = data.
Proof. reflexivity. Qed.

(** C7.  A file whose header carries the magic of the 32-bit variant, or
    any magic that is not one of the three accepted ones, is refused with
    a format error.  At that point the program has read the twelve bytes
    of the header and nothing else: the cursor stands at the start of the
    group table and no entry of it was read. *)
Theorem bad_magic_is_format_error (fuel : nat) (stack : Z) (cfg : config)
    (hdrb rest : list byte) :
  length hdrb = 12%nat ->
  let magic := le_val (take 4 hdrb) in
  magic <> VMSS_MAGIC ->
  magic <> VMSS_MAGIC_RESTORED ->
  magic <> VMSS_MAGIC_PARTIAL ->
  let m := if magic =? VMSS_MAGIC_OLD then cant_read_32bit else not_recognized in
  process fuel stack cfg (opened (hdrb ++ rest))
  = Fatal m {| fdata := hdrb ++ rest; fpos := sizeof_header;
               log := [EvRead 0 sizeof_header sizeof_header] |}
  /\ class_of m = FormatError.
Proof.
  intros Hlen magic H1 H2 H3 m. split; [|subst m; destruct (magic =? _); reflexivity].
  unfold process.
  erewrite bind_ok; cycle 1.
  { apply (fread_into_full _ (opened (hdrb ++ rest)) sizeof_header 1 hdrb rest);
      [apply avail_opened | rewrite Hlen; reflexivity | reflexivity | sizes]. }
  cbv beta iota. change (negb (1 =? 1)) with false. cbv iota.
  unfold array_fill.
  erewrite bind_ok by (apply load_stored; rewrite ?Hlen; lia).
  change (Z.to_nat 0) with 0%nat. change (Z.to_nat 4) with 4%nat.
  rewrite drop_0. fold magic. subst m.
  destruct (magic =? VMSS_MAGIC_OLD); [reflexivity|].
  rewrite (proj2 (Z.eqb_neq _ _) H1), (proj2 (Z.eqb_neq _ _) H2),
    (proj2 (Z.eqb_neq _ _) H3).
  reflexivity.
Qed.

Lemma bad_magic_is_format_error_witness :
  process 0 0 initial_config (opened (header VMSS_MAGIC_OLD 8 1 ++ []))
  = Fatal cant_read_32bit
      {| fdata := header VMSS_MAGIC_OLD 8 1 ++ []; fpos := 12;
         log := [EvRead 0 12 12] |}.
Proof.
  apply (bad_magic_is_format_error 0 0 initial_config (header VMSS_MAGIC_OLD 8 1) []).
  - reflexivity.
  - vm_compute. discriminate.
  - vm_compute. discriminate.
  - vm_compute. discriminate.
Defined.

(** *** Records named pendingNMI *)

Lemma pendingNMI_named (nameb : list byte) (tag : Z) :
  cstring nameb = pendingNMI ->
  Z.of_nat (length nameb) = VMSS_TAG_NAMELEN tag ->
  nameb <> [] /\ tag <> VMSS_TAG_NULL.
Proof.
  intros Hc Hlen. assert (Hne : nameb <> []) by (intros ->; discriminate Hc).
  split; [exact Hne|]. intros ->. change (VMSS_TAG_NAMELEN VMSS_TAG_NULL) with 0 in Hlen.
  destruct nameb; [contradiction | discriminate Hlen].
Qed.

Lemma setnmi_iter_pendingNMI cfg w tagb nameb idxb rest :
  0 <= fpos w ->
  avail w = tagb ++ nameb ++ idxb ++ rest ->
  length tagb = 2%nat ->
  Z.of_nat (length nameb) = VMSS_TAG_NAMELEN (le_val tagb) ->
  Z.of_nat (length idxb) = sizeof_index * VMSS_TAG_NINDX (le_val tagb) ->
  cstring nameb = pendingNMI ->
  VMSS_TAG_ISBLOCK (le_val tagb) = false ->
  setnmi_iter cfg w
  = patch cfg (VMSS_TAG_VALSIZE (le_val tagb)) (index_at idxb 0)
      (head_read w (le_val tagb)).
Proof.
  intros Hp Hav Htag Hname Hidx Hc Hnb.
  destruct (pendingNMI_named _ _ Hc Hname) as [Hne Hnz].
  rewrite (setnmi_iter_head cfg w tagb nameb idxb rest) by assumption.
  unfold dispatch. rewrite Hnb, bool_decide_eq_true_2 by exact Hc. reflexivity.
Qed.

(** C3, as the program has it.  A record named pendingNMI whose tag is
    not a block (value-size code 0 to 61) and whose value size is not 1
    stops the run with the schema violation, before any byte of its value
    is read.  (A record of that name whose code says block is skipped as
    any block is.) *)
Theorem inline_pendingNMI_wrong_size (cfg : config) (w : world)
    (tagb nameb idxb rest : list byte) (fuel : nat) :
  0 <= fpos w ->
  avail w = tagb ++ nameb ++ idxb ++ rest ->
  length tagb = 2%nat ->
  let tag := le_val tagb in
  Z.of_nat (length nameb) = VMSS_TAG_NAMELEN tag ->
  Z.of_nat (length idxb) = sizeof_index * VMSS_TAG_NINDX tag ->
  cstring nameb = pendingNMI ->
  VMSS_TAG_ISBLOCK tag = false ->
  VMSS_TAG_VALSIZE tag <> 1 ->
  let m := unexpected_size (VMSS_TAG_VALSIZE tag) in
  setnmi_iter cfg w = Fatal m (head_read w tag)
  /\ setnmi_loop (S fuel) cfg w = Fatal m (head_read w tag)
  /\ class_of m = SchemaViolation.
Proof.
  intros Hp Hav Htag tag Hname Hidx Hc Hnb Hsz m.
  assert (H : setnmi_iter cfg w = Fatal m (head_read w tag)).
  { rewrite (setnmi_iter_pendingNMI cfg w tagb nameb idxb rest) by assumption.
    apply patch_wrong_size. exact Hsz. }
  split; [exact H|]. split; [apply setnmi_loop_fatal; exact H | reflexivity].
Qed.

Lemma inline_pendingNMI_wrong_size_witness :
  setnmi_loop 1 initial_config
    (opened (inline_record pendingNMI [0] [x00; x00] ++ terminator))
  = Fatal (unexpected_size 2)
      {| fdata := inline_record pendingNMI [0] [x00; x00] ++ terminator;
         fpos := 16;
         log := [EvRead 0 2 2; EvRead 2 10 10; EvRead 12 4 4] |}.
Proof.
  apply (inline_pendingNMI_wrong_size initial_config
           (opened (inline_record pendingNMI [0] [x00; x00] ++ terminator))
           [byte_of 0x42; byte_of 0x0a] pendingNMI [x00; x00; x00; x00]
           ([x00; x00] ++ terminator) 0).
  - discriminate.
  - reflexivity.
  - reflexivity.
  - reflexivity.
  - reflexivity.
  - reflexivity.
  - reflexivity.
  - discriminate.
Defined.

(** A record named pendingNMI whose value is a block of five bytes (size
    code 63, not 1): the run neither complains nor reports it, and ends
    with status zero and the file as it was. *)
Lemma block_coded_pendingNMI_skipped :
  cstring (take 10 (drop 2 block_nmi_stream)) = pendingNMI
  /\ VMSS_TAG_VALSIZE (le_val (take 2 block_nmi_stream)) = 63
  /\ main 2 sample_stack [] (opened (cpu_container block_nmi_stream))
     = Ok tt {| fdata := cpu_container block_nmi_stream; fpos := 133;
                log := [EvRead 0 12 12; EvRead 12 80 80; EvRead 92 2 2;
                        EvRead 94 10 10; EvRead 104 4 4; EvRead 108 16 16;
                        EvRead 124 2 2; EvRead 131 2 2] |}.
Proof. split; [|split]; vm_compute; reflexivity. Qed.

(** *** Blocks *)

Lemma to_long_small (z : Z) : 0 <= z < 2 ^ 63 -> to_long (to_uint64 z) = z.
Proof.
  intros H. unfold to_long, to_signed, to_uint64, to_unsigned.
  rewrite Z.mod_mod by lia. rewrite Z.mod_small by lia.
  change (64 - 1) with 63. rewrite (proj2 (Z.ltb_lt _ _)) by lia. reflexivity.
Qed.

(** C4, as the program has it.  For a block-coded tag whose declared size
    [S] and pad [P] describe a range that lies inside the file (the [S + P]
    bytes behind the block header are there), the turn of the loop goes on
    with the cursor at the offset of the block header plus 18 + S + P.
    The header is read front to back, sixteen bytes for size and memory
    size and two for the pad; no transfer of the turn reaches a byte behind
    the header, and the outcome does not depend on what the payload holds
    ([rest] is any list of at least [S + P] bytes).  The target of the
    seek is an offset of the file itself, which [fseek] accepts on every
    file system. *)
Theorem block_is_skipped (cfg : config) (w : world)
    (tagb nameb idxb blkb padb rest : list byte) :
  0 <= fpos w ->
  avail w = tagb ++ nameb ++ idxb ++ blkb ++ padb ++ rest ->
  length tagb = 2%nat ->
  let tag := le_val tagb in
  nameb <> [] ->
  Z.of_nat (length nameb) = VMSS_TAG_NAMELEN tag ->
  Z.of_nat (length idxb) = sizeof_index * VMSS_TAG_NINDX tag ->
  VMSS_TAG_ISBLOCK tag = true ->
  length blkb = 16%nat ->
  length padb = 2%nat ->
  let S := le_val (take 8 blkb) in
  let P := le_val padb in
  let before := fpos w + sizeof_tag + VMSS_TAG_NAMELEN tag
                + sizeof_index * VMSS_TAG_NINDX tag in
  S + P <= Z.of_nat (length rest) ->
  Z.of_nat (length (fdata w)) <= LONG_MAX ->
  let hdr := [EvRead before 16 16; EvRead (before + 16) 2 2] in
  setnmi_iter cfg w = Ok Continue (moved (head_read w tag) (18 + S + P) hdr)
  /\ fpos (moved (head_read w tag) (18 + S + P) hdr) = before + 18 + S + P
  /\ forallb (below (before + 18))
       (drop (length (log w)) (log (moved (head_read w tag) (18 + S + P) hdr)))
     = true.
Proof.
  intros Hp Hav Htag tag Hne Hname Hidx Hblk Hb Hpad S P before Hin Hsize hdr.
  pose proof (namelen_range tag) as Rn. pose proof (nindx_range tag) as Ri.
  pose proof (le_val_range (take 8 blkb)) as RS. pose proof (le_val_range padb) as RP.
  fold S in RS. fold P in RP.
  assert (Hend : before + 18 + S + P <= Z.of_nat (length (fdata w))).
  { assert (Hl : length (avail w) = (length (fdata w) - Z.to_nat (fpos w))%nat)
      by apply length_drop.
    rewrite Hav, !length_app, Hb, Hpad in Hl. subst before. sizes. }
  assert (HSP : S + P < 2 ^ 63) by (unfold LONG_MAX in Hsize; sizes).
  assert (Hnz : tag <> VMSS_TAG_NULL).
  { intros E. rewrite E in Hblk. discriminate Hblk. }
  assert (Hfp : fpos (head_read w tag) = before)
    by (subst before; unfold head_read; cbv zeta; rewrite fpos_moved; lia).
  split; [|split].
  - rewrite (setnmi_iter_head cfg w tagb nameb idxb (blkb ++ padb ++ rest))
      by assumption.
    fold tag. unfold dispatch. rewrite Hblk.
    assert (Hav3 : avail (head_read w tag) = blkb ++ padb ++ rest).
    { apply (avail_skip w (tagb ++ nameb ++ idxb)); [exact Hp | |].
      - rewrite Hav, <- !app_assoc. reflexivity.
      - rewrite !length_app. sizes. }
    rewrite (skip_block_full _ blkb padb rest) by (rewrite ?Hfp; sizes || assumption).
    fold S P. rewrite to_long_small by lia. rewrite Hfp.
    rewrite (proj2 (Z.leb_le 0 _)), (proj2 (Z.leb_le _ LONG_MAX)) by sizes.
    cbn [andb]. replace (18 + (S + P)) with (18 + S + P) by lia. reflexivity.
  - rewrite fpos_moved, Hfp. lia.
  - unfold head_read, moved. cbn [log]. rewrite <- !app_assoc, drop_app_length.
    subst hdr. cbn [app forallb below].
    rewrite !(proj2 (Z.leb_le _ _)) by (subst before; sizes). reflexivity.
Qed.

Lemma block_is_skipped_witness :
  setnmi_iter initial_config (opened block_nmi_stream)
  = Ok Continue
      {| fdata := block_nmi_stream; fpos := 39;
         log := [EvRead 0 2 2; EvRead 2 10 10; EvRead 12 4 4;
                 EvRead 16 16 16; EvRead 32 2 2] |}.
Proof.
  apply (block_is_skipped initial_config (opened block_nmi_stream)
           [byte_of 0x7f; byte_of 0x0a] pendingNMI [x00; x00; x00; x00]
           (le_bytes 8 5 ++ le_bytes 8 5) [x00; x00]
           ([x01; x02; x03; x04; x05] ++ terminator)).
  - discriminate.
  - reflexivity.
  - reflexivity.
  - discriminate.
  - reflexivity.
  - reflexivity.
  - reflexivity.
  - reflexivity.
  - reflexivity.
  - vm_compute. discriminate.
  - vm_compute. discriminate.
Defined.

(** A block that declares a size of 2^64 - 1 and a pad of 1: the sum
    wraps to 0 in [uint64_t], the seek moves by nothing, and the next turn
    starts right behind the header, which is inside the range the block
    declares. *)
Lemma block_size_wraps :
  VMSS_TAG_ISBLOCK (le_val (take 2 wrap_block_stream)) = true
  /\ le_val (take 8 (drop 5 wrap_block_stream)) = 2 ^ 64 - 1
  /\ le_val (take 2 (drop 21 wrap_block_stream)) = 1
  /\ setnmi_iter initial_config (opened wrap_block_stream)
     = Ok Continue
         {| fdata := wrap_block_stream; fpos := 5 + 18;
            log := [EvRead 0 2 2; EvRead 2 3 3; EvRead 5 0 0;
                    EvRead 5 16 16; EvRead 21 2 2] |}
  /\ 5 + 18 <> 5 + 18 + (2 ^ 64 - 1) + 1.
Proof.
  split; [|split; [|split; [|split]]]; try (vm_compute; reflexivity).
  vm_compute. discriminate.
Qed.

(** *** The patch *)

Lemma avail_lookup w pre v rest :
  0 <= fpos w -> avail w = pre ++ v :: rest ->
  fdata w !! Z.to_nat (fpos w + Z.of_nat (length pre)) = Some v.
Proof.
  intros Hp Hav. rewrite Z2Nat.inj_add, Nat2Z.id by lia.
  rewrite <- lookup_drop. fold (avail w). rewrite Hav.
  rewrite lookup_app_r by lia. rewrite Nat.sub_diag. reflexivity.
Qed.

(** The turn of the loop at a record named pendingNMI with a value of one
    byte [v], in any mode. *)
Lemma setnmi_iter_target cfg w tagb nameb idxb v rest :
  0 <= fpos w ->
  Z.of_nat (length (fdata w)) <= LONG_MAX ->
  avail w = tagb ++ nameb ++ idxb ++ v :: rest ->
  length tagb = 2%nat ->
  let tag := le_val tagb in
  Z.of_nat (length nameb) = VMSS_TAG_NAMELEN tag ->
  Z.of_nat (length idxb) = sizeof_index * VMSS_TAG_NINDX tag ->
  cstring nameb = pendingNMI ->
  VMSS_TAG_VALSIZE tag = 1 ->
  let p := fpos w + sizeof_tag + VMSS_TAG_NAMELEN tag
           + sizeof_index * VMSS_TAG_NINDX tag in
  let cpu := index_at idxb 0 in
  let w3 := head_read w tag in
  fdata w !! Z.to_nat p = Some v
  /\ setnmi_iter cfg w =
     if cpu =? to_uint32 (g_cpu cfg) then
       Ok Continue
         {| fdata := <[Z.to_nat p := g_nmi cfg]> (fdata w);
            fpos := p + 1;
            log := log w3 ++
              [EvRead p 1 1;
               EvWarn (pendingNMI_setting cpu (byte_val v) (byte_val (g_nmi cfg)));
               EvWrite p [g_nmi cfg]] |}
     else
       Ok Continue
         {| fdata := fdata w;
            fpos := p + 1;
            log := log w3 ++
              [EvRead p 1 1;
               EvWarn (if g_cpu cfg =? -1
                       then pendingNMI_is cpu (byte_val v)
                       else pendingNMI_skipping cpu (byte_val v) (g_cpu cfg))] |}.
Proof.
  intros Hp Hsize Hav Htag tag Hname Hidx Hc Hsz p cpu w3.
  pose proof (namelen_range tag) as Rn. pose proof (nindx_range tag) as Ri.
  assert (Hnb : VMSS_TAG_ISBLOCK tag = false).
  { unfold VMSS_TAG_ISBLOCK. rewrite Hsz. reflexivity. }
  assert (Hfp : fpos w3 = p)
    by (subst p w3; unfold head_read; cbv zeta; rewrite fpos_moved; lia).
  assert (Hav3 : avail w3 = v :: rest).
  { apply (avail_skip w (tagb ++ nameb ++ idxb)); [exact Hp | |].
    - rewrite Hav, <- !app_assoc. reflexivity.
    - rewrite !length_app. sizes. }
  assert (Hlook : fdata w !! Z.to_nat p = Some v).
  { replace p with (fpos w + Z.of_nat (length (tagb ++ nameb ++ idxb)))
      by (rewrite !length_app; subst p; sizes).
    apply (avail_lookup w _ v rest); [exact Hp|].
    rewrite Hav, <- !app_assoc. reflexivity. }
  split; [exact Hlook|].
  rewrite (setnmi_iter_pendingNMI cfg w tagb nameb idxb (v :: rest)) by assumption.
  fold tag w3 cpu. rewrite Hsz.
  assert (Hp3 : 0 <= fpos w3) by (rewrite Hfp; subst p; sizes).
  rewrite (patch_value cfg cpu w3 v rest Hp3 Hav3). cbv zeta.
  rewrite Hfp.
  assert (Hlt : p <= LONG_MAX).
  { apply lookup_lt_Some in Hlook. lia. }
  rewrite (proj2 (Z.leb_le _ _) Hlt).
  destruct (cpu =? to_uint32 (g_cpu cfg)); unfold moved; rewrite ?Hfp; reflexivity.
Qed.

(** What the option loop can leave in the globals: [g_cpu] is -1 (after
    [-n]) or a CPU number that fits a non-negative [int], and [g_nmi] is
    1 or 0. *)
Lemma to_int_range (z : Z) : - 2 ^ 31 <= to_int z < 2 ^ 31.
Proof.
  unfold to_int, to_signed. change (32 - 1) with 31.
  pose proof (Z.mod_pos_bound z (2 ^ 32) ltac:(lia)) as R.
  destruct (Z.ltb_spec (z mod 2 ^ 32) (2 ^ 31)); lia.
Qed.

Lemma getopt_loop_config (opts : list opt) : forall cfg cfg' w w',
  (g_cpu cfg = -1 \/ 0 <= g_cpu cfg < 2 ^ 31) ->
  (g_nmi cfg = x01 \/ g_nmi cfg = x00) ->
  getopt_loop cfg opts w = Ok cfg' w' ->
  (g_cpu cfg' = -1 \/ 0 <= g_cpu cfg' < 2 ^ 31)
  /\ (g_nmi cfg' = x01 \/ g_nmi cfg' = x00)
  /\ w' = w.
Proof.
  induction opts as [|c opts IH]; intros cfg cfg' w w' Hcpu Hnmi Hrun.
  - cbn in Hrun. injection Hrun as <- <-. auto.
  - cbn [getopt_loop] in Hrun. unfold mbind, M_bind, bind in Hrun.
    destruct c; cbn [getopt_case] in Hrun.
    + destruct (negb at_end || (to_int value <? 0)) eqn:E; [discriminate Hrun|].
      apply orb_false_iff in E. destruct E as [_ E]. apply Z.ltb_ge in E.
      pose proof (to_int_range value).
      apply IH in Hrun; [exact Hrun | cbn; right; lia | exact Hnmi].
    + apply IH in Hrun; [exact Hrun | cbn; left; reflexivity | exact Hnmi].
    + apply IH in Hrun; [exact Hrun | exact Hcpu | exact Hnmi].
    + apply IH in Hrun; [exact Hrun | exact Hcpu | cbn; right; reflexivity].
    + discriminate Hrun.
Qed.

Lemma to_uint32_small (z : Z) : 0 <= z < 2 ^ 32 -> to_uint32 z = z.
Proof. intros H. unfold to_uint32, to_unsigned. apply Z.mod_small. lia. Qed.

(** X19.  In targeted write mode ([g_cpu] is the CPU asked for with [-c],
    or 0) the turn of the loop at a record named pendingNMI whose value is
    the one byte [v] at offset [p] goes on to the next record and leaves
    the file of the same length, equal to what it was at every offset but
    [p].  If [idx[0]] is the CPU asked for, the byte at [p] is now [g_nmi]
    (1, or 0 after [-z]) and the program has written that one byte and
    nothing else; if it is another CPU, the file is what it was and the
    program has written nothing. *)
Theorem targeted_write_patches_one_byte (cfg : config) (w : world)
    (tagb nameb idxb : list byte) (v : byte) (rest : list byte) :
  0 <= g_cpu cfg < 2 ^ 31 ->
  0 <= fpos w ->
  Z.of_nat (length (fdata w)) <= LONG_MAX ->
  avail w = tagb ++ nameb ++ idxb ++ v :: rest ->
  length tagb = 2%nat ->
  let tag := le_val tagb in
  Z.of_nat (length nameb) = VMSS_TAG_NAMELEN tag ->
  Z.of_nat (length idxb) = sizeof_index * VMSS_TAG_NINDX tag ->
  cstring nameb = pendingNMI ->
  VMSS_TAG_VALSIZE tag = 1 ->
  let p := fpos w + sizeof_tag + VMSS_TAG_NAMELEN tag
           + sizeof_index * VMSS_TAG_NINDX tag in
  exists w',
    setnmi_iter cfg w = Ok Continue w'
    /\ fdata w !! Z.to_nat p = Some v
    /\ length (fdata w') = length (fdata w)
    /\ (forall i, i <> Z.to_nat p -> fdata w' !! i = fdata w !! i)
    /\ (index_at idxb 0 = g_cpu cfg ->
        fdata w' !! Z.to_nat p = Some (g_nmi cfg)
        /\ List.filter is_write (drop (length (log w)) (log w'))
           = [EvWrite p [g_nmi cfg]])
    /\ (index_at idxb 0 <> g_cpu cfg ->
        fdata w' = fdata w
        /\ List.filter is_write (drop (length (log w)) (log w')) = []).
Proof.
  intros Hcpu Hp Hsize Hav Htag tag Hname Hidx Hc Hsz p.
  destruct (setnmi_iter_target cfg w tagb nameb idxb v rest
              Hp Hsize Hav Htag Hname Hidx Hc Hsz) as [Hlook Hrun].
  fold tag p in Hlook, Hrun. cbv zeta in Hrun.
  rewrite to_uint32_small in Hrun by lia.
  pose proof (lookup_lt_Some _ _ _ Hlook) as Hlt.
  destruct (Z.eqb_spec (index_at idxb 0) (g_cpu cfg)) as [E|N].
  - eexists. split; [exact Hrun|]. cbn [fdata log].
    split; [exact Hlook|]. split; [apply length_insert|].
    split; [intros i Hi; apply list_lookup_insert_ne; congruence|].
    split; [|intros N; contradiction].
    intros _. split; [apply list_lookup_insert_eq; exact Hlt|].
    unfold head_read, moved. cbn [log].
    rewrite <- !app_assoc, drop_app_length. reflexivity.
  - eexists. split; [exact Hrun|]. cbn [fdata log].
    split; [exact Hlook|]. split; [reflexivity|].
    split; [reflexivity|]. split; [intros E; contradiction|].
    intros _. split; [reflexivity|].
    unfold head_read, moved. cbn [log].
    rewrite <- !app_assoc, drop_app_length. reflexivity.
Qed.

Lemma targeted_write_patches_one_byte_witness :
  exists w',
    setnmi_iter initial_config
      {| fdata := sample_stream; fpos := 9; log := [] |} = Ok Continue w'
    /\ sample_stream !! 25%nat = Some x00
    /\ fdata w' !! 25%nat = Some x01.
Proof.
  destruct (targeted_write_patches_one_byte initial_config
              {| fdata := sample_stream; fpos := 9; log := [] |}
              [byte_of 0x41; byte_of 0x0a] pendingNMI [x00; x00; x00; x00]
              x00 terminator)
    as (w' & Hrun & Hv & _ & _ & Hset & _).
  - vm_compute. split; [discriminate | reflexivity].
  - discriminate.
  - vm_compute. discriminate.
  - reflexivity.
  - reflexivity.
  - reflexivity.
  - reflexivity.
  - reflexivity.
  - reflexivity.
  - exists w'. split; [exact Hrun|]. split; [exact Hv|].
    apply Hset. reflexivity.
Defined.

(** *** Query mode *)

(** After [-n] the turn at such a record reports the CPU and the value and
    writes nothing, unless [idx[0]] is [UINT32_MAX]. *)
Lemma query_reports_and_keeps_file (cfg : config) (w : world)
    (tagb nameb idxb : list byte) (v : byte) (rest : list byte) :
  g_cpu cfg = -1 ->
  0 <= fpos w ->
  Z.of_nat (length (fdata w)) <= LONG_MAX ->
  avail w = tagb ++ nameb ++ idxb ++ v :: rest ->
  length tagb = 2%nat ->
  let tag := le_val tagb in
  Z.of_nat (length nameb) = VMSS_TAG_NAMELEN tag ->
  Z.of_nat (length idxb) = sizeof_index * VMSS_TAG_NINDX tag ->
  cstring nameb = pendingNMI ->
  VMSS_TAG_VALSIZE tag = 1 ->
  index_at idxb 0 <> 2 ^ 32 - 1 ->
  let p := fpos w + sizeof_tag + VMSS_TAG_NAMELEN tag
           + sizeof_index * VMSS_TAG_NINDX tag in
  setnmi_iter cfg w =
  Ok Continue
    {| fdata := fdata w; fpos := p + 1;
       log := log (head_read w tag) ++
              [EvRead p 1 1;
               EvWarn (pendingNMI_is (index_at idxb 0) (byte_val v))] |}.
Proof.
  intros Hq Hp Hsize Hav Htag tag Hname Hidx Hc Hsz Hmax p.
  destruct (setnmi_iter_target cfg w tagb nameb idxb v rest
              Hp Hsize Hav Htag Hname Hidx Hc Hsz) as [_ Hrun].
  fold tag p in Hrun. cbv zeta in Hrun. rewrite Hrun, Hq.
  change (to_uint32 (-1)) with (2 ^ 32 - 1).
  rewrite (proj2 (Z.eqb_neq _ _) Hmax). reflexivity.
Qed.

(** C2 at the record of CPU [UINT32_MAX].  [-n] sets [g_cpu] to -1, and
    the comparison [idx[0] != g_cpu] is made in [unsigned int], where -1
    is 4294967295: the record is taken for the one to set, and the run
    after [-n] rewrites its value from 0 to 1. *)
Theorem query_mode_patches_cpu_max :
  main 2 sample_stack [opt_n] (opened cpu_max_file)
  = Ok tt {| fdata := <[108%nat := x01]> cpu_max_file; fpos := 111;
             log := [EvRead 0 12 12; EvRead 12 80 80; EvRead 92 2 2;
                     EvRead 94 10 10; EvRead 104 4 4; EvRead 108 1 1;
                     EvWarn (pendingNMI_setting 4294967295 0 1);
                     EvWrite 108 [x01]; EvRead 109 2 2] |}
  /\ cpu_max_file !! 108%nat = Some x00
  /\ <[108%nat := x01]> cpu_max_file <> cpu_max_file.
Proof.
  split; [vm_compute; reflexivity|]. split; [reflexivity|].
  intros H. apply (f_equal (fun l => l !! 108%nat)) in H. vm_compute in H.
  discriminate H.
Qed.

(** *** Short reads *)

Lemma io_abort_intro cfg w m w' :
  setnmi_iter cfg w = Fatal m w' -> fdata w' = fdata w ->
  class_of m = IOError -> is_Some (offset_of m) ->
  io_abort cfg w m.
Proof.
  intros H Hd Hc Ho. split; [|split; assumption].
  exists w'. split; [exact H|]. split; [exact Hd|].
  intros fuel. apply setnmi_loop_fatal. exact H.
Qed.

Ltac io_abort_by run :=
  eapply io_abort_intro;
  [ run | reflexivity | reflexivity | eexists; reflexivity ].

(** C8.  Each read of the loop body that delivers fewer bytes than asked
    for ends the run by [fatal] with an I/O error that names an offset;
    the file is untouched and no further turn is taken.  For the tag, the
    name, the indices and the value the offset is that of [ftell] after
    the failed read, which is the first byte that was missing; for the two
    reads of a block header it is the offset of the header.  [rest]
    stands for the bytes left in the file where the failing read
    starts. *)
Theorem short_read_is_fatal (cfg : config) (w : world) :
  0 <= fpos w ->
  (Z.of_nat (length (avail w)) < sizeof_tag ->
   io_abort cfg w (couldnt_read_tag (fpos w + Z.of_nat (length (avail w)))))
  /\ (forall tagb rest,
      avail w = tagb ++ rest -> length tagb = 2%nat ->
      le_val tagb <> VMSS_TAG_NULL ->
      Z.of_nat (length rest) < VMSS_TAG_NAMELEN (le_val tagb) ->
      io_abort cfg w
        (couldnt_read_name (fpos w + sizeof_tag + Z.of_nat (length rest))))
  /\ (forall tagb nameb rest,
      avail w = tagb ++ nameb ++ rest -> length tagb = 2%nat ->
      le_val tagb <> VMSS_TAG_NULL -> nameb <> [] ->
      Z.of_nat (length nameb) = VMSS_TAG_NAMELEN (le_val tagb) ->
      Z.of_nat (length rest) < sizeof_index * VMSS_TAG_NINDX (le_val tagb) ->
      io_abort cfg w
        (couldnt_read_index (fpos w + sizeof_tag + Z.of_nat (length nameb)
                             + Z.of_nat (length rest))))
  /\ (forall tagb nameb idxb rest,
      avail w = tagb ++ nameb ++ idxb ++ rest -> length tagb = 2%nat ->
      nameb <> [] ->
      Z.of_nat (length nameb) = VMSS_TAG_NAMELEN (le_val tagb) ->
      Z.of_nat (length idxb) = sizeof_index * VMSS_TAG_NINDX (le_val tagb) ->
      VMSS_TAG_ISBLOCK (le_val tagb) = true ->
      Z.of_nat (length rest) < sizeof_block ->
      io_abort cfg w
        (couldnt_read_block (fpos w + sizeof_tag + Z.of_nat (length nameb)
                             + Z.of_nat (length idxb))))
  /\ (forall tagb nameb idxb blkb rest,
      avail w = tagb ++ nameb ++ idxb ++ blkb ++ rest -> length tagb = 2%nat ->
      nameb <> [] ->
      Z.of_nat (length nameb) = VMSS_TAG_NAMELEN (le_val tagb) ->
      Z.of_nat (length idxb) = sizeof_index * VMSS_TAG_NINDX (le_val tagb) ->
      VMSS_TAG_ISBLOCK (le_val tagb) = true ->
      length blkb = 16%nat ->
      Z.of_nat (length rest) < sizeof_padsize ->
      io_abort cfg w
        (couldnt_read_padding (fpos w + sizeof_tag + Z.of_nat (length nameb)
                               + Z.of_nat (length idxb))))
  /\ (forall tagb nameb idxb,
      avail w = tagb ++ nameb ++ idxb -> length tagb = 2%nat ->
      Z.of_nat (length nameb) = VMSS_TAG_NAMELEN (le_val tagb) ->
      Z.of_nat (length idxb) = sizeof_index * VMSS_TAG_NINDX (le_val tagb) ->
      cstring nameb = pendingNMI ->
      VMSS_TAG_VALSIZE (le_val tagb) = 1 ->
      io_abort cfg w
        (couldnt_read_buffer (fpos w + sizeof_tag + Z.of_nat (length nameb)
                              + Z.of_nat (length idxb)))).
Proof.
  intros Hp. split; [|split; [|split; [|split; [|split]]]].
  - intros Hlt. io_abort_by ltac:(apply setnmi_iter_short_tag; exact Hlt).
  - intros tagb rest Hav Htag Hnz Hlt.
    io_abort_by ltac:(exact (setnmi_iter_short_name cfg w tagb rest Hp Hav Htag Hnz Hlt)).
  - intros tagb nameb rest Hav Htag Hnz Hne Hname Hlt.
    io_abort_by ltac:(
      rewrite (setnmi_iter_short_index cfg w tagb nameb rest) by assumption;
      cbv zeta; rewrite <- Hname; reflexivity).
  - intros tagb nameb idxb rest Hav Htag Hne Hname Hidx Hblk Hlt.
    pose proof (namelen_range (le_val tagb)) as Rn.
    pose proof (nindx_range (le_val tagb)) as Ri.
    assert (Hnz : le_val tagb <> VMSS_TAG_NULL)
      by (intros E; rewrite E in Hblk; discriminate Hblk).
    assert (Hav3 : avail (head_read w (le_val tagb)) = rest).
    { apply (avail_skip w (tagb ++ nameb ++ idxb)); [exact Hp | |].
      - rewrite Hav, <- !app_assoc. reflexivity.
      - rewrite !length_app. sizes. }
    io_abort_by ltac:(
      rewrite (setnmi_iter_head cfg w tagb nameb idxb rest) by assumption;
      unfold dispatch; rewrite Hblk;
      rewrite skip_block_short_block by (rewrite Hav3; exact Hlt);
      apply fatal_ext; [|reflexivity]; apply f_equal;
      unfold head_read; cbv zeta; rewrite fpos_moved; sizes).
  - intros tagb nameb idxb blkb rest Hav Htag Hne Hname Hidx Hblk Hb Hlt.
    pose proof (namelen_range (le_val tagb)) as Rn.
    pose proof (nindx_range (le_val tagb)) as Ri.
    assert (Hnz : le_val tagb <> VMSS_TAG_NULL)
      by (intros E; rewrite E in Hblk; discriminate Hblk).
    assert (Hav3 : avail (head_read w (le_val tagb)) = blkb ++ rest).
    { apply (avail_skip w (tagb ++ nameb ++ idxb)); [exact Hp | |].
      - rewrite Hav, <- !app_assoc. reflexivity.
      - rewrite !length_app. sizes. }
    assert (Hp3 : 0 <= fpos (head_read w (le_val tagb)))
      by (unfold head_read; cbv zeta; rewrite fpos_moved; sizes).
    io_abort_by ltac:(
      rewrite (setnmi_iter_head cfg w tagb nameb idxb (blkb ++ rest)) by assumption;
      unfold dispatch; rewrite Hblk;
      rewrite (skip_block_short_pad _ blkb rest Hp3 Hav3 Hb Hlt);
      apply fatal_ext; [|reflexivity]; apply f_equal;
      unfold head_read; cbv zeta; rewrite fpos_moved; sizes).
  - intros tagb nameb idxb Hav Htag Hname Hidx Hc Hsz.
    pose proof (namelen_range (le_val tagb)) as Rn.
    pose proof (nindx_range (le_val tagb)) as Ri.
    assert (Hnb : VMSS_TAG_ISBLOCK (le_val tagb) = false)
      by (unfold VMSS_TAG_ISBLOCK; rewrite Hsz; reflexivity).
    assert (Hav' : avail w = tagb ++ nameb ++ idxb ++ [])
      by (rewrite app_nil_r; exact Hav).
    assert (Hav3 : avail (head_read w (le_val tagb)) = []).
    { apply (avail_skip w (tagb ++ nameb ++ idxb)); [exact Hp | |].
      - rewrite Hav, app_nil_r. reflexivity.
      - rewrite !length_app. sizes. }
    io_abort_by ltac:(
      rewrite (setnmi_iter_pendingNMI cfg w tagb nameb idxb []) by assumption;
      rewrite Hsz, (patch_short _ _ _ Hav3);
      apply fatal_ext; [|reflexivity]; apply f_equal;
      unfold head_read; cbv zeta; rewrite fpos_moved; sizes).
Qed.

Lemma short_read_is_fatal_witness :
  io_abort initial_config
    {| fdata := take 25 sample_stream; fpos := 9; log := [] |}
    (couldnt_read_buffer 25).
Proof.
  destruct (short_read_is_fatal initial_config
              {| fdata := take 25 sample_stream; fpos := 9; log := [] |})
    as (_ & _ & _ & _ & _ & H).
  - discriminate.
  - apply (H [byte_of 0x41; byte_of 0x0a] pendingNMI [x00; x00; x00; x00]);
      reflexivity.
Defined.

(** *** Every turn ends, inside its arrays *)

Lemma split_at (l : list byte) (n : nat) :
  (n <= length l)%nat -> exists a b, l = a ++ b /\ length a = n.
Proof.
  intros H. exists (take n l), (drop n l). split.
  - symmetry. apply take_drop.
  - apply length_take_le. exact H.
Qed.

Lemma outcome_ok_head {A} w tag (r : result A) :
  outcome_ok (head_read w tag) r -> outcome_ok w r.
Proof. destruct r; exact (fun H => H). Qed.

Lemma skip_block_outcome w : 0 <= fpos w -> outcome_ok w (skip_block w).
Proof.
  intros Hp.
  destruct (Z_lt_le_dec (Z.of_nat (length (avail w))) 16) as [Hs|Hl].
  { rewrite skip_block_short_block by exact Hs. cbn. split; [lia | reflexivity]. }
  destruct (split_at (avail w) 16) as (blkb & r1 & Hav & Hb); [lia|].
  destruct (Z_lt_le_dec (Z.of_nat (length r1)) 2) as [Hs|Hl1].
  { rewrite (skip_block_short_pad w blkb r1) by assumption.
    cbn. split; [lia | reflexivity]. }
  destruct (split_at r1 2) as (padb & rest & Hr1 & Hpad); [lia|]. subst r1.
  rewrite (skip_block_full w blkb padb rest) by assumption. cbv zeta.
  match goal with |- context [if ?c then _ else _] => destruct c eqn:E end.
  - apply andb_true_iff in E. destruct E as [E _]. apply Z.leb_le in E.
    cbn. split; [lia | reflexivity].
  - cbn. split; [lia | reflexivity].
Qed.

Lemma patch_outcome cfg size idx0 w :
  0 <= fpos w -> outcome_ok w (patch cfg size idx0 w).
Proof.
  intros Hp. destruct (Z.eq_dec size 1) as [->|Hne].
  2: { rewrite patch_wrong_size by exact Hne. cbn. split; [lia | reflexivity]. }
  destruct (avail w) as [|v rest] eqn:Hav.
  { rewrite patch_short by exact Hav. cbn. split; [lia | reflexivity]. }
  rewrite (patch_value cfg idx0 w v rest Hp Hav). cbv zeta.
  destruct (idx0 =? to_uint32 (g_cpu cfg)).
  - destruct (fpos w <=? LONG_MAX); cbn.
    + split; [lia | apply length_insert].
    + split; [lia | reflexivity].
  - cbn. split; [lia | reflexivity].
Qed.

Lemma dispatch_outcome cfg tag nameb idxb w :
  0 <= fpos w -> outcome_ok w (dispatch cfg tag nameb idxb w).
Proof.
  intros Hp. unfold dispatch.
  destruct (VMSS_TAG_ISBLOCK tag); [apply skip_block_outcome; exact Hp|].
  case_bool_decide; [apply patch_outcome; exact Hp|].
  rewrite bind_seek.
  match goal with |- context [if ?c then _ else _] => destruct c eqn:E end.
  - apply andb_true_iff in E. destruct E as [E _]. apply Z.leb_le in E.
    cbn. split; [lia | reflexivity].
  - cbn. split; [lia | reflexivity].
Qed.

Lemma setnmi_iter_outcome cfg w :
  0 <= fpos w -> outcome_ok w (setnmi_iter cfg w).
Proof.
  intros Hp.
  destruct (Z_lt_le_dec (Z.of_nat (length (avail w))) 2) as [Hs|Hl].
  { rewrite setnmi_iter_short_tag by exact Hs. cbn. split; [lia | reflexivity]. }
  destruct (split_at (avail w) 2) as (tagb & r1 & Hav & Htag); [lia|].
  set (tag := le_val tagb).
  pose proof (namelen_range tag) as Rn. pose proof (nindx_range tag) as Ri.
  destruct (Z.eq_dec tag VMSS_TAG_NULL) as [Hz|Hnz].
  { rewrite (setnmi_iter_break cfg w tagb r1) by assumption.
    cbn. fold tag. split; [lia | reflexivity]. }
  destruct (Z.eq_dec (VMSS_TAG_NAMELEN tag) 0) as [H0|Hn0].
  { rewrite (setnmi_iter_no_name cfg w tagb r1) by assumption.
    cbn. fold tag. split; [lia | reflexivity]. }
  destruct (Z_lt_le_dec (Z.of_nat (length r1)) (VMSS_TAG_NAMELEN tag)) as [Hs|Hl1].
  { rewrite (setnmi_iter_short_name cfg w tagb r1) by assumption.
    cbn. fold tag. split; [lia | reflexivity]. }
  destruct (split_at r1 (Z.to_nat (VMSS_TAG_NAMELEN tag)))
    as (nameb & r2 & Hr1 & Hname); [lia|]. subst r1.
  assert (Hname' : Z.of_nat (length nameb) = VMSS_TAG_NAMELEN tag) by lia.
  assert (Hne : nameb <> []) by (intros ->; cbn in Hname'; lia).
  destruct (Z_lt_le_dec (Z.of_nat (length r2)) (sizeof_index * VMSS_TAG_NINDX tag))
    as [Hs|Hl2].
  { rewrite (setnmi_iter_short_index cfg w tagb nameb r2) by assumption.
    cbn. fold tag. split; [lia | reflexivity]. }
  destruct (split_at r2 (Z.to_nat (sizeof_index * VMSS_TAG_NINDX tag)))
    as (idxb & rest & Hr2 & Hidx); [sizes|]. subst r2.
  assert (Hidx' : Z.of_nat (length idxb) = 4 * VMSS_TAG_NINDX tag) by sizes.
  rewrite (setnmi_iter_head cfg w tagb nameb idxb rest) by assumption.
  apply (outcome_ok_head w tag). apply dispatch_outcome.
  unfold head_read. cbv zeta. rewrite fpos_moved. fold tag. sizes.
Qed.

Lemma setnmi_loop_defined cfg fuel : forall w,
  0 <= fpos w -> setnmi_loop fuel cfg w <> Undefined.
Proof.
  induction fuel as [|fuel IH]; intros w Hp; [discriminate|].
  pose proof (setnmi_iter_outcome cfg w Hp) as Ho.
  destruct (setnmi_iter cfg w) as [c w'|e w'| |] eqn:E; try contradiction.
  - destruct c.
    + rewrite (setnmi_loop_continue _ _ _ _ E). apply IH. apply Ho.
    + rewrite (setnmi_loop_break _ _ _ _ E). discriminate.
  - rewrite (setnmi_loop_fatal _ _ _ _ _ E). discriminate.
Qed.

(** The file never changes its length, however the scan ends. *)
Lemma setnmi_loop_length cfg fuel : forall w,
  0 <= fpos w ->
  match final_data (setnmi_loop fuel cfg w) with
  | Some data => length data = length (fdata w)
  | None => True
  end.
Proof.
  induction fuel as [|fuel IH]; intros w Hp; [exact I|].
  pose proof (setnmi_iter_outcome cfg w Hp) as Ho.
  destruct (setnmi_iter cfg w) as [c w'|e w'| |] eqn:E; try contradiction.
  - destruct Ho as [Hp' Hlen]. destruct c.
    + rewrite (setnmi_loop_continue _ _ _ _ E).
      specialize (IH w' Hp'). destruct (final_data _); [congruence | exact I].
    + rewrite (setnmi_loop_break _ _ _ _ E). exact Hlen.
  - rewrite (setnmi_loop_fatal _ _ _ _ _ E). apply Ho.
Qed.

Lemma le_val_zeros (n : nat) : le_val (replicate n x00) = 0.
Proof. induction n as [|n IH]; [reflexivity|]. cbn [replicate le_val]. rewrite IH. reflexivity. Qed.

Lemma index_at_unread (idxb : list byte) (i : nat) :
  (length idxb <= 4 * i)%nat -> index_at idxb i = 0.
Proof.
  intros H. unfold index_at.
  rewrite drop_app_ge, drop_replicate, take_replicate by exact H.
  apply le_val_zeros.
Qed.

Lemma load_index (idxb : list byte) (i : nat) w :
  Z.of_nat (length idxb) <= sizeof_idx -> (i < 3)%nat ->
  load (array_fill (bzero (array_new sizeof_idx)) idxb)
       (sizeof_index * Z.of_nat i) sizeof_index w
  = Ok (index_at idxb i) w.
Proof.
  intros Hlen Hi.
  rewrite array_fill_zeroed by sizes.
  rewrite load_stored; [| sizes | sizes |].
  - unfold index_at. rewrite length_array_new.
    replace (Z.to_nat (sizeof_index * Z.of_nat i)) with (4 * i)%nat by sizes.
    reflexivity.
  - rewrite length_app, length_replicate, length_array_new. sizes.
Qed.

(** C10.  The accesses of the loop body to its arrays stay inside them.
    Whatever the tag code, the name it asks for and the NUL behind it fit
    the 256 bytes of [name], and the indices it asks for fit the three
    entries of [idx].  So no turn, and no run of turns, ends in undefined
    behaviour, which in the model is what an access outside an array (or a
    load of a cell never stored) gives.  [idx] is zeroed before it is read
    into: every entry can be loaded, and the entries the tag does not
    count are zero. *)
Theorem buffers_stay_in_bounds (cfg : config) (w : world) :
  0 <= fpos w ->
  (forall t,
     0 <= VMSS_TAG_NAMELEN t /\ VMSS_TAG_NAMELEN t + 1 <= sizeof_name
     /\ 0 <= VMSS_TAG_NINDX t
     /\ sizeof_index * VMSS_TAG_NINDX t <= sizeof_idx)
  /\ sizeof_name = 256
  /\ sizeof_idx = 3 * sizeof_index
  /\ setnmi_iter cfg w <> Undefined
  /\ (forall fuel, setnmi_loop fuel cfg w <> Undefined)
  /\ bzero (array_new sizeof_idx) = replicate 12 (Some x00)
  /\ (forall (idxb : list byte) (i : nat) w',
        Z.of_nat (length idxb) <= sizeof_idx -> (i < 3)%nat ->
        load (array_fill (bzero (array_new sizeof_idx)) idxb)
             (sizeof_index * Z.of_nat i) sizeof_index w'
        = Ok (index_at idxb i) w'
        /\ ((length idxb <= 4 * i)%nat -> index_at idxb i = 0)).
Proof.
  intros Hp. split; [|split; [|split; [|split; [|split; [|split]]]]].
  - intros t. pose proof (namelen_range t). pose proof (nindx_range t). sizes.
  - reflexivity.
  - reflexivity.
  - pose proof (setnmi_iter_outcome cfg w Hp) as Ho. intros E. rewrite E in Ho.
    exact Ho.
  - intros fuel. apply setnmi_loop_defined. exact Hp.
  - reflexivity.
  - intros idxb i w' Hlen Hi. split; [apply load_index; assumption|].
    apply index_at_unread.
Qed.

Lemma buffers_stay_in_bounds_witness :
  0 <= fpos (opened sample_stream)
  /\ setnmi_loop 5 initial_config (opened sample_stream) <> Undefined.
Proof.
  split; [discriminate|].
  apply (buffers_stay_in_bounds initial_config (opened sample_stream)).
  discriminate.
Defined.

(** *** The end-to-end scenario

    A "cpu" group that holds an unrelated tag of four bytes, pendingNMI of
    CPU 0 with value 0 and the terminator.  Setting CPU 0 changes the
    payload byte at offset 117 and nothing else; asking for CPU 1 leaves
    the file as it was; so does [-n]. *)

Example end_to_end_set_cpu0 :
  main 3 sample_stack [opt_c 0 true] (opened sample_file)
  = Ok tt {| fdata := <[117%nat := x01]> sample_file; fpos := 120;
             log := [EvRead 0 12 12; EvRead 12 80 80; EvRead 92 2 2;
                     EvRead 94 3 3; EvRead 97 0 0; EvRead 101 2 2;
                     EvRead 103 10 10; EvRead 113 4 4; EvRead 117 1 1;
                     EvWarn (pendingNMI_setting 0 0 1); EvWrite 117 [x01];
                     EvRead 118 2 2] |}.
Proof. vm_compute. reflexivity. Qed.

Example end_to_end_other_cpu :
  main 3 sample_stack [opt_c 1 true] (opened sample_file)
  = Ok tt {| fdata := sample_file; fpos := 120;
             log := [EvRead 0 12 12; EvRead 12 80 80; EvRead 92 2 2;
                     EvRead 94 3 3; EvRead 97 0 0; EvRead 101 2 2;
                     EvRead 103 10 10; EvRead 113 4 4; EvRead 117 1 1;
                     EvWarn (pendingNMI_skipping 0 0 1); EvRead 118 2 2] |}.
Proof. vm_compute. reflexivity. Qed.

Example end_to_end_query :
  main 3 sample_stack [opt_n] (opened sample_file)
  = Ok tt {| fdata := sample_file; fpos := 120;
             log := [EvRead 0 12 12; EvRead 12 80 80; EvRead 92 2 2;
                     EvRead 94 3 3; EvRead 97 0 0; EvRead 101 2 2;
                     EvRead 103 10 10; EvRead 113 4 4; EvRead 117 1 1;
                     EvWarn (pendingNMI_is 0 0); EvRead 118 2 2] |}.
Proof. vm_compute. reflexivity. Qed.

(** ** Further properties of the program *)

(** *** Records the loop passes over *)

Lemma fpos_head_read w tag :
  fpos (head_read w tag)
  = fpos w + sizeof_tag + VMSS_TAG_NAMELEN tag + sizeof_index * VMSS_TAG_NINDX tag.
Proof. unfold head_read. cbv zeta. rewrite fpos_moved. lia. Qed.

Lemma avail_head_read w tagb nameb idxb rest :
  0 <= fpos w ->
  avail w = tagb ++ nameb ++ idxb ++ rest ->
  length tagb = 2%nat ->
  Z.of_nat (length nameb) = VMSS_TAG_NAMELEN (le_val tagb) ->
  Z.of_nat (length idxb) = sizeof_index * VMSS_TAG_NINDX (le_val tagb) ->
  avail (head_read w (le_val tagb)) = rest.
Proof.
  intros Hp Hav Htag Hname Hidx.
  apply (avail_skip w (tagb ++ nameb ++ idxb)); [exact Hp | |].
  - rewrite Hav, <- !app_assoc. reflexivity.
  - rewrite !length_app. sizes.
Qed.

(** The turn at a record with an inline value and another name. *)
Lemma setnmi_iter_skip cfg w tagb nameb idxb rest :
  0 <= fpos w ->
  avail w = tagb ++ nameb ++ idxb ++ rest ->
  length tagb = 2%nat ->
  le_val tagb <> VMSS_TAG_NULL ->
  nameb <> [] ->
  Z.of_nat (length nameb) = VMSS_TAG_NAMELEN (le_val tagb) ->
  Z.of_nat (length idxb) = sizeof_index * VMSS_TAG_NINDX (le_val tagb) ->
  VMSS_TAG_ISBLOCK (le_val tagb) = false ->
  cstring nameb <> pendingNMI ->
  let tag := le_val tagb in
  let w3 := head_read w tag in
  setnmi_iter cfg w =
  if fpos w3 + VMSS_TAG_VALSIZE tag <=? LONG_MAX
  then Ok Continue (moved w3 (VMSS_TAG_VALSIZE tag) [])
  else Fatal (couldnt_seek (fpos w3)) w3.
Proof.
  intros Hp Hav Htag Hnz Hne Hname Hidx Hnb Hc tag w3.
  pose proof (namelen_range tag) as Rn. pose proof (nindx_range tag) as Ri.
  pose proof (valsize_range tag) as Rv.
  rewrite (setnmi_iter_head cfg w tagb nameb idxb rest) by assumption.
  unfold dispatch. rewrite Hnb.
  rewrite bool_decide_eq_false_2 by exact Hc.
  rewrite bind_seek. fold tag. fold w3.
  assert (H0 : 0 <= fpos w3 + VMSS_TAG_VALSIZE tag).
  { subst w3. rewrite fpos_head_read. sizes. }
  rewrite (proj2 (Z.leb_le 0 _) H0). cbn [andb].
  destruct (fpos w3 + VMSS_TAG_VALSIZE tag <=? LONG_MAX); reflexivity.
Qed.

(** The turn at a record whose value is a block, whatever its header
    declares. *)
Lemma setnmi_iter_block cfg w tagb nameb idxb blkb padb rest :
  0 <= fpos w ->
  avail w = tagb ++ nameb ++ idxb ++ blkb ++ padb ++ rest ->
  length tagb = 2%nat ->
  nameb <> [] ->
  Z.of_nat (length nameb) = VMSS_TAG_NAMELEN (le_val tagb) ->
  Z.of_nat (length idxb) = sizeof_index * VMSS_TAG_NINDX (le_val tagb) ->
  VMSS_TAG_ISBLOCK (le_val tagb) = true ->
  length blkb = 16%nat ->
  length padb = 2%nat ->
  let w3 := head_read w (le_val tagb) in
  let off := to_long (to_uint64 (le_val (take 8 blkb) + le_val padb)) in
  let hdr := [EvRead (fpos w3) 16 16; EvRead (fpos w3 + 16) 2 2] in
  setnmi_iter cfg w =
  if (0 <=? fpos w3 + 18 + off) && (fpos w3 + 18 + off <=? LONG_MAX)
  then Ok Continue (moved w3 (18 + off) hdr)
  else Fatal (unable_to_skip_block (fpos w3)) (moved w3 18 hdr).
Proof.
  intros Hp Hav Htag Hne Hname Hidx Hblk Hb Hpad w3 off hdr.
  pose proof (namelen_range (le_val tagb)) as Rn.
  pose proof (nindx_range (le_val tagb)) as Ri.
  assert (Hnz : le_val tagb <> VMSS_TAG_NULL)
    by (intros E; rewrite E in Hblk; discriminate Hblk).
  rewrite (setnmi_iter_head cfg w tagb nameb idxb (blkb ++ padb ++ rest))
    by assumption.
  unfold dispatch. rewrite Hblk. fold w3.
  apply (skip_block_full w3 blkb padb rest); try assumption.
  - subst w3. rewrite fpos_head_read. sizes.
  - subst w3. eapply avail_head_read; eassumption.
Qed.

(** X1.  A record with an inline value whose name is not pendingNMI is
    passed over by a seek: the turn goes on with the cursor behind the
    value, the file as it was, and only the three reads of the head in
    the log.  The value is not read, and need not even be in the file
    ([rest] may be shorter than the value). *)
Theorem other_record_is_skipped (cfg : config) (w : world)
    (tagb nameb idxb rest : list byte) :
  0 <= fpos w ->
  avail w = tagb ++ nameb ++ idxb ++ rest ->
  length tagb = 2%nat ->
  let tag := le_val tagb in
  tag <> VMSS_TAG_NULL ->
  nameb <> [] ->
  Z.of_nat (length nameb) = VMSS_TAG_NAMELEN tag ->
  Z.of_nat (length idxb) = sizeof_index * VMSS_TAG_NINDX tag ->
  VMSS_TAG_ISBLOCK tag = false ->
  cstring nameb <> pendingNMI ->
  let p := fpos w + sizeof_tag + VMSS_TAG_NAMELEN tag
           + sizeof_index * VMSS_TAG_NINDX tag in
  p + VMSS_TAG_VALSIZE tag <= LONG_MAX ->
  setnmi_iter cfg w =
  Ok Continue
    {| fdata := fdata w; fpos := p + VMSS_TAG_VALSIZE tag;
       log := log w ++
         [EvRead (fpos w) sizeof_tag sizeof_tag;
          EvRead (fpos w + sizeof_tag) (VMSS_TAG_NAMELEN tag) (VMSS_TAG_NAMELEN tag);
          EvRead (fpos w + sizeof_tag + VMSS_TAG_NAMELEN tag)
                 (sizeof_index * VMSS_TAG_NINDX tag)
                 (sizeof_index * VMSS_TAG_NINDX tag)] |}.
Proof.
  intros Hp Hav Htag tag Hnz Hne Hname Hidx Hnb Hc p Hend.
  rewrite (setnmi_iter_skip cfg w tagb nameb idxb rest) by assumption.
  cbv zeta. fold tag. rewrite fpos_head_read. fold p.
  rewrite (proj2 (Z.leb_le _ _) Hend).
  unfold head_read, moved. cbn [fdata fpos log]. rewrite app_nil_r.
  f_equal. apply world_ext; [subst p; lia | reflexivity].
Qed.

Lemma other_record_is_skipped_witness :
  setnmi_iter initial_config (opened (take 7 sample_stream))
  = Ok Continue
      {| fdata := take 7 sample_stream; fpos := 9;
         log := [EvRead 0 2 2; EvRead 2 3 3; EvRead 5 0 0] |}.
Proof.
  apply (other_record_is_skipped initial_config (opened (take 7 sample_stream))
           [byte_of 0x04; byte_of 0x03] (list_byte_of_string "foo") []
           [x01; x02]).
  - discriminate.
  - reflexivity.
  - reflexivity.
  - discriminate.
  - discriminate.
  - reflexivity.
  - reflexivity.
  - reflexivity.
  - discriminate.
  - vm_compute. discriminate.
Defined.

Lemma avail_bound w pre rest :
  0 <= fpos w -> avail w = pre ++ rest -> pre <> [] ->
  fpos w + Z.of_nat (length pre) <= Z.of_nat (length (fdata w)).
Proof.
  intros Hp Hav Hne. apply (f_equal length) in Hav.
  unfold avail in Hav. rewrite length_drop, length_app in Hav.
  destruct pre; [contradiction|]. cbn [length] in *. lia.
Qed.

Lemma to_long_wrapped (z : Z) :
  2 ^ 63 <= z mod 2 ^ 64 -> to_long (to_uint64 z) = z mod 2 ^ 64 - 2 ^ 64.
Proof.
  intros H. unfold to_long, to_signed, to_uint64, to_unsigned.
  rewrite Z.mod_mod by lia. change (64 - 1) with 63.
  rewrite (proj2 (Z.ltb_ge _ _)) by lia. reflexivity.
Qed.

(** The turn at a block whose size and pad wrap to a negative [long]. *)
Lemma setnmi_iter_large_block (cfg : config) (w : world)
    (tagb nameb idxb blkb padb rest : list byte) :
  0 <= fpos w ->
  avail w = tagb ++ nameb ++ idxb ++ blkb ++ padb ++ rest ->
  length tagb = 2%nat ->
  let tag := le_val tagb in
  nameb <> [] ->
  Z.of_nat (length nameb) = VMSS_TAG_NAMELEN tag ->
  Z.of_nat (length idxb) = sizeof_index * VMSS_TAG_NINDX tag ->
  VMSS_TAG_ISBLOCK tag = true ->
  length blkb = 16%nat ->
  length padb = 2%nat ->
  let sum := (le_val (take 8 blkb) + le_val padb) mod 2 ^ 64 in
  2 ^ 63 <= sum ->
  Z.of_nat (length (fdata w)) <= LONG_MAX ->
  let before := fpos w + sizeof_tag + VMSS_TAG_NAMELEN tag
                + sizeof_index * VMSS_TAG_NINDX tag in
  let target := before + 18 + (sum - 2 ^ 64) in
  let hdr := [EvRead before 16 16; EvRead (before + 16) 2 2] in
  target < before + 18
  /\ setnmi_iter cfg w =
     if 0 <=? target
     then Ok Continue {| fdata := fdata w; fpos := target;
                         log := log (head_read w tag) ++ hdr |}
     else Fatal (unable_to_skip_block before)
            {| fdata := fdata w; fpos := before + 18;
               log := log (head_read w tag) ++ hdr |}.
Proof.
  intros Hp Hav Htag tag Hne Hname Hidx Hblk Hb Hpad sum Hsum Hmax before target hdr.
  pose proof (namelen_range tag) as Rn. pose proof (nindx_range tag) as Ri.
  pose proof (Z.mod_pos_bound (le_val (take 8 blkb) + le_val padb) (2 ^ 64)
                ltac:(lia)) as Rs. fold sum in Rs.
  split; [subst target; lia|].
  rewrite (setnmi_iter_block cfg w tagb nameb idxb blkb padb rest) by assumption.
  cbv zeta. fold tag. rewrite fpos_head_read. fold before.
  rewrite to_long_wrapped by exact Hsum. fold sum target.
  assert (Hin : fpos w + Z.of_nat (length (tagb ++ nameb ++ idxb ++ blkb ++ padb))
                <= Z.of_nat (length (fdata w))).
  { apply (avail_bound w _ rest); [exact Hp | |].
    - rewrite Hav, <- !app_assoc. reflexivity.
    - destruct tagb; [discriminate Htag | discriminate]. }
  rewrite !length_app, Hb, Hpad in Hin.
  assert (Hle : target <= LONG_MAX) by (subst target before; sizes).
  rewrite (proj2 (Z.leb_le target LONG_MAX) Hle), andb_true_r.
  destruct (0 <=? target).
  - f_equal. unfold moved. rewrite fpos_head_read. fold before.
    apply world_ext; [subst target; lia | reflexivity].
  - apply fatal_ext; [reflexivity|]. unfold moved. rewrite fpos_head_read.
    fold before. reflexivity.
Qed.

(** X2.  A block whose size and pad add up, in [uint64_t], to 2^63 or
    more reaches [fseek] as a negative [long]: the loop goes on at an
    offset before the end of the block header, or, when that offset would
    lie before the start of the file, the run ends with the message of a
    block that could not be skipped. *)
Theorem large_block_seeks_backwards (cfg : config) (w : world)
    (tagb nameb idxb blkb padb rest : list byte) :
  0 <= fpos w ->
  avail w = tagb ++ nameb ++ idxb ++ blkb ++ padb ++ rest ->
  length tagb = 2%nat ->
  let tag := le_val tagb in
  nameb <> [] ->
  Z.of_nat (length nameb) = VMSS_TAG_NAMELEN tag ->
  Z.of_nat (length idxb) = sizeof_index * VMSS_TAG_NINDX tag ->
  VMSS_TAG_ISBLOCK tag = true ->
  length blkb = 16%nat ->
  length padb = 2%nat ->
  let sum := (le_val (take 8 blkb) + le_val padb) mod 2 ^ 64 in
  2 ^ 63 <= sum ->
  Z.of_nat (length (fdata w)) <= LONG_MAX ->
  let before := fpos w + sizeof_tag + VMSS_TAG_NAMELEN tag
                + sizeof_index * VMSS_TAG_NINDX tag in
  let target := before + 18 + (sum - 2 ^ 64) in
  let hdr := [EvRead before 16 16; EvRead (before + 16) 2 2] in
  target < before + 18
  /\ setnmi_iter cfg w =
     if 0 <=? target
     then Ok Continue {| fdata := fdata w; fpos := target;
                         log := log (head_read w tag) ++ hdr |}
     else Fatal (unable_to_skip_block before)
            {| fdata := fdata w; fpos := before + 18;
               log := log (head_read w tag) ++ hdr |}.
Proof. apply setnmi_iter_large_block. Qed.

Lemma large_block_seeks_backwards_witness :
  setnmi_iter initial_config (opened circular_stream)
  = Ok Continue
      {| fdata := circular_stream; fpos := 0;
         log := [EvRead 0 2 2; EvRead 2 1 1; EvRead 3 0 0;
                 EvRead 3 16 16; EvRead 19 2 2] |}.
Proof.
  apply (large_block_seeks_backwards initial_config (opened circular_stream)
           [byte_of 0x3f; byte_of 0x01] (list_byte_of_string "m") []
           (le_bytes 8 (2 ^ 64 - 21) ++ le_bytes 8 0) [x00; x00] []).
  - discriminate.
  - reflexivity.
  - reflexivity.
  - discriminate.
  - reflexivity.
  - reflexivity.
  - reflexivity.
  - reflexivity.
  - reflexivity.
  - vm_compute. discriminate.
  - vm_compute. discriminate.
Defined.

Lemma circular_loop cfg tagb nameb idxb blkb padb rest (fuel : nat) : forall w,
  0 <= fpos w ->
  avail w = tagb ++ nameb ++ idxb ++ blkb ++ padb ++ rest ->
  length tagb = 2%nat ->
  nameb <> [] ->
  Z.of_nat (length nameb) = VMSS_TAG_NAMELEN (le_val tagb) ->
  Z.of_nat (length idxb) = sizeof_index * VMSS_TAG_NINDX (le_val tagb) ->
  VMSS_TAG_ISBLOCK (le_val tagb) = true ->
  length blkb = 16%nat ->
  length padb = 2%nat ->
  (le_val (take 8 blkb) + le_val padb) mod 2 ^ 64
  = 2 ^ 64 - (sizeof_tag + VMSS_TAG_NAMELEN (le_val tagb)
              + sizeof_index * VMSS_TAG_NINDX (le_val tagb) + 18) ->
  Z.of_nat (length (fdata w)) <= LONG_MAX ->
  setnmi_loop fuel cfg w = OutOfFuel.
Proof.
  induction fuel as [|fuel IH];
    intros w Hp Hav Htag Hne Hname Hidx Hblk Hb Hpad Hsum Hmax; [reflexivity|].
  pose proof (namelen_range (le_val tagb)) as Rn.
  pose proof (nindx_range (le_val tagb)) as Ri.
  destruct (setnmi_iter_large_block cfg w tagb nameb idxb blkb padb rest)
    as [_ Hrun]; try assumption; [rewrite Hsum; sizes|].
  cbv zeta in Hrun. rewrite Hsum in Hrun.
  match type of Hrun with context [0 <=? ?t] =>
    replace t with (fpos w) in Hrun by lia end.
  rewrite (proj2 (Z.leb_le 0 (fpos w)) Hp) in Hrun.
  rewrite (setnmi_loop_continue _ _ _ _ Hrun).
  apply IH; try assumption.
Qed.

(** X3.  A block record whose size and pad add up, in [uint64_t], to
    2^64 less the length of the record up to the end of the block header
    sends the cursor back to its own tag: the turn goes on in a state with
    the same file and the same cursor, and the loop of [setnmi] does not
    return, whatever the fuel. *)
Theorem circular_block_never_returns (cfg : config) (w : world)
    (tagb nameb idxb blkb padb rest : list byte) :
  0 <= fpos w ->
  avail w = tagb ++ nameb ++ idxb ++ blkb ++ padb ++ rest ->
  length tagb = 2%nat ->
  let tag := le_val tagb in
  nameb <> [] ->
  Z.of_nat (length nameb) = VMSS_TAG_NAMELEN tag ->
  Z.of_nat (length idxb) = sizeof_index * VMSS_TAG_NINDX tag ->
  VMSS_TAG_ISBLOCK tag = true ->
  length blkb = 16%nat ->
  length padb = 2%nat ->
  (le_val (take 8 blkb) + le_val padb) mod 2 ^ 64
  = 2 ^ 64 - (sizeof_tag + VMSS_TAG_NAMELEN tag
              + sizeof_index * VMSS_TAG_NINDX tag + 18) ->
  Z.of_nat (length (fdata w)) <= LONG_MAX ->
  (exists evs, setnmi_iter cfg w
               = Ok Continue {| fdata := fdata w; fpos := fpos w;
                                log := log w ++ evs |})
  /\ forall fuel, setnmi_loop fuel cfg w = OutOfFuel.
Proof.
  intros Hp Hav Htag tag Hne Hname Hidx Hblk Hb Hpad Hsum Hmax.
  pose proof (namelen_range tag) as Rn. pose proof (nindx_range tag) as Ri.
  split.
  - destruct (setnmi_iter_large_block cfg w tagb nameb idxb blkb padb rest)
      as [_ Hrun]; try assumption; [fold tag; rewrite Hsum; sizes|].
    cbv zeta in Hrun. fold tag in Hrun. rewrite Hsum in Hrun.
    match type of Hrun with context [0 <=? ?t] =>
      replace t with (fpos w) in Hrun by lia end.
    rewrite (proj2 (Z.leb_le 0 (fpos w)) Hp) in Hrun.
    eexists. rewrite Hrun. unfold head_read, moved. cbn [log].
    rewrite <- app_assoc. reflexivity.
  - intros fuel.
    apply (circular_loop cfg tagb nameb idxb blkb padb rest); assumption.
Qed.

Lemma circular_block_never_returns_witness :
  (exists evs, setnmi_iter initial_config (opened circular_stream)
               = Ok Continue {| fdata := circular_stream; fpos := 0;
                                log := evs |})
  /\ forall fuel,
       setnmi_loop fuel initial_config (opened circular_stream) = OutOfFuel.
Proof.
  apply (circular_block_never_returns initial_config (opened circular_stream)
           [byte_of 0x3f; byte_of 0x01] (list_byte_of_string "m") []
           (le_bytes 8 (2 ^ 64 - 21) ++ le_bytes 8 0) [x00; x00] []).
  - discriminate.
  - reflexivity.
  - reflexivity.
  - discriminate.
  - reflexivity.
  - reflexivity.
  - reflexivity.
  - reflexivity.
  - reflexivity.
  - reflexivity.
  - vm_compute. discriminate.
Defined.

Lemma moved_ext w a b (e1 e2 : list event) :
  a = b -> e1 = e2 -> moved w a e1 = moved w b e2.
Proof. intros -> ->. reflexivity. Qed.

Lemma head_read_moved w tag :
  head_read w tag
  = moved w (sizeof_tag + VMSS_TAG_NAMELEN tag + sizeof_index * VMSS_TAG_NINDX tag)
      [EvRead (fpos w) sizeof_tag sizeof_tag;
       EvRead (fpos w + sizeof_tag) (VMSS_TAG_NAMELEN tag) (VMSS_TAG_NAMELEN tag);
       EvRead (fpos w + sizeof_tag + VMSS_TAG_NAMELEN tag)
              (sizeof_index * VMSS_TAG_NINDX tag)
              (sizeof_index * VMSS_TAG_NINDX tag)].
Proof. reflexivity. Qed.

(** The turn at the bytes of a record the loop passes over. *)
Lemma skippable_turn cfg (c : list byte) :
  skippable c -> forall w rest,
  0 <= fpos w ->
  avail w = c ++ rest ->
  fpos w + Z.of_nat (length c) <= LONG_MAX ->
  exists evs, Forall full_read evs
    /\ setnmi_iter cfg w = Ok Continue (moved w (Z.of_nat (length c)) evs).
Proof.
  intros Hc w rest Hp Hav Hmax.
  destruct Hc as [tagb nameb idxb value Htag Hnz Hne Hname Hidx Hnb Hnot Hval
                 |tagb nameb idxb blkb padb payload Htag Hne Hname Hidx Hblk Hb
                    Hpad Hpay].
  - pose proof (namelen_range (le_val tagb)) as Rn.
    pose proof (nindx_range (le_val tagb)) as Ri.
    rewrite !length_app in Hmax. rewrite <- !app_assoc in Hav.
    eexists. split; cycle 1.
    + rewrite (setnmi_iter_skip cfg w tagb nameb idxb (value ++ rest)) by assumption.
      cbv zeta. rewrite fpos_head_read.
      rewrite (proj2 (Z.leb_le _ LONG_MAX)) by sizes.
      rewrite head_read_moved, moved_moved. f_equal.
      apply moved_ext; [rewrite !length_app; sizes | reflexivity].
    + repeat constructor; eexists _, _; reflexivity.
  - pose proof (namelen_range (le_val tagb)) as Rn.
    pose proof (nindx_range (le_val tagb)) as Ri.
    pose proof (le_val_range (take 8 blkb)) as RS.
    pose proof (le_val_range padb) as RP.
    rewrite !length_app, Hb, Hpad in Hmax. rewrite <- !app_assoc in Hav.
    eexists. split; cycle 1.
    + rewrite (setnmi_iter_block cfg w tagb nameb idxb blkb padb (payload ++ rest))
        by assumption.
      cbv zeta. rewrite fpos_head_read.
      rewrite to_long_small by (unfold LONG_MAX in Hmax; sizes).
      rewrite (proj2 (Z.leb_le 0 _)), (proj2 (Z.leb_le _ LONG_MAX)) by sizes.
      cbn [andb]. rewrite head_read_moved, moved_moved. f_equal.
      apply moved_ext; [rewrite !length_app, Hb, Hpad; sizes | reflexivity].
    + repeat constructor; eexists _, _; reflexivity.
Qed.

(** X4.  A stream made of records the loop passes over (inline values
    under other names, blocks with the payload they declare) and closed
    by the terminator is scanned to its end: with fuel for one turn per
    record and one for the terminator the loop returns, the cursor behind
    the terminator, the file as it was, and nothing in the log but reads
    that delivered all they asked for. *)
Theorem skippable_stream_is_scanned (cfg : config) (chunks : list (list byte)) :
  forall (w : world) (tagz rest : list byte),
  Forall skippable chunks ->
  0 <= fpos w ->
  avail w = concat chunks ++ tagz ++ rest ->
  length tagz = 2%nat ->
  le_val tagz = VMSS_TAG_NULL ->
  fpos w + Z.of_nat (length (concat chunks)) <= LONG_MAX ->
  exists evs, Forall full_read evs
    /\ forall fuel, (length chunks < fuel)%nat ->
       setnmi_loop fuel cfg w
       = Ok tt (moved w (Z.of_nat (length (concat chunks)) + 2) evs).
Proof.
  induction chunks as [|c cs IH]; intros w tagz rest Hall Hp Hav Htag Hz Hmax.
  - exists [EvRead (fpos w) 2 2]. split.
    + repeat constructor. eexists _, _; reflexivity.
    + intros fuel Hf. destruct fuel as [|fuel]; [lia|].
      apply setnmi_loop_break.
      exact (setnmi_iter_break cfg w tagz rest Hav Htag Hz).
  - inversion Hall as [|? ? Hc Hcs]; subst.
    cbn [concat] in Hav, Hmax. rewrite length_app in Hmax.
    rewrite <- app_assoc in Hav.
    destruct (skippable_turn cfg c Hc w _ Hp Hav ltac:(lia)) as (evs1 & Hf1 & Hturn).
    set (w1 := moved w (Z.of_nat (length c)) evs1) in *.
    assert (Hav1 : avail w1 = concat cs ++ tagz ++ rest)
      by (apply (avail_skip w c); [exact Hp | exact Hav | reflexivity]).
    assert (Hp1 : 0 <= fpos w1) by (subst w1; rewrite fpos_moved; lia).
    destruct (IH w1 tagz rest Hcs Hp1 Hav1 Htag Hz) as (evs2 & Hf2 & Hloop).
    { subst w1. rewrite fpos_moved. lia. }
    exists (evs1 ++ evs2). split; [apply Forall_app; split; assumption|].
    intros fuel Hf. destruct fuel as [|fuel]; [cbn in Hf; lia|].
    rewrite (setnmi_loop_continue _ _ _ _ Hturn).
    rewrite Hloop by (cbn [length] in Hf; lia).
    subst w1. rewrite moved_moved. f_equal.
    apply moved_ext; [cbn [concat]; rewrite length_app; lia | reflexivity].
Qed.

Lemma skippable_stream_is_scanned_witness :
  exists evs, forall fuel, (2 < fuel)%nat ->
    setnmi_loop fuel initial_config
      (opened (take 9 sample_stream ++ block_nmi_stream ++ [x05]))
    = Ok tt (moved (opened (take 9 sample_stream ++ block_nmi_stream
                            ++ [x05])) 50 evs).
Proof.
  destruct (skippable_stream_is_scanned initial_config
              [take 9 sample_stream; take 39 block_nmi_stream]
              (opened (take 9 sample_stream ++ block_nmi_stream ++ [x05]))
              [x00; x00] [x05]) as (evs & _ & H).
  - constructor; [|constructor; [|constructor]].
    + apply (skippable_inline [byte_of 0x04; byte_of 0x03]
               (list_byte_of_string "foo") [] [x01; x02; x03; x04]);
        try reflexivity; discriminate.
    + apply (skippable_block [byte_of 0x7f; byte_of 0x0a] pendingNMI
               [x00; x00; x00; x00] (le_bytes 8 5 ++ le_bytes 8 5) [x00; x00]
               [x01; x02; x03; x04; x05]);
        try reflexivity; discriminate.
  - discriminate.
  - vm_compute. reflexivity.
  - reflexivity.
  - reflexivity.
  - vm_compute. discriminate.
  - exists evs. exact H.
Defined.

(** *** The start of [setnmi] *)

Lemma to_long_id (z : Z) : 0 <= z < 2 ^ 63 -> to_long z = z.
Proof.
  intros H. unfold to_long, to_signed. rewrite Z.mod_small by lia.
  change (64 - 1) with 63. rewrite (proj2 (Z.ltb_lt _ _)) by lia. reflexivity.
Qed.

Lemma to_long_high (z : Z) : 2 ^ 63 <= z < 2 ^ 64 -> to_long z = z - 2 ^ 64.
Proof.
  intros H. unfold to_long, to_signed. rewrite Z.mod_small by lia.
  change (64 - 1) with 63. rewrite (proj2 (Z.ltb_ge _ _)) by lia. reflexivity.
Qed.

(** X5.  A group whose offset field is 2^63 or more is refused by the
    seek that opens [setnmi]: the run ends with the message that names the
    group and its offset, before any byte of the group is read and
    whatever the fuel. *)
Theorem group_offset_refused (fuel : nat) (cfg : config) (grp : vmss_group)
    (w : world) :
  2 ^ 63 <= vmss_group_offs grp < 2 ^ 64 ->
  setnmi fuel cfg grp w
  = Fatal (couldnt_read_group (vmss_group_name grp) (vmss_group_offs grp)) w.
Proof.
  intros H. unfold setnmi, mbind, M_bind, bind, fseek.
  rewrite to_long_high by exact H.
  rewrite (proj2 (Z.leb_gt 0 _)) by lia. reflexivity.
Qed.

Lemma group_offset_refused_witness :
  setnmi 0 initial_config (Group [] (2 ^ 63) 0) (opened sample_file)
  = Fatal (couldnt_read_group [] (2 ^ 63)) (opened sample_file).
Proof.
  apply (group_offset_refused 0 initial_config (Group [] (2 ^ 63) 0)).
  vm_compute. split; [discriminate | reflexivity].
Defined.

(** X6.  A group whose offset is the end of the file, or the offset of
    its last byte, is accepted by the seek (the target is an offset of the
    file itself); the run then ends at the first read of a tag, with the
    message of a tag that could not be read, at the offset where the file
    ran out, which is its length. *)
Theorem group_offset_at_end (fuel : nat) (cfg : config) (grp : vmss_group)
    (w : world) :
  let size := Z.of_nat (length (fdata w)) in
  let offs := vmss_group_offs grp in
  size <= LONG_MAX ->
  0 <= offs ->
  size - 2 < offs <= size ->
  setnmi (S fuel) cfg grp w
  = Fatal (couldnt_read_tag size)
      {| fdata := fdata w; fpos := size;
         log := log w ++ [EvRead offs 2 (size - offs)] |}.
Proof.
  intros size offs Hsize Hoffs Hend. unfold LONG_MAX in Hsize.
  set (w1 := {| fdata := fdata w; fpos := offs; log := log w |}).
  assert (Hseek : fseek (to_long (vmss_group_offs grp)) SEEK_SET w = Ok 0 w1).
  { unfold fseek. fold offs. rewrite to_long_id by lia.
    rewrite (proj2 (Z.leb_le 0 _)), (proj2 (Z.leb_le _ LONG_MAX))
      by (unfold LONG_MAX; lia).
    reflexivity. }
  rewrite (setnmi_seek _ _ _ _ _ Hseek).
  assert (Hlen : Z.of_nat (length (avail w1)) = size - offs).
  { unfold avail. rewrite length_drop. subst w1 size. cbn [fdata fpos]. lia. }
  assert (Hshort : Z.of_nat (length (avail w1)) < 2) by lia.
  rewrite (setnmi_loop_fatal fuel cfg w1 _ _ (setnmi_iter_short_tag cfg w1 Hshort)).
  rewrite Hlen. unfold moved. subst w1. cbn [fpos fdata log].
  apply fatal_ext; [f_equal; lia|]. apply world_ext; [lia | reflexivity].
Qed.

Lemma group_offset_at_end_witness :
  setnmi 1 initial_config (Group [] 119 0) (opened sample_file)
  = Fatal (couldnt_read_tag 120)
      {| fdata := sample_file; fpos := 120; log := [EvRead 119 2 1] |}.
Proof.
  apply (group_offset_at_end 0 initial_config (Group [] 119 0) (opened sample_file)).
  - vm_compute. discriminate.
  - discriminate.
  - split; [reflexivity | vm_compute; discriminate].
Defined.

(** *** [process]: the header and the group table *)

Lemma process_short_header (fuel : nat) (stack : Z) (cfg : config) (data : list byte) :
  Z.of_nat (length data) < sizeof_header ->
  process fuel stack cfg (opened data)
  = Fatal couldnt_read_header
      {| fdata := data; fpos := Z.of_nat (length data);
         log := [EvRead 0 sizeof_header (Z.of_nat (length data))] |}.
Proof.
  intros Hlt. unfold process.
  destruct (fread_into_short (array_new sizeof_header) (opened data) sizeof_header 1)
    as (k & Hk & E); [reflexivity | rewrite avail_opened; sizes | sizes |].
  erewrite bind_ok by exact E.
  cbv beta iota. rewrite neq_eqb_negb by lia. rewrite avail_opened. reflexivity.
Qed.

(** X7.  A file shorter than the twelve bytes of the header, the empty
    file included, ends the run at the first read with the message of a
    header that could not be read; that message carries no offset. *)
Theorem truncated_header_is_fatal (fuel : nat) (stack : Z) (cfg : config) (data : list byte) :
  Z.of_nat (length data) < sizeof_header ->
  process fuel stack cfg (opened data)
  = Fatal couldnt_read_header
      {| fdata := data; fpos := Z.of_nat (length data);
         log := [EvRead 0 sizeof_header (Z.of_nat (length data))] |}
  /\ offset_of couldnt_read_header = None.
Proof.
  intros Hlt. split; [apply process_short_header; exact Hlt | reflexivity].
Qed.

Lemma truncated_header_is_fatal_witness :
  process 0 0 initial_config (opened [])
  = Fatal couldnt_read_header
      {| fdata := []; fpos := 0; log := [EvRead 0 12 0] |}.
Proof.
  apply (truncated_header_is_fatal 0 0 initial_config []). reflexivity.
Defined.

Lemma process_header (fuel : nat) (stack : Z) (cfg : config) (hdrb rest : list byte) :
  length hdrb = 12%nat ->
  let magic := le_val (take 4 hdrb) in
  magic = VMSS_MAGIC \/ magic = VMSS_MAGIC_RESTORED \/ magic = VMSS_MAGIC_PARTIAL ->
  let ngroups := le_val (take 4 (drop 8 hdrb)) in
  process fuel stack cfg (opened (hdrb ++ rest))
  = (if stack <? ngroups * sizeof_group then undefined else
     '(n, groups) ← fread_into (array_new (ngroups * sizeof_group))
                               sizeof_group ngroups;
     if negb (n =? ngroups) then fatal (couldnt_read_groups ngroups) else
     for_groups fuel cfg groups 0 (Z.to_nat ngroups))
      (moved (opened (hdrb ++ rest)) sizeof_header
         [EvRead 0 sizeof_header sizeof_header]).
Proof.
  intros Hlen magic Hmagic ngroups. unfold process.
  erewrite bind_ok; cycle 1.
  { apply (fread_into_full _ (opened (hdrb ++ rest)) sizeof_header 1 hdrb rest);
      [apply avail_opened | rewrite Hlen; reflexivity | reflexivity | sizes]. }
  cbv beta iota. change (negb (1 =? 1)) with false. cbv iota.
  unfold array_fill.
  erewrite bind_ok by (apply load_stored; rewrite ?Hlen; lia).
  change (Z.to_nat 0) with 0%nat. change (Z.to_nat 4) with 4%nat.
  rewrite drop_0. fold magic.
  assert (Hold : (magic =? VMSS_MAGIC_OLD) = false).
  { apply Z.eqb_neq. destruct Hmagic as [->|[->| ->]]; discriminate. }
  assert (Hok : (magic =? VMSS_MAGIC) || (magic =? VMSS_MAGIC_RESTORED)
                || (magic =? VMSS_MAGIC_PARTIAL) = true).
  { destruct Hmagic as [->|[->| ->]]; reflexivity. }
  rewrite Hold, Hok.
  erewrite bind_ok by (apply load_stored; rewrite ?Hlen; lia).
  erewrite bind_ok by (apply load_stored; rewrite ?Hlen; lia).
  reflexivity.
Qed.

Lemma process_short_table (fuel : nat) (stack : Z) (cfg : config)
    (hdrb rest : list byte) :
  length hdrb = 12%nat ->
  let magic := le_val (take 4 hdrb) in
  magic = VMSS_MAGIC \/ magic = VMSS_MAGIC_RESTORED \/ magic = VMSS_MAGIC_PARTIAL ->
  let ngroups := le_val (take 4 (drop 8 hdrb)) in
  sizeof_group * ngroups <= stack ->
  Z.of_nat (length rest) < sizeof_group * ngroups ->
  process fuel stack cfg (opened (hdrb ++ rest))
  = Fatal (couldnt_read_groups ngroups)
      {| fdata := hdrb ++ rest;
         fpos := sizeof_header + Z.of_nat (length rest);
         log := [EvRead 0 sizeof_header sizeof_header;
                 EvRead sizeof_header (sizeof_group * ngroups)
                        (Z.of_nat (length rest))] |}.
Proof.
  intros Hlen magic Hmagic ngroups Hfit Hlt.
  rewrite (process_header fuel stack cfg hdrb rest Hlen Hmagic). fold ngroups.
  rewrite (proj2 (Z.ltb_ge _ _)) by lia.
  set (w1 := moved _ _ _).
  assert (Hav1 : avail w1 = rest).
  { apply (avail_skip (opened (hdrb ++ rest)) hdrb);
      [discriminate | apply avail_opened | rewrite Hlen; reflexivity]. }
  destruct (fread_into_short (array_new (ngroups * sizeof_group)) w1
              sizeof_group ngroups)
    as (k & Hk & E); [reflexivity | rewrite Hav1; exact Hlt | |].
  { rewrite length_array_new. unfold sizeof_group, VMSS_GROUP_NAMELEN in *. lia. }
  erewrite bind_ok by exact E.
  cbv beta iota. rewrite neq_eqb_negb by lia. rewrite Hav1. reflexivity.
Qed.

(** X8.  When the group table that the header announces fits the stack
    but the file ends before it, the run ends with the message of groups
    that could not be read, and no group is scanned, not even one whose
    entry was read in full. *)
Theorem truncated_table_is_fatal (fuel : nat) (stack : Z) (cfg : config)
    (hdrb rest : list byte) :
  length hdrb = 12%nat ->
  let magic := le_val (take 4 hdrb) in
  magic = VMSS_MAGIC \/ magic = VMSS_MAGIC_RESTORED \/ magic = VMSS_MAGIC_PARTIAL ->
  let ngroups := le_val (take 4 (drop 8 hdrb)) in
  sizeof_group * ngroups <= stack ->
  Z.of_nat (length rest) < sizeof_group * ngroups ->
  process fuel stack cfg (opened (hdrb ++ rest))
  = Fatal (couldnt_read_groups ngroups)
      {| fdata := hdrb ++ rest;
         fpos := sizeof_header + Z.of_nat (length rest);
         log := [EvRead 0 sizeof_header sizeof_header;
                 EvRead sizeof_header (sizeof_group * ngroups)
                        (Z.of_nat (length rest))] |}.
Proof. apply process_short_table. Qed.

Lemma truncated_table_is_fatal_witness :
  process 5 sample_stack initial_config
    (opened (header VMSS_MAGIC 8 2 ++ group_entry "cpu" 12 0))
  = Fatal (couldnt_read_groups 2)
      {| fdata := header VMSS_MAGIC 8 2 ++ group_entry "cpu" 12 0; fpos := 92;
         log := [EvRead 0 12 12; EvRead 12 160 80] |}.
Proof.
  apply (truncated_table_is_fatal 5 sample_stack initial_config (header VMSS_MAGIC 8 2)
           (group_entry "cpu" 12 0)).
  - reflexivity.
  - left. reflexivity.
  - vm_compute. discriminate.
  - reflexivity.
Defined.

Lemma cpu_no_nul : Forall (fun b => b <> x00) (list_byte_of_string "cpu").
Proof. repeat constructor; discriminate. Qed.

(** [strcmp] against a literal shorter than what was stored. *)
Lemma strcmp_cells_stored (l : list byte) (junk : array) (lit : list byte) :
  Forall (fun b => b <> x00) lit ->
  (length lit < length l)%nat ->
  exists d, strcmp_cells ((Some <$> l) ++ junk) lit = Some d
            /\ (d = 0 <-> cstring l = lit).
Proof.
  revert lit. induction l as [|b l IH]; intros lit Hlit Hlen.
  - cbn in Hlen. lia.
  - destruct lit as [|x lit].
    + cbn [fmap list_fmap app strcmp_cells]. eexists. split; [reflexivity|].
      rewrite cstring_nil_iff. split.
      * intros H. apply byte_val_inj. exact H.
      * intros ->. reflexivity.
    + inversion Hlit as [|? ? Hx Hlit']; subst.
      cbn [fmap list_fmap app strcmp_cells cstring].
      destruct (Byte.eqb b x) eqn:E.
      * apply Byte.byte_dec_bl in E. subst x.
        destruct (Byte.eqb b x00) eqn:E0.
        { apply Byte.byte_dec_bl in E0. congruence. }
        destruct (IH lit Hlit') as (d & Hd & Hiff); [cbn in Hlen; lia|].
        exists d. split; [exact Hd|].
        rewrite Hiff. split; [congruence | intros H; congruence].
      * apply Byte.eqb_false in E. eexists. split; [reflexivity|]. split.
        -- intros H. exfalso. apply E. apply byte_val_inj. lia.
        -- destruct (Byte.eqb b x00); [discriminate | congruence].
Qed.

Lemma cstring_take (n : nat) (l lit : list byte) :
  (length lit < n)%nat -> cstring (take n l) = lit <-> cstring l = lit.
Proof.
  revert n lit. induction l as [|b l IH]; intros n lit Hn.
  - rewrite take_nil. reflexivity.
  - destruct n as [|n]; [lia|]. cbn [take cstring].
    destruct (Byte.eqb b x00); [reflexivity|].
    destruct lit as [|x lit]; [split; discriminate|].
    cbn [length] in Hn.
    split; intros H; injection H as -> H; f_equal; apply (IH n lit); (lia || exact H).
Qed.

(** [groups[i]] and the test of its name, on a table that was read. *)
Lemma load_group_stored (grpb : list byte) (junk : array) (i : nat) w :
  (80 * (i + 1) <= length grpb)%nat ->
  load_group ((Some <$> grpb) ++ junk) (Z.of_nat i) w
  = Ok (parse_group (take 80 (drop (80 * i) grpb))) w.
Proof.
  intros Hlen. unfold load_group.
  replace (Z.to_nat (Z.of_nat i * sizeof_group)) with (80 * i)%nat
    by (unfold sizeof_group, VMSS_GROUP_NAMELEN; lia).
  rewrite drop_app_le by (rewrite length_fmap; lia).
  rewrite <- fmap_drop.
  set (rem := drop (80 * i) grpb).
  assert (Hrem : (80 <= length rem)%nat) by (subst rem; rewrite length_drop; lia).
  rewrite load_bytes_stored by (unfold VMSS_GROUP_NAMELEN; lia).
  erewrite bind_ok by (apply load_stored; unfold VMSS_GROUP_NAMELEN; lia).
  erewrite bind_ok by (apply load_stored; unfold VMSS_GROUP_NAMELEN; lia).
  unfold ret, parse_group. f_equal.
  change (Z.to_nat VMSS_GROUP_NAMELEN) with 64%nat.
  change (Z.to_nat (VMSS_GROUP_NAMELEN + 8)) with 72%nat.
  change (Z.to_nat 8) with 8%nat. change (Z.to_nat 0) with 0%nat.
  rewrite drop_0.
  rewrite take_take, !take_drop_commute, !take_take. reflexivity.
Qed.

Lemma strcmp_group_stored (grpb : list byte) (junk : array) (i : nat) w :
  (80 * (i + 1) <= length grpb)%nat ->
  exists d,
    strcmp (drop (Z.to_nat (Z.of_nat i * sizeof_group)) ((Some <$> grpb) ++ junk))
           "cpu" w = Ok d w
    /\ (d =? 0) = is_cpu (take 80 (drop (80 * i) grpb)).
Proof.
  intros Hlen.
  replace (Z.to_nat (Z.of_nat i * sizeof_group)) with (80 * i)%nat
    by (unfold sizeof_group, VMSS_GROUP_NAMELEN; lia).
  rewrite drop_app_le by (rewrite length_fmap; lia).
  rewrite <- fmap_drop.
  set (rem := drop (80 * i) grpb).
  assert (Hrem : (80 <= length rem)%nat) by (subst rem; rewrite length_drop; lia).
  destruct (strcmp_cells_stored rem junk (list_byte_of_string "cpu") cpu_no_nul)
    as (d & Hd & Hiff); [change (length (list_byte_of_string "cpu")) with 3%nat; lia|].
  exists d. split; [unfold strcmp; rewrite Hd; reflexivity|].
  unfold is_cpu.
  assert (Ht : cstring (take 80 rem) = list_byte_of_string "cpu"
               <-> cstring rem = list_byte_of_string "cpu").
  { apply cstring_take. change (length (list_byte_of_string "cpu")) with 3%nat. lia. }
  destruct (Z.eqb_spec d 0) as [E|N].
  - symmetry. apply bool_decide_eq_true_2. apply Ht, Hiff, E.
  - symmetry. apply bool_decide_eq_false_2. intros H. apply N, Hiff, Ht, H.
Qed.

Lemma for_groups_scan fuel cfg (grpb : list byte) (junk : array) (todo : nat) :
  forall (i : nat) w,
  (80 * (i + todo) <= length grpb)%nat ->
  for_groups fuel cfg ((Some <$> grpb) ++ junk) (Z.of_nat i) todo w
  = scan_groups fuel cfg (table_entries todo (drop (80 * i) grpb)) w.
Proof.
  induction todo as [|todo IH]; intros i w Hlen; [reflexivity|].
  cbn [for_groups table_entries scan_groups].
  erewrite bind_ok by (apply load_group_stored; lia).
  destruct (strcmp_group_stored grpb junk i w) as (d & Hd & Hcpu); [lia|].
  erewrite bind_ok by exact Hd.
  rewrite Hcpu. unfold mbind, M_bind, bind.
  destruct ((if is_cpu (take 80 (drop (80 * i) grpb))
             then setnmi fuel cfg (parse_group (take 80 (drop (80 * i) grpb)))
             else ret tt) w) as [[] w'|e w'| |]; try reflexivity.
  replace (Z.of_nat i + 1) with (Z.of_nat (S i)) by lia.
  rewrite IH by lia. rewrite drop_drop.
  replace (80 * i + 80)%nat with (80 * S i)%nat by lia. reflexivity.
Qed.

(** [process] on a file that holds its header and its whole table. *)
Lemma process_table (fuel : nat) (stack : Z) (cfg : config) (hdrb grpb rest : list byte) :
  length hdrb = 12%nat ->
  let magic := le_val (take 4 hdrb) in
  magic = VMSS_MAGIC \/ magic = VMSS_MAGIC_RESTORED \/ magic = VMSS_MAGIC_PARTIAL ->
  let ngroups := le_val (take 4 (drop 8 hdrb)) in
  sizeof_group * ngroups <= stack ->
  Z.of_nat (length grpb) = sizeof_group * ngroups ->
  process fuel stack cfg (opened (hdrb ++ grpb ++ rest))
  = scan_groups fuel cfg (table_entries (Z.to_nat ngroups) grpb)
      (table_read (hdrb ++ grpb ++ rest) ngroups).
Proof.
  intros Hlen magic Hmagic ngroups Hfit Hgrp.
  rewrite (process_header fuel stack cfg hdrb (grpb ++ rest) Hlen Hmagic).
  fold ngroups. rewrite (proj2 (Z.ltb_ge _ _)) by lia.
  set (w1 := moved _ _ _).
  assert (Hav1 : avail w1 = grpb ++ rest).
  { apply (avail_skip (opened (hdrb ++ grpb ++ rest)) hdrb);
      [discriminate | apply avail_opened | rewrite Hlen; reflexivity]. }
  assert (Hn : 0 <= ngroups) by (subst ngroups; apply le_val_range).
  destruct (Z.eq_dec ngroups 0) as [E0|Hn0].
  - rewrite E0. erewrite bind_ok by (apply fread_into_nothing; reflexivity).
    cbv beta iota. reflexivity.
  - erewrite bind_ok; cycle 1.
    { apply (fread_into_full _ w1 sizeof_group ngroups grpb rest);
        [exact Hav1 | exact Hgrp | reflexivity |].
      rewrite length_array_new. unfold sizeof_group, VMSS_GROUP_NAMELEN in *. lia. }
    cbv beta iota. rewrite Z.eqb_refl. cbn [negb].
    unfold array_fill.
    rewrite (for_groups_scan fuel cfg grpb _ (Z.to_nat ngroups) 0)
      by (unfold sizeof_group, VMSS_GROUP_NAMELEN in Hgrp; lia).
    rewrite drop_0. reflexivity.
Qed.

(** X9.  On a file that holds a header with an accepted magic and the
    whole group table, a table that fits the stack, [process] is [setnmi]
    run on the entries whose name is, as a C string, "cpu", one after the
    other in the order of the table, each from the offset its entry gives;
    the other entries and the size field of every entry play no part. *)
Theorem process_scans_cpu_groups (fuel : nat) (stack : Z) (cfg : config)
    (hdrb grpb rest : list byte) :
  length hdrb = 12%nat ->
  let magic := le_val (take 4 hdrb) in
  magic = VMSS_MAGIC \/ magic = VMSS_MAGIC_RESTORED \/ magic = VMSS_MAGIC_PARTIAL ->
  let ngroups := le_val (take 4 (drop 8 hdrb)) in
  sizeof_group * ngroups <= stack ->
  Z.of_nat (length grpb) = sizeof_group * ngroups ->
  process fuel stack cfg (opened (hdrb ++ grpb ++ rest))
  = scan_groups fuel cfg (table_entries (Z.to_nat ngroups) grpb)
      (table_read (hdrb ++ grpb ++ rest) ngroups).
Proof. apply process_table. Qed.

Lemma process_scans_cpu_groups_witness :
  process 3 sample_stack initial_config (opened sample_file)
  = scan_groups 3 initial_config [group_entry "cpu" 92 28]
      (table_read sample_file 1).
Proof.
  apply (process_scans_cpu_groups 3 sample_stack initial_config (header VMSS_MAGIC 8 1)
           (group_entry "cpu" 92 28) sample_stream).
  - reflexivity.
  - left. reflexivity.
  - vm_compute. discriminate.
  - reflexivity.
Defined.

Lemma scan_groups_none fuel cfg (entries : list (list byte)) w :
  forallb (fun gb => negb (is_cpu gb)) entries = true ->
  scan_groups fuel cfg entries w = Ok tt w.
Proof.
  induction entries as [|gb entries IH]; intros H; [reflexivity|].
  cbn [forallb] in H. apply andb_true_iff in H. destruct H as [Hgb H].
  cbn [scan_groups]. apply negb_true_iff in Hgb. rewrite Hgb.
  erewrite bind_ok by reflexivity. apply IH. exact H.
Qed.

(** X10.  A container none of whose groups is named "cpu", with a group
    table that fits the stack, is read up to the end of that table and no
    further: the run returns with status zero whatever the fuel, the file
    as it was, and only the reads of the header and of the table in the
    log. *)
Theorem no_cpu_group_no_scan (fuel : nat) (stack : Z) (cfg : config)
    (hdrb grpb rest : list byte) :
  length hdrb = 12%nat ->
  let magic := le_val (take 4 hdrb) in
  magic = VMSS_MAGIC \/ magic = VMSS_MAGIC_RESTORED \/ magic = VMSS_MAGIC_PARTIAL ->
  let ngroups := le_val (take 4 (drop 8 hdrb)) in
  sizeof_group * ngroups <= stack ->
  Z.of_nat (length grpb) = sizeof_group * ngroups ->
  forallb (fun gb => negb (is_cpu gb)) (table_entries (Z.to_nat ngroups) grpb)
  = true ->
  process fuel stack cfg (opened (hdrb ++ grpb ++ rest))
  = Ok tt {| fdata := hdrb ++ grpb ++ rest;
             fpos := sizeof_header + sizeof_group * ngroups;
             log := [EvRead 0 sizeof_header sizeof_header;
                     EvRead sizeof_header (sizeof_group * ngroups)
                            (sizeof_group * ngroups)] |}.
Proof.
  intros Hlen magic Hmagic ngroups Hfit Hgrp Hnone.
  rewrite (process_table fuel stack cfg hdrb grpb rest Hlen Hmagic Hfit Hgrp).
  rewrite scan_groups_none by exact Hnone. reflexivity.
Qed.

Lemma no_cpu_group_no_scan_witness :
  process 0 sample_stack initial_config
    (opened (header VMSS_MAGIC_RESTORED 8 2
             ++ (group_entry "cpu0" 200 0 ++ group_entry "memory" 300 0)
             ++ [x01]))
  = Ok tt {| fdata := header VMSS_MAGIC_RESTORED 8 2
                      ++ (group_entry "cpu0" 200 0 ++ group_entry "memory" 300 0)
                      ++ [x01];
             fpos := 172;
             log := [EvRead 0 12 12; EvRead 12 160 160] |}.
Proof.
  apply (no_cpu_group_no_scan 0 sample_stack initial_config (header VMSS_MAGIC_RESTORED 8 2)
           (group_entry "cpu0" 200 0 ++ group_entry "memory" 300 0) [x01]).
  - reflexivity.
  - right. left. reflexivity.
  - vm_compute. discriminate.
  - reflexivity.
  - reflexivity.
Defined.

(** *** What a pass may do to the file *)

Lemma turn_effect_moved {A} cfg w n evs (r : result A) :
  (exists a, r = Ok a (moved w n evs)) \/ (exists e, r = Fatal e (moved w n evs)) ->
  0 <= fpos w + n ->
  List.filter is_write evs = [] ->
  turn_effect cfg w r.
Proof.
  intros [[a ->] | [e ->]] Hp Hf; cbn; (split; [exact Hp|]);
    exists evs; (split; [reflexivity|]); left; (split; [reflexivity | exact Hf]).
Qed.

Lemma turn_effect_same {A} cfg w (r : result A) :
  (exists a, r = Ok a w) \/ (exists e, r = Fatal e w) ->
  0 <= fpos w -> turn_effect cfg w r.
Proof.
  intros [[a ->] | [e ->]] Hp; cbn; (split; [exact Hp|]);
    exists []; (split; [symmetry; apply app_nil_r|]); left; split; reflexivity.
Qed.

Lemma skip_block_effect cfg w : 0 <= fpos w -> turn_effect cfg w (skip_block w).
Proof.
  intros Hp.
  destruct (Z_lt_le_dec (Z.of_nat (length (avail w))) 16) as [Hs|Hl].
  { rewrite skip_block_short_block by exact Hs.
    eapply turn_effect_moved; [right; eexists; reflexivity | lia | reflexivity]. }
  destruct (split_at (avail w) 16) as (blkb & r1 & Hav & Hb); [lia|].
  destruct (Z_lt_le_dec (Z.of_nat (length r1)) 2) as [Hs|Hl1].
  { rewrite (skip_block_short_pad w blkb r1) by assumption.
    eapply turn_effect_moved; [right; eexists; reflexivity | lia | reflexivity]. }
  destruct (split_at r1 2) as (padb & rest & Hr1 & Hpad); [lia|]. subst r1.
  rewrite (skip_block_full w blkb padb rest) by assumption. cbv zeta.
  match goal with |- context [if ?c then _ else _] => destruct c eqn:E end.
  - apply andb_true_iff in E. destruct E as [E _]. apply Z.leb_le in E.
    eapply turn_effect_moved; [left; eexists; reflexivity | lia | reflexivity].
  - eapply turn_effect_moved; [right; eexists; reflexivity | lia | reflexivity].
Qed.

Lemma patch_effect cfg size idx0 w :
  0 <= fpos w -> turn_effect cfg w (patch cfg size idx0 w).
Proof.
  intros Hp. destruct (Z.eq_dec size 1) as [->|Hne].
  2: { rewrite patch_wrong_size by exact Hne.
       apply turn_effect_same; [right; eexists; reflexivity | exact Hp]. }
  destruct (avail w) as [|v rest] eqn:Hav.
  { rewrite patch_short by exact Hav.
    eapply turn_effect_moved; [right; eexists; reflexivity | lia | reflexivity]. }
  rewrite (patch_value cfg idx0 w v rest Hp Hav). cbv zeta.
  destruct (idx0 =? to_uint32 (g_cpu cfg)).
  - destruct (fpos w <=? LONG_MAX).
    + cbn. split; [lia|]. eexists. split; [reflexivity|]. right.
      exists (Z.to_nat (fpos w)). split; [eapply avail_cons_lt; exact Hav|].
      split; [reflexivity|]. cbn. rewrite Z2Nat.id by exact Hp. reflexivity.
    + eapply turn_effect_moved; [right; eexists; reflexivity | lia | reflexivity].
  - eapply turn_effect_moved; [left; eexists; reflexivity | lia | reflexivity].
Qed.

Lemma dispatch_effect cfg tag nameb idxb w :
  0 <= fpos w -> turn_effect cfg w (dispatch cfg tag nameb idxb w).
Proof.
  intros Hp. unfold dispatch.
  destruct (VMSS_TAG_ISBLOCK tag); [apply skip_block_effect; exact Hp|].
  case_bool_decide; [apply patch_effect; exact Hp|].
  rewrite bind_seek.
  match goal with |- context [if ?c then _ else _] => destruct c eqn:E end.
  - apply andb_true_iff in E. destruct E as [E _]. apply Z.leb_le in E.
    eapply turn_effect_moved; [left; eexists; reflexivity | lia | reflexivity].
  - apply turn_effect_same; [right; eexists; reflexivity | exact Hp].
Qed.

Lemma turn_effect_head {A} cfg w tag (r : result A) :
  turn_effect cfg (head_read w tag) r -> turn_effect cfg w r.
Proof.
  assert (Hlog : forall evs, log (head_read w tag) ++ evs
            = log w ++ (drop (length (log w)) (log (head_read w tag)) ++ evs)).
  { intros evs. unfold head_read, moved. cbn [log].
    rewrite drop_app_length, <- app_assoc. reflexivity. }
  assert (Hnw : forall evs,
            List.filter is_write
              (drop (length (log w)) (log (head_read w tag)) ++ evs)
            = List.filter is_write evs).
  { intros evs. unfold head_read, moved. cbn [log].
    rewrite drop_app_length. reflexivity. }
  destruct r as [a w'|e w'| |]; cbn; try exact (fun H => H);
    intros (Hp & evs & Hl & H); (split; [exact Hp|]);
    eexists; (split; [rewrite Hl; apply Hlog|]); rewrite Hnw; exact H.
Qed.

Lemma setnmi_iter_effect cfg w :
  0 <= fpos w -> turn_effect cfg w (setnmi_iter cfg w).
Proof.
  intros Hp.
  destruct (Z_lt_le_dec (Z.of_nat (length (avail w))) 2) as [Hs|Hl].
  { rewrite setnmi_iter_short_tag by exact Hs.
    eapply turn_effect_moved; [right; eexists; reflexivity | lia | reflexivity]. }
  destruct (split_at (avail w) 2) as (tagb & r1 & Hav & Htag); [lia|].
  set (tag := le_val tagb).
  pose proof (namelen_range tag) as Rn. pose proof (nindx_range tag) as Ri.
  destruct (Z.eq_dec tag VMSS_TAG_NULL) as [Hz|Hnz].
  { rewrite (setnmi_iter_break cfg w tagb r1) by assumption.
    eapply turn_effect_moved; [left; eexists; reflexivity | lia | reflexivity]. }
  destruct (Z.eq_dec (VMSS_TAG_NAMELEN tag) 0) as [H0|Hn0].
  { rewrite (setnmi_iter_no_name cfg w tagb r1) by assumption.
    eapply turn_effect_moved; [right; eexists; reflexivity | lia | reflexivity]. }
  destruct (Z_lt_le_dec (Z.of_nat (length r1)) (VMSS_TAG_NAMELEN tag)) as [Hs|Hl1].
  { rewrite (setnmi_iter_short_name cfg w tagb r1) by assumption.
    eapply turn_effect_moved; [right; eexists; reflexivity | lia | reflexivity]. }
  destruct (split_at r1 (Z.to_nat (VMSS_TAG_NAMELEN tag)))
    as (nameb & r2 & Hr1 & Hname); [lia|]. subst r1.
  assert (Hname' : Z.of_nat (length nameb) = VMSS_TAG_NAMELEN tag) by lia.
  assert (Hne : nameb <> []) by (intros ->; cbn in Hname'; lia).
  destruct (Z_lt_le_dec (Z.of_nat (length r2)) (sizeof_index * VMSS_TAG_NINDX tag))
    as [Hs|Hl2].
  { rewrite (setnmi_iter_short_index cfg w tagb nameb r2) by assumption.
    cbv zeta. fold tag.
    eapply turn_effect_moved; [right; eexists; reflexivity | lia | reflexivity]. }
  destruct (split_at r2 (Z.to_nat (sizeof_index * VMSS_TAG_NINDX tag)))
    as (idxb & rest & Hr2 & Hidx); [sizes|]. subst r2.
  assert (Hidx' : Z.of_nat (length idxb) = 4 * VMSS_TAG_NINDX tag) by sizes.
  rewrite (setnmi_iter_head cfg w tagb nameb idxb rest) by assumption.
  apply (turn_effect_head cfg w tag). apply dispatch_effect.
  rewrite fpos_head_read. fold tag. sizes.
Qed.

Lemma patched_only_refl b (l : list byte) : patched_only b l l.
Proof. split; [reflexivity | intros i x H; left; exact H]. Qed.

Lemma patched_only_insert b (l : list byte) p :
  patched_only b l (<[p := b]> l).
Proof.
  split; [apply length_insert|]. intros i x H.
  destruct (decide (i = p)) as [->|Hne].
  - right. destruct (decide (p < length l)%nat) as [Hlt|Hge].
    + rewrite list_lookup_insert_eq in H by exact Hlt. congruence.
    + rewrite list_insert_ge in H by lia. apply lookup_lt_Some in H. lia.
  - left. rewrite list_lookup_insert_ne in H by congruence. exact H.
Qed.

Lemma patched_only_trans b (l1 l2 l3 : list byte) :
  patched_only b l1 l2 -> patched_only b l2 l3 -> patched_only b l1 l3.
Proof.
  intros [H1 K1] [H2 K2]. split; [congruence|]. intros i x H.
  destruct (K2 i x H) as [H' | ->]; [apply K1; exact H' | right; reflexivity].
Qed.

Lemma pass_effect_refl cfg w : pass_effect cfg w w.
Proof.
  split; [apply patched_only_refl|]. exists [].
  split; [symmetry; apply app_nil_r | constructor].
Qed.

Lemma pass_effect_trans cfg w1 w2 w3 :
  pass_effect cfg w1 w2 -> pass_effect cfg w2 w3 -> pass_effect cfg w1 w3.
Proof.
  intros [P1 (e1 & L1 & F1)] [P2 (e2 & L2 & F2)].
  split; [eapply patched_only_trans; eassumption|].
  exists (e1 ++ e2). split; [rewrite L2, L1, app_assoc; reflexivity|].
  apply Forall_app. split; [exact F1|].
  destruct P1 as [Hlen _]. rewrite <- Hlen. exact F2.
Qed.

Lemma turn_effect_pass {A} cfg w (r : result A) :
  turn_effect cfg w r ->
  match r with
  | Ok _ w' | Fatal _ w' => 0 <= fpos w' /\ pass_effect cfg w w'
  | _ => False
  end.
Proof.
  assert (Hcore : forall w', 
    (0 <= fpos w' /\ exists evs, log w' = log w ++ evs
       /\ ((fdata w' = fdata w /\ List.filter is_write evs = [])
           \/ exists p, (p < length (fdata w))%nat
                /\ fdata w' = <[p := g_nmi cfg]> (fdata w)
                /\ List.filter is_write evs = [EvWrite (Z.of_nat p) [g_nmi cfg]]))
    -> 0 <= fpos w' /\ pass_effect cfg w w').
  { intros w' (Hp & evs & Hl & H). split; [exact Hp|].
    destruct H as [[Hd Hf]|(p & Hlt & Hd & Hf)].
    - split; [rewrite Hd; apply patched_only_refl|].
      exists evs. split; [exact Hl|]. apply Forall_forall. intros e Hin Hw.
      assert (Hin' : In e (List.filter is_write evs))
        by (apply List.filter_In; split; [apply list_elem_of_In, Hin | exact Hw]).
      rewrite Hf in Hin'. destruct Hin'.
    - split; [rewrite Hd; apply patched_only_insert|].
      exists evs. split; [exact Hl|]. apply Forall_forall. intros e Hin Hw.
      assert (Hin' : In e (List.filter is_write evs))
        by (apply List.filter_In; split; [apply list_elem_of_In, Hin | exact Hw]).
      rewrite Hf in Hin'. destruct Hin' as [<-|[]].
      exists p. split; [exact Hlt | reflexivity]. }
  destruct r; cbn; try exact (fun H => H); apply Hcore.
Qed.

Lemma scans_effect cfg n w w' :
  scans cfg n w w' -> 0 <= fpos w -> 0 <= fpos w' /\ pass_effect cfg w w'.
Proof.
  induction 1 as [w | n w w1 w2 Hstep _ IH]; intros Hp.
  - split; [exact Hp | apply pass_effect_refl].
  - pose proof (turn_effect_pass cfg w _ (setnmi_iter_effect cfg w Hp)) as H1.
    rewrite Hstep in H1. destruct H1 as [Hp1 H1].
    destruct (IH Hp1) as [Hp2 H2]. split; [exact Hp2|].
    eapply pass_effect_trans; eassumption.
Qed.

Lemma setnmi_loop_effect cfg fuel : forall w,
  0 <= fpos w ->
  match setnmi_loop fuel cfg w with
  | Ok _ w' | Fatal _ w' => pass_effect cfg w w'
  | Undefined => False
  | OutOfFuel => True
  end.
Proof.
  induction fuel as [|fuel IH]; intros w Hp; [exact I|].
  pose proof (turn_effect_pass cfg w _ (setnmi_iter_effect cfg w Hp)) as H1.
  destruct (setnmi_iter cfg w) as [c w1|e w1| |] eqn:E; try contradiction.
  - destruct H1 as [Hp1 H1]. destruct c.
    + rewrite (setnmi_loop_continue _ _ _ _ E).
      specialize (IH w1 Hp1).
      destruct (setnmi_loop fuel cfg w1); try exact IH;
        eapply pass_effect_trans; eassumption.
    + rewrite (setnmi_loop_break _ _ _ _ E). exact H1.
  - rewrite (setnmi_loop_fatal _ _ _ _ _ E). apply H1.
Qed.

(** X11.  Whatever bytes the file holds and whatever the configuration,
    a pass of the loop of [setnmi] changes the file only by writing the
    one byte [g_nmi] over bytes it has: after any number of turns, and
    when the loop has returned or ended the run, the file has the length
    it had, each of its bytes is the byte that was there or [g_nmi], and
    every write in the log is a one-byte write of [g_nmi] at an offset
    inside the file. *)
Theorem pass_only_patches (cfg : config) (w : world) :
  0 <= fpos w ->
  (forall n w', scans cfg n w w' -> pass_effect cfg w w')
  /\ (forall fuel,
        match setnmi_loop fuel cfg w with
        | Ok _ w' | Fatal _ w' => pass_effect cfg w w'
        | _ => True
        end).
Proof.
  intros Hp. split.
  - intros n w' Hs. apply (scans_effect cfg n w w' Hs Hp).
  - intros fuel. pose proof (setnmi_loop_effect cfg fuel w Hp) as H.
    destruct (setnmi_loop fuel cfg w); (exact H || exact I).
Qed.

Lemma pass_only_patches_witness :
  exists w',
    setnmi_loop 3 initial_config (opened sample_stream) = Ok tt w'
    /\ pass_effect initial_config (opened sample_stream) w'.
Proof.
  eexists. split; [vm_compute; reflexivity|].
  exact (proj2 (pass_only_patches initial_config (opened sample_stream)
                  ltac:(discriminate)) 3%nat).
Defined.

(** *** The whole run *)

Lemma pass_effect_reads cfg w w' :
  fdata w' = fdata w ->
  (exists evs, log w' = log w ++ evs
               /\ forallb (fun e => negb (is_write e)) evs = true) ->
  pass_effect cfg w w'.
Proof.
  intros Hd (evs & Hl & Hf). split; [rewrite Hd; apply patched_only_refl|].
  exists evs. split; [exact Hl|]. apply Forall_forall. intros e Hin Hw.
  rewrite forallb_forall in Hf. specialize (Hf e (proj1 (list_elem_of_In _ _) Hin)).
  rewrite Hw in Hf. discriminate Hf.
Qed.

Lemma setnmi_effect fuel cfg grp w :
  match setnmi fuel cfg grp w with
  | Ok _ w' | Fatal _ w' => pass_effect cfg w w'
  | Undefined => False
  | OutOfFuel => True
  end.
Proof.
  unfold setnmi, mbind, M_bind, bind, fseek.
  destruct ((0 <=? to_long (vmss_group_offs grp))
            && (to_long (vmss_group_offs grp) <=? LONG_MAX)) eqn:E.
  - change (0 =? -1) with false. cbv iota.
    apply andb_true_iff in E. destruct E as [E _]. apply Z.leb_le in E.
    exact (setnmi_loop_effect cfg fuel
             {| fdata := fdata w; fpos := to_long (vmss_group_offs grp);
                log := log w |} E).
  - change (-1 =? -1) with true. cbv iota. apply pass_effect_refl.
Qed.

Lemma scan_groups_effect fuel cfg (entries : list (list byte)) : forall w,
  match scan_groups fuel cfg entries w with
  | Ok _ w' | Fatal _ w' => pass_effect cfg w w'
  | Undefined => False
  | OutOfFuel => True
  end.
Proof.
  induction entries as [|gb entries IH]; intros w; [apply pass_effect_refl|].
  cbn [scan_groups]. unfold mbind, M_bind, bind.
  assert (H1 : match (if is_cpu gb then setnmi fuel cfg (parse_group gb)
                      else ret tt) w with
               | Ok _ w' | Fatal _ w' => pass_effect cfg w w'
               | Undefined => False
               | OutOfFuel => True
               end).
  { destruct (is_cpu gb); [apply setnmi_effect | apply pass_effect_refl]. }
  destruct ((if is_cpu gb then setnmi fuel cfg (parse_group gb) else ret tt) w)
    as [[] w1|e w1| |]; try exact H1.
  specialize (IH w1).
  destruct (scan_groups fuel cfg entries w1); try exact IH;
    eapply pass_effect_trans; eassumption.
Qed.

Lemma process_bad_magic (fuel : nat) (stack : Z) (cfg : config) (hdrb rest : list byte) :
  length hdrb = 12%nat ->
  let magic := le_val (take 4 hdrb) in
  magic <> VMSS_MAGIC -> magic <> VMSS_MAGIC_RESTORED ->
  magic <> VMSS_MAGIC_PARTIAL ->
  exists m, process fuel stack cfg (opened (hdrb ++ rest))
            = Fatal m (moved (opened (hdrb ++ rest)) sizeof_header
                         [EvRead 0 sizeof_header sizeof_header]).
Proof.
  intros Hlen magic H1 H2 H3. unfold process.
  erewrite bind_ok; cycle 1.
  { apply (fread_into_full _ (opened (hdrb ++ rest)) sizeof_header 1 hdrb rest);
      [apply avail_opened | rewrite Hlen; reflexivity | reflexivity | sizes]. }
  cbv beta iota. change (negb (1 =? 1)) with false. cbv iota.
  unfold array_fill.
  erewrite bind_ok by (apply load_stored; rewrite ?Hlen; lia).
  change (Z.to_nat 0) with 0%nat. change (Z.to_nat 4) with 4%nat.
  rewrite drop_0. fold magic.
  destruct (magic =? VMSS_MAGIC_OLD); [eexists; reflexivity|].
  rewrite (proj2 (Z.eqb_neq _ _) H1), (proj2 (Z.eqb_neq _ _) H2),
    (proj2 (Z.eqb_neq _ _) H3).
  eexists; reflexivity.
Qed.

Lemma process_effect fuel stack cfg (data : list byte) :
  match process fuel stack cfg (opened data) with
  | Ok _ w' | Fatal _ w' => pass_effect cfg (opened data) w'
  | _ => True
  end.
Proof.
  destruct (Z_lt_le_dec (Z.of_nat (length data)) sizeof_header) as [Hs|Hl].
  { rewrite process_short_header by exact Hs.
    apply pass_effect_reads; [reflexivity | eexists; split; reflexivity]. }
  destruct (split_at data 12) as (hdrb & r0 & -> & Hlen); [sizes|].
  set (magic := le_val (take 4 hdrb)).
  destruct (Z.eq_dec magic VMSS_MAGIC) as [E1|N1];
    [|destruct (Z.eq_dec magic VMSS_MAGIC_RESTORED) as [E2|N2];
      [|destruct (Z.eq_dec magic VMSS_MAGIC_PARTIAL) as [E3|N3]]].
  4: { destruct (process_bad_magic fuel stack cfg hdrb r0 Hlen N1 N2 N3) as (m & ->).
       apply pass_effect_reads; [reflexivity | eexists; split; reflexivity]. }
  all: assert (Hmagic : magic = VMSS_MAGIC \/ magic = VMSS_MAGIC_RESTORED
                        \/ magic = VMSS_MAGIC_PARTIAL) by tauto.
  all: set (ngroups := le_val (take 4 (drop 8 hdrb)));
       assert (Hn : 0 <= ngroups) by (subst ngroups; apply le_val_range);
       destruct (Z_lt_le_dec stack (sizeof_group * ngroups)) as [Hbig|Hfit];
       [ rewrite (process_header fuel stack cfg hdrb r0 Hlen Hmagic);
         fold ngroups; rewrite (proj2 (Z.ltb_lt _ _)) by lia; exact I |];
       destruct (Z_lt_le_dec (Z.of_nat (length r0)) (sizeof_group * ngroups))
         as [Hs|Hl0];
       [ rewrite (process_short_table fuel stack cfg hdrb r0 Hlen Hmagic Hfit Hs);
         apply pass_effect_reads; [reflexivity | eexists; split; reflexivity]
       | destruct (split_at r0 (Z.to_nat (sizeof_group * ngroups)))
           as (grpb & rest & -> & Hg); [lia|];
         rewrite (process_table fuel stack cfg hdrb grpb rest Hlen Hmagic Hfit)
           by (fold ngroups; unfold sizeof_group, VMSS_GROUP_NAMELEN in *; lia);
         fold ngroups;
         pose proof (scan_groups_effect fuel cfg
                       (table_entries (Z.to_nat ngroups) grpb)
                       (table_read (hdrb ++ grpb ++ rest) ngroups)) as Hsc;
         assert (Hrd : pass_effect cfg (opened (hdrb ++ grpb ++ rest))
                         (table_read (hdrb ++ grpb ++ rest) ngroups))
           by (apply pass_effect_reads;
               [reflexivity | eexists; split; reflexivity]);
         destruct (scan_groups fuel cfg _ _); try exact Hsc; try exact I;
         eapply pass_effect_trans; eassumption ].
Qed.

(** What the option loop gives: a configuration and the world it was
    started in, or a usage error in that world. *)
Lemma getopt_loop_outcome (opts : list opt) : forall cfg w,
  (g_cpu cfg = -1 \/ 0 <= g_cpu cfg < 2 ^ 31) ->
  match getopt_loop cfg opts w with
  | Ok cfg' w' =>
      w' = w
      /\ (g_cpu cfg' = -1 \/ 0 <= g_cpu cfg' < 2 ^ 31)
      /\ g_nmi cfg' = (if has_z opts then x00 else g_nmi cfg)
  | Fatal e w' => w' = w /\ class_of e = UsageError
  | _ => False
  end.
Proof.
  induction opts as [|c opts IH]; intros cfg w Hcpu.
  - cbn. auto.
  - cbn [getopt_loop]. unfold mbind, M_bind, bind.
    destruct c; cbn [getopt_case].
    + destruct (negb at_end || (to_int value <? 0)) eqn:E.
      * cbn. auto.
      * unfold ret. apply orb_false_iff in E. destruct E as [_ E].
        apply Z.ltb_ge in E. pose proof (to_int_range value).
        exact (IH {| g_verbose := g_verbose cfg; g_cpu := to_int value;
                     g_nmi := g_nmi cfg |} w ltac:(right; cbn; lia)).
    + exact (IH {| g_verbose := g_verbose cfg; g_cpu := -1;
                   g_nmi := g_nmi cfg |} w ltac:(left; reflexivity)).
    + exact (IH {| g_verbose := 1; g_cpu := g_cpu cfg;
                   g_nmi := g_nmi cfg |} w Hcpu).
    + unfold ret.
      specialize (IH {| g_verbose := g_verbose cfg; g_cpu := g_cpu cfg;
                        g_nmi := x00 |} w Hcpu).
      destruct (getopt_loop _ opts w); try exact IH.
      destruct IH as (Hw & Hc & Hn). split; [exact Hw|]. split; [exact Hc|].
      rewrite Hn. cbn. destruct (has_z opts); reflexivity.
    + cbn. auto.
Qed.

(** X12.  Whatever the options and whatever bytes the file holds, a run
    of the program that returns or ends by [fatal] leaves a file of the
    same length in which each byte is the byte that was there, or 1, or
    0 when [-z] was given; every write it made is a write of that one
    byte at an offset inside the file.  (Nothing is said of a run that
    [alloca] ends because the group table does not fit the stack.) *)
Theorem run_only_patches (fuel : nat) (stack : Z) (opts : list opt) (data : list byte) :
  match main fuel stack opts (opened data) with
  | Ok _ w' | Fatal _ w' =>
      let b := if has_z opts then x00 else x01 in
      patched_only b data (fdata w')
      /\ Forall (fun e => is_write e = true -> byte_write b (length data) e)
                (log w')
  | _ => True
  end.
Proof.
  unfold main, mbind, M_bind, bind.
  pose proof (getopt_loop_outcome opts initial_config (opened data)
                ltac:(right; cbn; lia)) as Ho.
  destruct (getopt_loop initial_config opts (opened data)) as [cfg w1|e w1| |];
    try exact I.
  - destruct Ho as (-> & _ & Hn). cbn [g_nmi initial_config] in Hn.
    pose proof (process_effect fuel stack cfg data) as Hp.
    destruct (process fuel stack cfg (opened data)) as [u w2|e w2| |]; try exact I;
      destruct Hp as (Hpo & evs & Hl & Hf); cbv zeta; rewrite <- Hn;
      (split; [exact Hpo|]); rewrite Hl; exact Hf.
  - destruct Ho as (-> & _). cbv zeta. split; [apply patched_only_refl|].
    constructor.
Qed.

(** *** The options *)

(** X13.  The option loop never touches the file.  When it accepts the
    options, [g_cpu] is -1 or a number from 0 to 2^31 - 1, and [g_nmi] is
    0 if [-z] is among the options and 1 if not; when it rejects them the
    run ends with a usage error. *)
Theorem options_leave_valid_config (opts : list opt) (w : world) :
  match getopt_loop initial_config opts w with
  | Ok cfg w' =>
      w' = w
      /\ (g_cpu cfg = -1 \/ 0 <= g_cpu cfg < 2 ^ 31)
      /\ g_nmi cfg = (if has_z opts then x00 else x01)
  | Fatal e w' => w' = w /\ class_of e = UsageError
  | _ => False
  end.
Proof.
  apply (getopt_loop_outcome opts initial_config w). right. cbn. lia.
Qed.

Lemma cpu_option_case (cfg : config) (value : Z) (at_end : bool) (w : world) :
  getopt_case cfg (opt_c value at_end) w =
  if at_end && (value mod 2 ^ 32 <? 2 ^ 31)
  then Ok {| g_verbose := g_verbose cfg; g_cpu := value mod 2 ^ 32;
             g_nmi := g_nmi cfg |} w
  else Fatal invalid_cpu w.
Proof.
  cbn [getopt_case]. unfold to_int, to_signed. change (32 - 1) with 31.
  pose proof (Z.mod_pos_bound value (2 ^ 32) ltac:(lia)) as R.
  destruct at_end; cbn [negb orb andb]; [|reflexivity].
  destruct (Z.ltb_spec (value mod 2 ^ 32) (2 ^ 31)).
  - rewrite (proj2 (Z.ltb_ge _ 0)) by lia. reflexivity.
  - rewrite (proj2 (Z.ltb_lt _ 0)) by lia. reflexivity.
Qed.

(** X14.  The number given with [-c] is taken modulo 2^32: the option is
    accepted when the whole argument was a number and the residue is
    below 2^31, and the CPU then asked for is the residue (so 2^32 asks
    for CPU 0); in every other case the run ends with the message of an
    invalid CPU. *)
Theorem cpu_option_is_truncated (cfg : config) (value : Z) (at_end : bool)
    (w : world) :
  getopt_case cfg (opt_c value at_end) w =
  if at_end && (value mod 2 ^ 32 <? 2 ^ 31)
  then Ok {| g_verbose := g_verbose cfg; g_cpu := value mod 2 ^ 32;
             g_nmi := g_nmi cfg |} w
  else Fatal invalid_cpu w.
Proof. apply cpu_option_case. Qed.

Lemma getopt_loop_app (a b : list opt) : forall cfg w,
  getopt_loop cfg (a ++ b) w
  = match getopt_loop cfg a w with
    | Ok cfg' w' => getopt_loop cfg' b w'
    | Fatal e w' => Fatal e w'
    | Undefined => Undefined
    | OutOfFuel => OutOfFuel
    end.
Proof.
  induction a as [|c a IH]; intros cfg w; [reflexivity|].
  cbn [app getopt_loop]. unfold mbind, M_bind, bind.
  destruct (getopt_case cfg c w); try reflexivity. apply IH.
Qed.

Lemma getopt_loop_keeps_cpu (opts : list opt) : forall cfg cfg' w w',
  forallb (fun c => match c with opt_v | opt_z => true | _ => false end) opts
  = true ->
  getopt_loop cfg opts w = Ok cfg' w' -> g_cpu cfg' = g_cpu cfg.
Proof.
  induction opts as [|c opts IH]; intros cfg cfg' w w' Hall Hrun.
  - cbn [getopt_loop] in Hrun. unfold ret in Hrun. injection Hrun as <- _.
    reflexivity.
  - cbn [forallb] in Hall. apply andb_true_iff in Hall. destruct Hall as [Hc Hall].
    cbn [getopt_loop] in Hrun. unfold mbind, M_bind, bind in Hrun.
    destruct c; try discriminate Hc; cbn [getopt_case] in Hrun; unfold ret in Hrun;
      apply (IH _ _ _ _ Hall) in Hrun; exact Hrun.
Qed.

(** X15.  Of [-n] and [-c] the one given last decides: when the options
    are accepted and only [-v] and [-z] follow it, [g_cpu] is -1 after a
    final [-n], also when a [-c] came before it, and is the CPU of a final
    [-c], also when [-n] came before it. *)
Theorem last_mode_option_wins (before after : list opt) (c : opt)
    (cfg : config) (w w' : world) :
  forallb (fun c => match c with opt_v | opt_z => true | _ => false end) after
  = true ->
  getopt_loop initial_config (before ++ c :: after) w = Ok cfg w' ->
  match c with
  | opt_n => g_cpu cfg = -1
  | opt_c value _ => g_cpu cfg = value mod 2 ^ 32
  | _ => True
  end.
Proof.
  intros Hafter Hrun. rewrite getopt_loop_app in Hrun.
  destruct (getopt_loop initial_config before w) as [cfg1 w1|e w1| |];
    try discriminate Hrun.
  cbn [getopt_loop] in Hrun. unfold mbind, M_bind, bind in Hrun.
  destruct c; try exact I.
  - rewrite cpu_option_case in Hrun.
    destruct (at_end && (value mod 2 ^ 32 <? 2 ^ 31)); [|discriminate Hrun].
    apply (getopt_loop_keeps_cpu _ _ _ _ _ Hafter) in Hrun. exact Hrun.
  - cbn [getopt_case] in Hrun. unfold ret in Hrun.
    apply (getopt_loop_keeps_cpu _ _ _ _ _ Hafter) in Hrun. exact Hrun.
Qed.

Lemma last_mode_option_wins_witness :
  exists cfg, getopt_loop initial_config ([opt_n] ++ opt_c 3 true :: [opt_z])
                (opened sample_file) = Ok cfg (opened sample_file)
              /\ g_cpu cfg = 3.
Proof.
  eexists. split; [reflexivity|].
  apply (last_mode_option_wins [opt_n] [opt_z] (opt_c 3 true) _
           (opened sample_file) (opened sample_file)); reflexivity.
Defined.

(** *** pendingNMI records *)

(** X16.  A record named pendingNMI that carries no index is taken for
    CPU 0, the zero that [bzero] left in [idx[0]]: a run without [-c] and
    [-n], or with [-c 0], overwrites its value with [g_nmi] and reports
    CPU 0. *)
Theorem no_index_means_cpu0 (cfg : config) (w : world)
    (tagb nameb : list byte) (v : byte) (rest : list byte) :
  g_cpu cfg = 0 ->
  0 <= fpos w ->
  Z.of_nat (length (fdata w)) <= LONG_MAX ->
  avail w = tagb ++ nameb ++ v :: rest ->
  length tagb = 2%nat ->
  let tag := le_val tagb in
  Z.of_nat (length nameb) = VMSS_TAG_NAMELEN tag ->
  VMSS_TAG_NINDX tag = 0 ->
  cstring nameb = pendingNMI ->
  VMSS_TAG_VALSIZE tag = 1 ->
  let p := fpos w + sizeof_tag + VMSS_TAG_NAMELEN tag in
  setnmi_iter cfg w =
  Ok Continue
    {| fdata := <[Z.to_nat p := g_nmi cfg]> (fdata w);
       fpos := p + 1;
       log := log w ++
         [EvRead (fpos w) sizeof_tag sizeof_tag;
          EvRead (fpos w + sizeof_tag) (VMSS_TAG_NAMELEN tag) (VMSS_TAG_NAMELEN tag);
          EvRead p 0 0;
          EvRead p 1 1;
          EvWarn (pendingNMI_setting 0 (byte_val v) (byte_val (g_nmi cfg)));
          EvWrite p [g_nmi cfg]] |}.
Proof.
  intros Hcpu Hp Hsize Hav Htag tag Hname Hn0 Hc Hsz p.
  destruct (setnmi_iter_target cfg w tagb nameb [] v rest Hp Hsize Hav Htag Hname)
    as [_ Hrun]; [fold tag; rewrite Hn0; reflexivity | exact Hc | exact Hsz |].
  fold tag in Hrun. cbv zeta in Hrun. unfold head_read in Hrun.
  cbv zeta in Hrun. rewrite Hcpu, !Hn0 in Hrun.
  replace (fpos w + sizeof_tag + VMSS_TAG_NAMELEN tag + sizeof_index * 0)
    with p in Hrun by (subst p; lia).
  change (index_at [] 0 =? to_uint32 0) with true in Hrun. cbv iota in Hrun.
  change (index_at [] 0) with 0 in Hrun.
  rewrite Hrun. unfold moved. cbn [log]. rewrite <- app_assoc. reflexivity.
Qed.

Lemma no_index_means_cpu0_witness :
  setnmi_iter initial_config
    (opened (inline_record pendingNMI [] [x00] ++ terminator))
  = Ok Continue
      {| fdata := inline_record pendingNMI [] [x01] ++ terminator; fpos := 13;
         log := [EvRead 0 2 2; EvRead 2 10 10; EvRead 12 0 0; EvRead 12 1 1;
                 EvWarn (pendingNMI_setting 0 0 1); EvWrite 12 [x01]] |}.
Proof.
  apply (no_index_means_cpu0 initial_config
           (opened (inline_record pendingNMI [] [x00] ++ terminator))
           [byte_of 0x01; byte_of 0x0a] pendingNMI x00 terminator).
  - reflexivity.
  - discriminate.
  - vm_compute. discriminate.
  - reflexivity.
  - reflexivity.
  - reflexivity.
  - reflexivity.
  - reflexivity.
  - reflexivity.
Defined.

(** X17.  After [-n] the turn at a record named pendingNMI with a value
    of one byte, whose [idx[0]] is not 4294967295, reads the value,
    reports the CPU and the value, writes nothing and goes on behind the
    value with the file as it was. *)
Theorem query_turn_reports_only (cfg : config) (w : world)
    (tagb nameb idxb : list byte) (v : byte) (rest : list byte) :
  g_cpu cfg = -1 ->
  0 <= fpos w ->
  Z.of_nat (length (fdata w)) <= LONG_MAX ->
  avail w = tagb ++ nameb ++ idxb ++ v :: rest ->
  length tagb = 2%nat ->
  let tag := le_val tagb in
  Z.of_nat (length nameb) = VMSS_TAG_NAMELEN tag ->
  Z.of_nat (length idxb) = sizeof_index * VMSS_TAG_NINDX tag ->
  cstring nameb = pendingNMI ->
  VMSS_TAG_VALSIZE tag = 1 ->
  index_at idxb 0 <> 2 ^ 32 - 1 ->
  let p := fpos w + sizeof_tag + VMSS_TAG_NAMELEN tag
           + sizeof_index * VMSS_TAG_NINDX tag in
  setnmi_iter cfg w =
  Ok Continue
    {| fdata := fdata w; fpos := p + 1;
       log := log (head_read w tag) ++
              [EvRead p 1 1;
               EvWarn (pendingNMI_is (index_at idxb 0) (byte_val v))] |}.
Proof.
  intros Hq Hp Hsize Hav Htag tag Hname Hidx Hc Hsz Hmax p.
  destruct (setnmi_iter_target cfg w tagb nameb idxb v rest
              Hp Hsize Hav Htag Hname Hidx Hc Hsz) as [_ Hrun].
  fold tag p in Hrun. cbv zeta in Hrun. rewrite Hrun, Hq.
  change (to_uint32 (-1)) with (2 ^ 32 - 1).
  rewrite (proj2 (Z.eqb_neq _ _) Hmax). reflexivity.
Qed.

Lemma query_turn_reports_only_witness :
  setnmi_iter {| g_verbose := 0; g_cpu := -1; g_nmi := x01 |}
    {| fdata := sample_stream; fpos := 9; log := [] |}
  = Ok Continue
      {| fdata := sample_stream; fpos := 26;
         log := [EvRead 9 2 2; EvRead 11 10 10; EvRead 21 4 4; EvRead 25 1 1;
                 EvWarn (pendingNMI_is 0 0)] |}.
Proof.
  apply (query_turn_reports_only {| g_verbose := 0; g_cpu := -1; g_nmi := x01 |}
           {| fdata := sample_stream; fpos := 9; log := [] |}
           [byte_of 0x41; byte_of 0x0a] pendingNMI [x00; x00; x00; x00]
           x00 terminator).
  - reflexivity.
  - discriminate.
  - vm_compute. discriminate.
  - reflexivity.
  - reflexivity.
  - reflexivity.
  - reflexivity.
  - reflexivity.
  - reflexivity.
  - discriminate.
Defined.

(** *** A pass over a well-formed stream *)

Lemma insert_behind (pre : list byte) (x y : byte) (post : list byte) :
  <[length pre := x]> (pre ++ y :: post) = pre ++ x :: post.
Proof.
  rewrite <- (Nat.add_0_r (length pre)), insert_app_r. reflexivity.
Qed.

(** The turn at the bytes of a well-formed record that lie in the file
    behind [pre]. *)
Lemma passed_turn cfg (c c' : list byte) :
  passed cfg c c' -> forall w pre rest,
  fdata w = pre ++ c ++ rest ->
  fpos w = Z.of_nat (length pre) ->
  Z.of_nat (length (fdata w)) <= LONG_MAX ->
  length c' = length c
  /\ exists evs, setnmi_iter cfg w
       = Ok Continue {| fdata := pre ++ c' ++ rest;
                        fpos := Z.of_nat (length pre) + Z.of_nat (length c);
                        log := log w ++ evs |}.
Proof.
  intros Hc w pre rest Hd Hpos Hsize.
  assert (Hp : 0 <= fpos w) by lia.
  assert (Hav : avail w = c ++ rest).
  { unfold avail. rewrite Hd, Hpos, Nat2Z.id. apply drop_app_length. }
  destruct Hc as [c Hskip | tagb nameb idxb v Htag Hname Hidx Hn Hsz].
  - split; [reflexivity|].
    destruct (skippable_turn cfg c Hskip w rest Hp Hav) as (evs & _ & Hrun).
    { rewrite Hd, !length_app in Hsize. lia. }
    exists evs. rewrite Hrun. unfold moved. rewrite Hd, Hpos. reflexivity.
  - split; [rewrite !length_app; reflexivity|].
    rewrite <- !app_assoc in Hav. cbn [app] in Hav.
    destruct (setnmi_iter_target cfg w tagb nameb idxb v rest
                Hp Hsize Hav Htag Hname Hidx Hn Hsz) as [_ Hrun].
    cbv zeta in Hrun.
    pose proof (namelen_range (le_val tagb)) as Rn.
    pose proof (nindx_range (le_val tagb)) as Ri.
    set (p := fpos w + sizeof_tag + VMSS_TAG_NAMELEN (le_val tagb)
              + sizeof_index * VMSS_TAG_NINDX (le_val tagb)) in *.
    assert (Hpn : Z.to_nat p = length (pre ++ tagb ++ nameb ++ idxb)).
    { rewrite !length_app. subst p. sizes. }
    assert (Hend : p + 1 = Z.of_nat (length pre)
                           + Z.of_nat (length (tagb ++ nameb ++ idxb ++ [v]))).
    { rewrite !length_app. cbn [length]. subst p. sizes. }
    assert (Hins : forall x, <[Z.to_nat p := x]> (fdata w)
                             = pre ++ (tagb ++ nameb ++ idxb ++ [x]) ++ rest).
    { intros x. rewrite Hpn, Hd.
      replace (pre ++ (tagb ++ nameb ++ idxb ++ [v]) ++ rest)
        with ((pre ++ tagb ++ nameb ++ idxb) ++ v :: rest)
        by (rewrite <- !app_assoc; reflexivity).
      rewrite insert_behind, <- !app_assoc. reflexivity. }
    destruct (index_at idxb 0 =? to_uint32 (g_cpu cfg)).
    + eexists. rewrite Hrun, Hins, Hend.
      unfold head_read, moved. cbn [log]. apply f_equal, world_ext;
        [reflexivity | rewrite <- app_assoc; reflexivity].
    + eexists. rewrite Hrun, Hd, Hend.
      unfold head_read, moved. cbn [log]. apply f_equal, world_ext;
        [reflexivity | rewrite <- app_assoc; reflexivity].
Qed.

(** X18.  A pass over a well-formed stream does what the program is for.
    When the bytes from the cursor on are records, each one that the loop
    passes over or a record named pendingNMI with a value of one byte, and
    then the terminator, the loop returns, given fuel for one turn per
    record and one more, with the cursor behind the terminator, and the
    file is what it was except that the value of every pendingNMI record
    whose [idx[0]] compares equal to [g_cpu] is now [g_nmi]. *)
Theorem stream_is_patched (cfg : config) (chunks chunks' : list (list byte)) :
  Forall2 (passed cfg) chunks chunks' ->
  forall (w : world) (pre tagz rest : list byte),
  fdata w = pre ++ concat chunks ++ tagz ++ rest ->
  fpos w = Z.of_nat (length pre) ->
  length tagz = 2%nat ->
  le_val tagz = VMSS_TAG_NULL ->
  Z.of_nat (length (fdata w)) <= LONG_MAX ->
  exists evs, forall fuel, (length chunks < fuel)%nat ->
    setnmi_loop fuel cfg w
    = Ok tt {| fdata := pre ++ concat chunks' ++ tagz ++ rest;
               fpos := Z.of_nat (length pre)
                       + Z.of_nat (length (concat chunks)) + 2;
               log := log w ++ evs |}.
Proof.
  induction 1 as [|c c' cs cs' Hc _ IH]; intros w pre tagz rest Hd Hpos Htag Hz Hsize.
  - cbn [concat app] in *. exists [EvRead (fpos w) 2 2].
    intros fuel Hf. destruct fuel as [|fuel]; [cbn in Hf; lia|].
    apply setnmi_loop_break.
    rewrite (setnmi_iter_break cfg w tagz rest); [| | exact Htag | exact Hz].
    + unfold moved. rewrite Hd, Hpos. f_equal. cbn [length].
      apply world_ext; [lia | reflexivity].
    + unfold avail. rewrite Hd, Hpos, Nat2Z.id. apply drop_app_length.
  - cbn [concat] in Hd. rewrite <- app_assoc in Hd.
    destruct (passed_turn cfg c c' Hc w pre _ Hd Hpos Hsize) as (Hlen & evs1 & Hturn).
    set (w1 := {| fdata := pre ++ c' ++ concat cs ++ tagz ++ rest;
                  fpos := Z.of_nat (length pre) + Z.of_nat (length c);
                  log := log w ++ evs1 |}) in *.
    destruct (IH w1 (pre ++ c') tagz rest) as (evs2 & Hloop).
    + cbn [fdata w1]. rewrite <- app_assoc. reflexivity.
    + cbn [fpos w1]. rewrite length_app, Hlen. lia.
    + exact Htag.
    + exact Hz.
    + cbn [fdata w1]. rewrite Hd in Hsize. rewrite !length_app in *. lia.
    + exists (evs1 ++ evs2). intros fuel Hf.
      destruct fuel as [|fuel]; [cbn in Hf; lia|].
      rewrite (setnmi_loop_continue _ _ _ _ Hturn).
      rewrite Hloop by (cbn [length] in Hf; lia).
      cbn [concat log w1]. f_equal.
      rewrite <- !app_assoc. apply f_equal3; [reflexivity | | reflexivity].
      rewrite !length_app, Hlen. lia.
Qed.

Lemma stream_is_patched_witness :
  exists evs, forall fuel, (2 < fuel)%nat ->
    setnmi_loop fuel initial_config
      {| fdata := sample_file; fpos := 92; log := [] |}
    = Ok tt {| fdata := <[117%nat := x01]> sample_file; fpos := 120;
               log := [] ++ evs |}.
Proof.
  apply (stream_is_patched initial_config
           [take 9 sample_stream; take 17 (drop 9 sample_stream)]
           [take 9 sample_stream; take 16 (drop 9 sample_stream) ++ [x01]]
           ltac:(
             constructor;
             [ apply passed_over;
               apply (skippable_inline [byte_of 0x04; byte_of 0x03]
                        (list_byte_of_string "foo") [] [x01; x02; x03; x04]);
               try reflexivity; discriminate
             | constructor; [|constructor];
               apply (passed_target initial_config
                        [byte_of 0x41; byte_of 0x0a] pendingNMI
                        [x00; x00; x00; x00] x00); reflexivity ])
           {| fdata := sample_file; fpos := 92; log := [] |}
           (take 92 sample_file) [x00; x00] []).
  - reflexivity.
  - reflexivity.
  - reflexivity.
  - reflexivity.
  - vm_compute. discriminate.
Defined.

(** ** The run in targeted write mode *)

Lemma full_reads_no_write (evs : list event) :
  Forall full_read evs -> List.filter is_write evs = [].
Proof.
  induction 1 as [|e evs (off & n & ->) _ IH]; [reflexivity|]. exact IH.
Qed.

(** The turn at the bytes of a well-formed record that lie in the file
    behind [pre], with the writes it makes. *)
Lemma record_turn cfg off (c c' : list byte) (ws : list event) :
  record_patched (g_cpu cfg) (g_nmi cfg) off c c' ws ->
  0 <= g_cpu cfg < 2 ^ 32 ->
  forall w pre rest,
  fdata w = pre ++ c ++ rest ->
  fpos w = Z.of_nat (length pre) ->
  off = Z.of_nat (length pre) ->
  Z.of_nat (length (fdata w)) <= LONG_MAX ->
  length c' = length c
  /\ exists evs,
       setnmi_iter cfg w
       = Ok Continue {| fdata := pre ++ c' ++ rest;
                        fpos := Z.of_nat (length pre) + Z.of_nat (length c);
                        log := log w ++ evs |}
       /\ List.filter is_write evs = ws.
Proof.
  intros Hc Hcpu w pre rest Hd Hpos Hoff Hsize.
  assert (Hp : 0 <= fpos w) by lia.
  assert (Hav : avail w = c ++ rest).
  { unfold avail. rewrite Hd, Hpos, Nat2Z.id. apply drop_app_length. }
  assert (Htarget : forall tagb nameb idxb v,
    c = tagb ++ nameb ++ idxb ++ [v] ->
    length tagb = 2%nat ->
    Z.of_nat (length nameb) = VMSS_TAG_NAMELEN (le_val tagb) ->
    Z.of_nat (length idxb) = sizeof_index * VMSS_TAG_NINDX (le_val tagb) ->
    cstring nameb = pendingNMI ->
    VMSS_TAG_VALSIZE (le_val tagb) = 1 ->
    let p := off + Z.of_nat (length (tagb ++ nameb ++ idxb)) in
    let hit := index_at idxb 0 =? g_cpu cfg in
    exists evs,
      setnmi_iter cfg w
      = Ok Continue
          {| fdata := pre ++ (tagb ++ nameb ++ idxb
                              ++ [if hit then g_nmi cfg else v]) ++ rest;
             fpos := Z.of_nat (length pre) + Z.of_nat (length c);
             log := log w ++ evs |}
      /\ List.filter is_write evs
         = if hit then [EvWrite p [g_nmi cfg]] else []).
  { intros tagb nameb idxb v -> Htag Hname Hidx Hn Hsz p hit.
    rewrite <- !app_assoc in Hav. cbn [app] in Hav.
    destruct (setnmi_iter_target cfg w tagb nameb idxb v rest
                Hp Hsize Hav Htag Hname Hidx Hn Hsz) as [_ Hrun].
    cbv zeta in Hrun. rewrite to_uint32_small in Hrun by exact Hcpu.
    pose proof (namelen_range (le_val tagb)) as Rn.
    pose proof (nindx_range (le_val tagb)) as Ri.
    set (q := fpos w + sizeof_tag + VMSS_TAG_NAMELEN (le_val tagb)
              + sizeof_index * VMSS_TAG_NINDX (le_val tagb)) in *.
    assert (Hq : q = p) by (subst p q; rewrite !length_app; sizes).
    assert (Hpn : Z.to_nat q = length (pre ++ tagb ++ nameb ++ idxb)).
    { rewrite !length_app. subst q. sizes. }
    assert (Hend : q + 1 = Z.of_nat (length pre)
                           + Z.of_nat (length (tagb ++ nameb ++ idxb ++ [v]))).
    { rewrite !length_app. cbn [length]. subst q. sizes. }
    assert (Hins : forall x, <[Z.to_nat q := x]> (fdata w)
                             = pre ++ (tagb ++ nameb ++ idxb ++ [x]) ++ rest).
    { intros x. rewrite Hpn, Hd.
      replace (pre ++ (tagb ++ nameb ++ idxb ++ [v]) ++ rest)
        with ((pre ++ tagb ++ nameb ++ idxb) ++ v :: rest)
        by (rewrite <- !app_assoc; reflexivity).
      rewrite insert_behind, <- !app_assoc. reflexivity. }
    subst hit. destruct (index_at idxb 0 =? g_cpu cfg).
    - eexists. split.
      + rewrite Hrun, Hins, Hend.
        unfold head_read, moved. cbn [log]. apply f_equal, world_ext;
          [reflexivity | rewrite <- app_assoc; reflexivity].
      + cbn. rewrite Hq. reflexivity.
    - eexists. split.
      + rewrite Hrun, Hd, Hend.
        unfold head_read, moved. cbn [log]. apply f_equal, world_ext;
          [reflexivity | rewrite <- app_assoc; reflexivity].
      + reflexivity. }
  destruct Hc as [c Hskip
                 | tagb nameb idxb v Htag Hname Hidx Hn Hsz Hhit
                 | tagb nameb idxb v Htag Hname Hidx Hn Hsz Hmiss].
  - split; [reflexivity|].
    destruct (skippable_turn cfg c Hskip w rest Hp Hav) as (evs & Hfull & Hrun).
    { rewrite Hd, !length_app in Hsize. lia. }
    exists evs. split; [|apply full_reads_no_write; exact Hfull].
    rewrite Hrun. unfold moved. rewrite Hd, Hpos. reflexivity.
  - split; [rewrite !length_app; reflexivity|].
    destruct (Htarget tagb nameb idxb v eq_refl Htag Hname Hidx Hn Hsz)
      as (evs & Hrun & Hw).
    rewrite (proj2 (Z.eqb_eq _ _) Hhit) in Hrun, Hw.
    exists evs. split; assumption.
  - split; [reflexivity|].
    destruct (Htarget tagb nameb idxb v eq_refl Htag Hname Hidx Hn Hsz)
      as (evs & Hrun & Hw).
    rewrite (proj2 (Z.eqb_neq _ _) Hmiss) in Hrun, Hw.
    exists evs. split; assumption.
Qed.

(** The loop over a well-formed stream that lies in the file behind
    [pre], with the writes it makes. *)
Lemma stream_loop cfg off (chunks chunks' : list (list byte)) (ws : list event) :
  stream_patched (g_cpu cfg) (g_nmi cfg) off chunks chunks' ws ->
  0 <= g_cpu cfg < 2 ^ 32 ->
  forall (w : world) (pre tagz rest : list byte),
  fdata w = pre ++ concat chunks ++ tagz ++ rest ->
  fpos w = Z.of_nat (length pre) ->
  off = Z.of_nat (length pre) ->
  length tagz = 2%nat ->
  le_val tagz = VMSS_TAG_NULL ->
  Z.of_nat (length (fdata w)) <= LONG_MAX ->
  length (concat chunks') = length (concat chunks)
  /\ exists evs,
       List.filter is_write evs = ws
       /\ forall fuel, (length chunks < fuel)%nat ->
          setnmi_loop fuel cfg w
          = Ok tt {| fdata := pre ++ concat chunks' ++ tagz ++ rest;
                     fpos := Z.of_nat (length pre)
                             + Z.of_nat (length (concat chunks)) + 2;
                     log := log w ++ evs |}.
Proof.
  intros Hs Hcpu.
  induction Hs as [off | off c c' cs cs' ws ws' Hc _ IH];
    intros w pre tagz rest Hd Hpos Hoff Htag Hz Hsize.
  - cbn [concat app] in *. split; [reflexivity|].
    exists [EvRead (fpos w) 2 2]. split; [reflexivity|].
    intros fuel Hf. destruct fuel as [|fuel]; [cbn in Hf; lia|].
    apply setnmi_loop_break.
    rewrite (setnmi_iter_break cfg w tagz rest); [| | exact Htag | exact Hz].
    + unfold moved. rewrite Hd, Hpos. f_equal. cbn [length].
      apply world_ext; [lia | reflexivity].
    + unfold avail. rewrite Hd, Hpos, Nat2Z.id. apply drop_app_length.
  - cbn [concat] in Hd. rewrite <- app_assoc in Hd.
    destruct (record_turn cfg off c c' ws Hc Hcpu w pre _ Hd Hpos Hoff Hsize)
      as (Hlen & evs1 & Hturn & Hw1).
    set (w1 := {| fdata := pre ++ c' ++ concat cs ++ tagz ++ rest;
                  fpos := Z.of_nat (length pre) + Z.of_nat (length c);
                  log := log w ++ evs1 |}) in *.
    destruct (IH w1 (pre ++ c') tagz rest) as (Hlens & evs2 & Hw2 & Hloop).
    + cbn [fdata w1]. rewrite <- app_assoc. reflexivity.
    + cbn [fpos w1]. rewrite length_app, Hlen. lia.
    + rewrite length_app, Hlen. lia.
    + exact Htag.
    + exact Hz.
    + cbn [fdata w1]. rewrite Hd in Hsize. rewrite !length_app in *. lia.
    + split; [cbn [concat]; rewrite !length_app; lia|].
      exists (evs1 ++ evs2). split; [rewrite List.filter_app, Hw1, Hw2; reflexivity|].
      intros fuel Hf.
      destruct fuel as [|fuel]; [cbn in Hf; lia|].
      rewrite (setnmi_loop_continue _ _ _ _ Hturn).
      rewrite Hloop by (cbn [length] in Hf; lia).
      cbn [concat log w1]. f_equal.
      rewrite <- !app_assoc. apply f_equal3; [reflexivity | | reflexivity].
      rewrite !length_app, Hlen. lia.
Qed.

(** [scan_groups] on a table whose "cpu" groups hold well-formed streams. *)
Lemma groups_scan cfg fuel (entries : list (list byte))
    (data data' : list byte) (ws : list event) :
  groups_patched (g_cpu cfg) (g_nmi cfg) fuel entries data data' ws ->
  0 <= g_cpu cfg < 2 ^ 32 ->
  Z.of_nat (length data) <= LONG_MAX ->
  forall w, fdata w = data ->
  length data' = length data
  /\ exists p evs,
       scan_groups fuel cfg entries w
       = Ok tt {| fdata := data'; fpos := p; log := log w ++ evs |}
       /\ List.filter is_write evs = ws.
Proof.
  intros Hg Hcpu.
  induction Hg as [data
                  | gb entries data data' ws Hgb _ IH
                  | gb entries pre chunks chunks' tagz rest data data' ws ws'
                       Hgb Hoffs Hdata Hs Htag Hz Hfuel _ IH];
    intros Hsize w Hd.
  - split; [reflexivity|]. exists (fpos w), []. split; [|reflexivity].
    cbn [scan_groups]. unfold ret. f_equal. destruct w as [d p l].
    cbn [fdata fpos log] in *. subst d. rewrite app_nil_r. reflexivity.
  - cbn [scan_groups]. rewrite Hgb. erewrite bind_ok by reflexivity.
    apply IH; assumption.
  - set (w1 := {| fdata := fdata w; fpos := Z.of_nat (length pre);
                  log := log w |}).
    assert (Hpre : Z.of_nat (length pre) <= Z.of_nat (length data))
      by (rewrite Hdata, length_app; lia).
    assert (Hseek : fseek (to_long (vmss_group_offs (parse_group gb))) SEEK_SET w
                    = Ok 0 w1).
    { unfold fseek. rewrite Hoffs.
      rewrite to_long_id by (unfold LONG_MAX in Hsize; lia).
      rewrite (proj2 (Z.leb_le 0 _)), (proj2 (Z.leb_le _ LONG_MAX)) by lia.
      reflexivity. }
    destruct (stream_loop cfg _ chunks chunks' ws Hs Hcpu w1 pre tagz rest)
      as (Hlens & evs1 & Hw1 & Hloop);
      [cbn [fdata w1]; congruence | reflexivity | reflexivity | exact Htag
      | exact Hz | cbn [fdata w1]; rewrite Hd; exact Hsize |].
    set (w2 := {| fdata := pre ++ concat chunks' ++ tagz ++ rest;
                  fpos := Z.of_nat (length pre)
                          + Z.of_nat (length (concat chunks)) + 2;
                  log := log w ++ evs1 |}).
    assert (Hlen2 : length (pre ++ concat chunks' ++ tagz ++ rest) = length data).
    { rewrite Hdata, !length_app. lia. }
    destruct IH with (w := w2) as (Hlen' & p & evs2 & Hrest & Hw2);
      [rewrite Hlen2; exact Hsize | reflexivity |].
    split; [congruence|]. exists p, (evs1 ++ evs2).
    split; [|rewrite List.filter_app, Hw1, Hw2; reflexivity].
    cbn [scan_groups]. rewrite Hgb.
    erewrite bind_ok; cycle 1.
    { rewrite (setnmi_seek _ _ _ _ _ Hseek). apply Hloop. exact Hfuel. }
    change (log w1) with (log w). fold w2. rewrite Hrest. cbn [log w2].
    rewrite <- app_assoc. reflexivity.
Qed.

(** What the relations say about the bytes: the file keeps its length,
    and a byte of the file that is not the byte that was there is the
    replacement, at an offset that one of the writes names. *)
Lemma record_patched_frame K b off (c c' : list byte) (ws : list event) :
  record_patched K b off c c' ws ->
  length c' = length c
  /\ forall i x, c' !! i = Some x ->
       c !! i = Some x
       \/ (x = b /\ In (EvWrite (off + Z.of_nat i) [b]) ws).
Proof.
  intros Hc.
  destruct Hc as [c Hskip
                 | tagb nameb idxb v Htag Hname Hidx Hn Hsz Hhit
                 | tagb nameb idxb v Htag Hname Hidx Hn Hsz Hmiss].
  - split; [reflexivity|]. intros i x H. left. exact H.
  - split; [rewrite !length_app; reflexivity|]. intros i x H.
    rewrite !app_assoc in H |- *.
    destruct (decide (i < length ((tagb ++ nameb) ++ idxb))%nat) as [Hlt|Hge].
    + left. rewrite lookup_app_l in H |- * by exact Hlt. exact H.
    + rewrite lookup_app_r in H by lia.
      destruct (i - length ((tagb ++ nameb) ++ idxb))%nat as [|k] eqn:E;
        [|discriminate H].
      injection H as <-. right. split; [reflexivity|]. left.
      rewrite <- !app_assoc in *. f_equal. lia.
  - split; [reflexivity|]. intros i x H. left. exact H.
Qed.

Lemma stream_patched_frame K b off (cs cs' : list (list byte)) (ws : list event) :
  stream_patched K b off cs cs' ws ->
  length (concat cs') = length (concat cs)
  /\ forall i x, concat cs' !! i = Some x ->
       concat cs !! i = Some x
       \/ (x = b /\ In (EvWrite (off + Z.of_nat i) [b]) ws).
Proof.
  induction 1 as [off | off c c' cs cs' ws ws' Hc Hs [IHl IH]].
  - split; [reflexivity|]. intros i x H. left. exact H.
  - destruct (record_patched_frame K b off c c' ws Hc) as [Hl Hf].
    split; [cbn [concat]; rewrite !length_app; lia|].
    intros i x H. cbn [concat] in H |- *.
    destruct (decide (i < length c')%nat) as [Hlt|Hge].
    + rewrite lookup_app_l in H by exact Hlt.
      destruct (Hf i x H) as [H'|[-> Hin]].
      * left. rewrite lookup_app_l by lia. exact H'.
      * right. split; [reflexivity|]. apply in_or_app. left. exact Hin.
    + rewrite lookup_app_r in H by lia.
      destruct (IH _ x H) as [H'|[-> Hin]].
      * left. rewrite lookup_app_r by lia. rewrite <- Hl. exact H'.
      * right. split; [reflexivity|]. apply in_or_app. right.
        replace (off + Z.of_nat i)
          with (off + Z.of_nat (length c) + Z.of_nat (i - length c')) by lia.
        exact Hin.
Qed.

Lemma groups_patched_frame K b fuel (entries : list (list byte))
    (data data' : list byte) (ws : list event) :
  groups_patched K b fuel entries data data' ws ->
  length data' = length data
  /\ forall i x, data' !! i = Some x ->
       data !! i = Some x
       \/ (x = b /\ In (EvWrite (Z.of_nat i) [b]) ws).
Proof.
  induction 1 as [data
                 | gb entries data data' ws Hgb _ IH
                 | gb entries pre chunks chunks' tagz rest data data' ws ws'
                      Hgb Hoffs Hdata Hs Htag Hz Hfuel _ [IHl IH]].
  - split; [reflexivity|]. intros i x H. left. exact H.
  - exact IH.
  - destruct (stream_patched_frame K b _ chunks chunks' ws Hs) as [Hl Hf].
    split; [rewrite IHl, Hdata, !length_app; lia|].
    intros i x H. destruct (IH i x H) as [H1|[-> Hin]].
    2: { right. split; [reflexivity|]. apply in_or_app. right. exact Hin. }
    rewrite Hdata.
    destruct (decide (i < length pre)%nat) as [Hlt|Hge].
    { left. rewrite lookup_app_l in H1 |- * by exact Hlt. exact H1. }
    rewrite lookup_app_r in H1 |- * by lia.
    destruct (decide (i - length pre < length (concat chunks'))%nat) as [Hlt|Hge2].
    + rewrite lookup_app_l in H1 by exact Hlt.
      destruct (Hf _ x H1) as [H2|[-> Hin]].
      * left. rewrite lookup_app_l by lia. exact H2.
      * right. split; [reflexivity|]. apply in_or_app. left.
        replace (Z.of_nat i)
          with (Z.of_nat (length pre) + Z.of_nat (i - length pre)) by lia.
        exact Hin.
    + left. rewrite lookup_app_r in H1 |- * by lia. rewrite <- Hl. exact H1.
Qed.

(** Every write of the relations is a write of the replacement, and the
    byte at its offset is the replacement when the run is over. *)
Lemma record_patched_writes K b off (c c' : list byte) (ws : list event) :
  record_patched K b off c c' ws ->
  forall e, In e ws ->
  exists j, e = EvWrite (off + Z.of_nat j) [b] /\ c' !! j = Some b.
Proof.
  intros Hc.
  destruct Hc as [c Hskip
                 | tagb nameb idxb v Htag Hname Hidx Hn Hsz Hhit
                 | tagb nameb idxb v Htag Hname Hidx Hn Hsz Hmiss];
    intros e Hin.
  - destruct Hin.
  - destruct Hin as [<-|[]].
    exists (length (tagb ++ nameb ++ idxb)). split; [reflexivity|].
    rewrite !app_assoc, lookup_app_r by (rewrite <- !app_assoc; lia).
    rewrite <- !app_assoc, Nat.sub_diag. reflexivity.
  - destruct Hin.
Qed.

Lemma stream_patched_writes K b off (cs cs' : list (list byte)) (ws : list event) :
  stream_patched K b off cs cs' ws ->
  forall e, In e ws ->
  exists j, e = EvWrite (off + Z.of_nat j) [b] /\ concat cs' !! j = Some b.
Proof.
  induction 1 as [off | off c c' cs cs' ws ws' Hc Hs IH]; intros e Hin;
    [destruct Hin|].
  destruct (record_patched_frame K b off c c' ws Hc) as [Hl _].
  apply in_app_or in Hin. destruct Hin as [Hin|Hin].
  - destruct (record_patched_writes K b off c c' ws Hc e Hin) as (j & -> & Hj).
    exists j. split; [reflexivity|]. cbn [concat].
    rewrite lookup_app_l by (apply lookup_lt_Some in Hj; exact Hj). exact Hj.
  - destruct (IH e Hin) as (j & -> & Hj).
    exists (length c' + j)%nat. split; [f_equal; lia|]. cbn [concat].
    rewrite lookup_app_r by lia.
    replace (length c' + j - length c')%nat with j by lia. exact Hj.
Qed.

Lemma groups_patched_writes K b fuel (entries : list (list byte))
    (data data' : list byte) (ws : list event) :
  groups_patched K b fuel entries data data' ws ->
  forall e, In e ws ->
  exists i, e = EvWrite (Z.of_nat i) [b] /\ data' !! i = Some b.
Proof.
  induction 1 as [data
                 | gb entries data data' ws Hgb _ IH
                 | gb entries pre chunks chunks' tagz rest data data' ws ws'
                      Hgb Hoffs Hdata Hs Htag Hz Hfuel Hrest IH];
    intros e Hin; [destruct Hin | exact (IH e Hin) |].
  apply in_app_or in Hin. destruct Hin as [Hin|Hin]; [|exact (IH e Hin)].
  destruct (stream_patched_writes K b _ chunks chunks' ws Hs e Hin)
    as (j & -> & Hj).
  exists (length pre + j)%nat. split; [f_equal; lia|].
  destruct (groups_patched_frame K b fuel entries _ data' ws' Hrest)
    as [Hl Hframe].
  assert (H1 : (pre ++ concat chunks' ++ tagz ++ rest) !! (length pre + j)%nat
               = Some b).
  { rewrite lookup_app_r by lia.
    replace (length pre + j - length pre)%nat with j by lia.
    rewrite lookup_app_l by (apply lookup_lt_Some in Hj; exact Hj). exact Hj. }
  destruct (lookup_lt_is_Some_2 data' (length pre + j)) as [x Hx].
  { rewrite Hl. apply lookup_lt_Some in H1. exact H1. }
  destruct (Hframe _ x Hx) as [H2|[-> _]]; [congruence | exact Hx].
Qed.

(** C1.  The run in targeted write mode, from the options to the return
    of [process].  The options are accepted and leave a CPU number in
    [g_cpu] (no [-n] after the last [-c]): that number is K, and [g_nmi]
    is the replacement, 1 or 0 after [-z].  The file holds a header with
    an accepted magic and the whole group table, which fits the stack, and
    every group named "cpu" holds a well-formed tag stream.  Then the run
    returns, and on its way makes exactly the writes [ws]: one write of
    the single byte [g_nmi], at the offset of the value, for every record
    named pendingNMI in a "cpu" group whose [idx[0]] is K, in the order in
    which the records are met, and none for a record whose [idx[0]] is
    another number.  The file it leaves has the length it had; the byte
    at the offset of each of these writes is [g_nmi], and every other byte
    is the byte that was there, the tag, the name and the indices of a
    patched record among them. *)
Theorem targeted_run_patches_file (fuel : nat) (stack : Z) (opts : list opt)
    (cfg : config) (hdrb grpb rest data' : list byte) (ws : list event) :
  let data := hdrb ++ grpb ++ rest in
  getopt_loop initial_config opts (opened data) = Ok cfg (opened data) ->
  0 <= g_cpu cfg ->
  length hdrb = 12%nat ->
  let magic := le_val (take 4 hdrb) in
  magic = VMSS_MAGIC \/ magic = VMSS_MAGIC_RESTORED \/ magic = VMSS_MAGIC_PARTIAL ->
  let ngroups := le_val (take 4 (drop 8 hdrb)) in
  sizeof_group * ngroups <= stack ->
  Z.of_nat (length grpb) = sizeof_group * ngroups ->
  Z.of_nat (length data) <= LONG_MAX ->
  groups_patched (g_cpu cfg) (g_nmi cfg) fuel
    (table_entries (Z.to_nat ngroups) grpb) data data' ws ->
  (exists p evs,
     main fuel stack opts (opened data)
     = Ok tt {| fdata := data'; fpos := p; log := evs |}
     /\ List.filter is_write evs = ws)
  /\ g_nmi cfg = (if has_z opts then x00 else x01)
  /\ length data' = length data
  /\ (forall e, In e ws ->
       exists i, e = EvWrite (Z.of_nat i) [g_nmi cfg]
                 /\ data' !! i = Some (g_nmi cfg))
  /\ (forall i x, data' !! i = Some x ->
       data !! i = Some x
       \/ (x = g_nmi cfg /\ In (EvWrite (Z.of_nat i) [g_nmi cfg]) ws)).
Proof.
  intros data Hopts Hcpu Hlen magic Hmagic ngroups Hfit Hgrp Hsize Hg.
  pose proof (getopt_loop_outcome opts initial_config (opened data)
                ltac:(right; cbn; lia)) as Ho.
  rewrite Hopts in Ho. destruct Ho as (_ & Hrange & Hnmi).
  assert (Hcpu' : 0 <= g_cpu cfg < 2 ^ 32) by lia.
  destruct (groups_scan cfg fuel _ data data' ws Hg Hcpu' Hsize
              (table_read data ngroups) eq_refl)
    as (Hl & p & evs & Hrun & Hw).
  destruct (groups_patched_frame _ _ _ _ _ _ _ Hg) as [_ Hframe].
  split; [|split; [exact Hnmi | split; [exact Hl | split; [|exact Hframe]]]].
  2: exact (groups_patched_writes _ _ _ _ _ _ _ Hg).
  exists p, (log (table_read data ngroups) ++ evs). split.
  - unfold main. erewrite bind_ok by exact Hopts. subst data.
    rewrite (process_table fuel stack cfg hdrb grpb rest Hlen Hmagic Hfit Hgrp).
    exact Hrun.
  - rewrite List.filter_app, Hw. reflexivity.
Qed.

Lemma targeted_run_patches_file_witness :
  exists p evs,
    main 3 sample_stack [opt_c 0 true] (opened sample_file)
    = Ok tt {| fdata := <[117%nat := x01]> sample_file; fpos := p; log := evs |}
    /\ List.filter is_write evs = [EvWrite 117 [x01]].
Proof.
  apply (targeted_run_patches_file 3 sample_stack [opt_c 0 true] initial_config
           (header VMSS_MAGIC 8 1) (group_entry "cpu" 92 28) sample_stream
           (<[117%nat := x01]> sample_file) [EvWrite 117 [x01]]).
  - reflexivity.
  - discriminate.
  - reflexivity.
  - left. reflexivity.
  - vm_compute. discriminate.
  - reflexivity.
  - vm_compute. discriminate.
  - apply (groups_cpu 0 x01 3 (group_entry "cpu" 92 28) []
             (header VMSS_MAGIC 8 1 ++ group_entry "cpu" 92 28)
             [take 9 sample_stream; take 17 (drop 9 sample_stream)]
             [take 9 sample_stream; take 16 (drop 9 sample_stream) ++ [x01]]
             [x00; x00] [] sample_file (<[117%nat := x01]> sample_file)
             [EvWrite 117 [x01]] []).
    + reflexivity.
    + reflexivity.
    + reflexivity.
    + apply (stream_record 0 x01 92 _ _ _ _ [] [EvWrite 117 [x01]]).
      * apply record_over.
        apply (skippable_inline [byte_of 0x04; byte_of 0x03]
                 (list_byte_of_string "foo") [] [x01; x02; x03; x04]);
          try reflexivity; discriminate.
      * apply (stream_record 0 x01 101 _ _ _ _ [EvWrite 117 [x01]] []).
        -- apply (record_hit 0 x01 101 [byte_of 0x41; byte_of 0x0a] pendingNMI
                    [x00; x00; x00; x00] x00); reflexivity.
        -- apply stream_end.
    + reflexivity.
    + reflexivity.
    + vm_compute. lia.
    + apply groups_done.
Defined.
